(** * Horovod: enqueue API, background loop, hierarchical Adasum allreduce
      and timeline writer

    A shallow embedding of
      - [horovod/common/operations.cc]  (enqueue API, [PerformOperation],
        [GetTensorDataForAutotuner], [RunLoopOnce], the loop and the
        shutdown tail of [BackgroundThreadLoop], lifecycle queries),
      - the Adasum CUDA operation ([AdasumCudaAllreduceOp::NcclHierarchical],
        its sequence of calls, and [Enabled]),
      - [horovod/tensorflow/timeline.cc] ([Timeline::WriteEvent] and the
        public event methods),
    followed by the properties established about them.

    Conventions.  C++ [int] and [int64_t] values are integers of [Z]; every
    arithmetic operation that the source performs in a fixed width is
    followed by the wrap-around of that width ([int], [int64_t], [size_t]
    below).  Hash maps are [gmap]s, vectors and queues are lists.  Calls
    into collaborators whose code is elsewhere (ready events, the operation
    manager, callbacks, the timeline sink of operations.cc) are recorded in
    an explicit trace or answered by an explicit oracle. *)

From Stdlib Require Import ZArith Lia List Ascii String DecimalString.
From stdpp Require Import gmap strings list fin_maps.

Local Open Scope Z_scope.

(* ===================================================================== *)
(** * Fixed-width integers *)
(* ===================================================================== *)

Module MachineInt.

(** Two's complement wrap-around of a [w]-bit signed integer. *)
Definition wrap (w : Z) (x : Z) : Z :=
  (x + 2 ^ (w - 1)) mod 2 ^ w - 2 ^ (w - 1).

(** C++ [int] (32 bits on every platform Horovod builds on). *)
Definition int (x : Z) : Z := wrap 32 x.

(** C++ [int64_t]. *)
Definition int64_t (x : Z) : Z := wrap 64 x.

(** C++ [size_t] (64 bits, unsigned). *)
Definition size_t (x : Z) : Z := x mod 2 ^ 64.

Definition INT_MIN : Z := - 2 ^ 31.
Definition INT_MAX : Z := 2 ^ 31 - 1.
Definition INT64_MIN : Z := - 2 ^ 63.
Definition INT64_MAX : Z := 2 ^ 63 - 1.

Definition is_int (x : Z) : Prop := INT_MIN <= x <= INT_MAX.
Definition is_int64 (x : Z) : Prop := INT64_MIN <= x <= INT64_MAX.

End MachineInt.

Import MachineInt.

(* ===================================================================== *)
(** * Data model shared by the operations *)
(* ===================================================================== *)

(** [Status] of common.h, as operations.cc uses it: the type tag and the
    reason.  [Status::ok()] and [Status::in_progress()] test the tag. *)
Inductive StatusType : Type :=
| OK | UNKNOWN_ERROR | PRECONDITION_ERROR | ABORTED | INVALID_ARGUMENT | IN_PROGRESS.

Record Status : Type := mkStatus { status_type : StatusType; reason : string }.

Definition Status_OK : Status := mkStatus OK "".
Definition Status_UnknownError (message : string) : Status := mkStatus UNKNOWN_ERROR message.
Definition Status_PreconditionError (message : string) : Status :=
  mkStatus PRECONDITION_ERROR message.
Definition Status_InvalidArgument (message : string) : Status :=
  mkStatus INVALID_ARGUMENT message.

Definition ok (s : Status) : bool :=
  match status_type s with OK => true | _ => false end.
Definition in_progress (s : Status) : bool :=
  match status_type s with IN_PROGRESS => true | _ => false end.

(** What the operations observe of a framework tensor through the abstract
    [Tensor] interface: [dtype()], the dimensions and [num_elements()] of
    [shape()], and [size()] in bytes. *)
Record Tensor : Type := mkTensor {
  dtype : Z;
  dims : list Z;
  num_elements : Z;
  size_bytes : Z
}.

(** A [StatusCallback] is an opaque closure of the framework; an invocation
    is recorded with the closure's identity and the status it receives. *)
Definition StatusCallback : Type := nat.

(** A [ReadyEvent] handle; a null [shared_ptr] is [None]. *)
Definition ReadyEvent : Type := nat.

Record TensorTableEntry : Type := mkEntry {
  tensor_name : string;
  context : Z;
  tensor : Tensor;
  output : option Tensor;
  root_rank : Z;
  ready_event : option ReadyEvent;
  device : Z;
  callback : StatusCallback
}.

(** The queries of [Controller] that the modelled code reads. *)
Record Controller : Type := mkController {
  GetRank : Z;
  GetLocalRank : Z;
  GetSize : Z;
  GetLocalSize : Z;
  IsHomogeneous : bool;
  IsMpiThreadsSupported : bool
}.

(** [Response] of message.h, as far as the modelled code reads it. *)
Inductive ResponseType : Type := ALLREDUCE | ALLGATHER | BROADCAST | ERROR.

Record Response : Type := mkResponse {
  response_type : ResponseType;
  tensor_names : list string;
  devices : list Z
}.

(** The tuning knobs of [ParameterManager] that the capability checks are
    handed. *)
Record ParameterManager : Type := mkParameterManager {
  HierarchicalAllreduce : bool;
  HierarchicalAllgather : bool
}.

(* ===================================================================== *)
(** * AdasumCudaAllreduceOp *)
(* ===================================================================== *)

Module AdasumCudaAllreduceOp.
Section Op.

(** [FUSION_BUFFER_ATOMIC_UNIT] and [CPU_DEVICE_ID] are macros of common.h;
    the operation is modelled for any value of them. *)
Variable FUSION_BUFFER_ATOMIC_UNIT : Z.
Variable CPU_DEVICE_ID : Z.

(** [for (auto& e : entries) num_elements += e.tensor->shape().num_elements()] *)
Definition sum_num_elements (entries : list TensorTableEntry) : Z :=
  fold_left (fun acc e => int64_t (acc + num_elements (tensor e))) entries 0.

(** The padding of lines 66-67:
    [div = local_size * FUSION_BUFFER_ATOMIC_UNIT] (an [int]) and
    [num_elements = ((num_elements + div - 1) / div) * div]. *)
Definition fusion_div (local_size : Z) : Z :=
  int (local_size * FUSION_BUFFER_ATOMIC_UNIT).

Definition pad_num_elements (n local_size : Z) : Z :=
  let div := fusion_div local_size in
  int64_t (Z.quot (int64_t (int64_t (n + div) - 1)) div * div).

(** The per-tensor element counts owned by this rank, homogeneous branch
    (the loop of lines 173-190); [num_elements_sofar] is the loop-carried
    offset of the current entry in the fused tensor. *)
Fixpoint tensor_counts_homogeneous
    (local_rank local_size num_elements_per_rank : Z) (is_root_rank : bool)
    (num_elements_sofar : Z) (entries : list TensorTableEntry) : list Z :=
  match entries with
  | [] => []
  | e :: rest =>
    let e_num_elements := num_elements (tensor e) in
    let left_boundary :=
      Z.max num_elements_sofar (int64_t (local_rank * num_elements_per_rank)) in
    let right_boundary :=
      Z.min (int64_t (num_elements_sofar + e_num_elements))
            (int64_t (int (local_rank + 1) * num_elements_per_rank)) in
    let count := int (Z.max (int64_t (right_boundary - left_boundary)) 0) in
    let count :=
      if is_root_rank
      then
        if int64_t (local_size * num_elements_per_rank)
             <=? int64_t (num_elements_sofar + e_num_elements)
        then
          let left_boundary :=
            Z.max num_elements_sofar (int64_t (local_size * num_elements_per_rank)) in
          let right_boundary := int64_t (num_elements_sofar + e_num_elements) in
          int (int64_t (count + Z.max (int64_t (right_boundary - left_boundary)) 0))
        else count
      else count in
    count :: tensor_counts_homogeneous local_rank local_size num_elements_per_rank
               is_root_rank (int64_t (num_elements_sofar + e_num_elements)) rest
  end.

(** Non-homogeneous branch on the root rank (lines 194-201):
    [int e_num_elements = e.tensor->shape().num_elements()]. *)
Definition tensor_counts_root_owns_all (entries : list TensorTableEntry) : list Z :=
  map (fun e => int (num_elements (tensor e))) entries.

(** Everything [NcclHierarchical] computes before and between the
    collective calls; byte offsets are relative to [buffer_data]. *)
Record Split : Type := mkSplit {
  split_num_elements : Z;
  buffer_len : Z;
  num_elements_per_rank : Z;
  buffer_len_per_rank : Z;
  rank_offset : Z;
  num_elements_remaining : Z;
  buffer_len_remaining : Z;
  remainder_offset : Z;
  split_root_rank : Z;
  is_root_rank : bool;
  total_num_elements : Z;
  total_buffer_len : Z;
  tensor_counts : option (list Z)
}.

(** [NcclHierarchical], lines 20-202.  [fused_len] is the length that
    [MemcpyInFusionBuffer] reports when several entries are fused;
    [element_size] is [GetMPITypeSize] of the first entry's dtype.
    There is no result ([None]) where the C++ has no defined behaviour:
    [entries[0]] of an empty vector, a null [output] of the only entry, a
    division by zero. *)
Definition NcclHierarchical (ctl : Controller) (element_size fused_len : Z)
    (entries : list TensorTableEntry) : option Split :=
  match entries with
  | [] => None
  | first_entry :: _ =>
    buffer_len ←
      (if 1 <? Z.of_nat (length entries) then Some fused_len
       else (fun o => size_t (size_bytes o)) <$> output first_entry);
    let num_elements := sum_num_elements entries in
    let local_size := GetLocalSize ctl in
    let local_rank := GetLocalRank ctl in
    let fused := IsHomogeneous ctl && (1 <? Z.of_nat (length entries)) in
    if fused && (fusion_div local_size =? 0) then None
    else if IsHomogeneous ctl && (local_size =? 0) then None
    else
    let '(num_elements, buffer_len) :=
      if fused
      then
        let n := pad_num_elements num_elements local_size in
        (n, size_t (int64_t (n * element_size)))
      else (num_elements, buffer_len) in
    let num_elements_per_rank :=
      if IsHomogeneous ctl then Z.quot num_elements local_size else 0 in
    let buffer_len_per_rank := size_t (int64_t (element_size * num_elements_per_rank)) in
    let rank_offset := size_t (buffer_len_per_rank * local_rank) in
    let num_elements_remaining :=
      if IsHomogeneous ctl then Z.rem num_elements local_size else num_elements in
    let buffer_len_remaining :=
      size_t (int64_t (element_size * num_elements_remaining)) in
    let remainder_offset := size_t (buffer_len_per_rank * local_size) in
    let root_rank := if IsHomogeneous ctl then int (local_size - 1) else 0 in
    let is_root_rank := local_rank =? root_rank in
    let total_num_elements :=
      if is_root_rank
      then int64_t (num_elements_per_rank + num_elements_remaining)
      else num_elements_per_rank in
    let total_buffer_len :=
      if is_root_rank
      then int64_t (size_t (buffer_len_per_rank + buffer_len_remaining))
      else int64_t buffer_len_per_rank in
    let tensor_counts :=
      if IsHomogeneous ctl || is_root_rank
      then Some
        (if IsHomogeneous ctl
         then tensor_counts_homogeneous local_rank local_size
                num_elements_per_rank is_root_rank 0 entries
         else if is_root_rank
              then tensor_counts_root_owns_all entries
              else repeat 0 (length entries))
      else None in
    Some {| split_num_elements := num_elements;
            buffer_len := buffer_len;
            num_elements_per_rank := num_elements_per_rank;
            buffer_len_per_rank := buffer_len_per_rank;
            rank_offset := rank_offset;
            num_elements_remaining := num_elements_remaining;
            buffer_len_remaining := buffer_len_remaining;
            remainder_offset := remainder_offset;
            split_root_rank := root_rank;
            is_root_rank := is_root_rank;
            total_num_elements := total_num_elements;
            total_buffer_len := total_buffer_len;
            tensor_counts := tensor_counts |}
  end.

(** [Execute]: an empty entry list is answered with OK at once, without a
    split ([Some None]). *)
Definition Execute (ctl : Controller) (element_size fused_len : Z)
    (entries : list TensorTableEntry) : option (option Split) :=
  if decide (entries = []) then Some None
  else Some <$> NcclHierarchical ctl element_size fused_len entries.

(** [Enabled], lines 263-267: [entries[0].device != CPU_DEVICE_ID]. *)
Definition Enabled (param_manager : ParameterManager)
    (entries : list TensorTableEntry) (response : Response) : option bool :=
  match entries with
  | [] => None
  | first_entry :: _ => Some (negb (device first_entry =? CPU_DEVICE_ID))
  end.

End Op.

(** An entry of [n] elements on GPU 0, for examples. *)
Definition entry_of (n : Z) : TensorTableEntry :=
  {| tensor_name := "t"; context := 0;
     tensor := mkTensor 0 [n] n (4 * n);
     output := Some (mkTensor 0 [n] n (4 * n));
     root_rank := 0; ready_event := None; device := 0; callback := 0%nat |}.

Definition homogeneous_rank (local_rank local_size : Z) : Controller :=
  {| GetRank := local_rank; GetLocalRank := local_rank;
     GetSize := 2 * local_size; GetLocalSize := local_size;
     IsHomogeneous := true; IsMpiThreadsSupported := false |}.

End AdasumCudaAllreduceOp.

(* ===================================================================== *)
(** * operations.cc *)
(* ===================================================================== *)

(** [Request] of message.h: the fields the enqueue functions set. *)
Module Request.

Inductive RequestType : Type := ALLREDUCE | ALLGATHER | BROADCAST.

Record t : Type := mk {
  request_rank : Z;
  request_type : RequestType;
  tensor_type : Z;
  tensor_name : string;
  root_rank : Z;
  device : Z;
  tensor_shape : list Z
}.

(** A default-constructed [Request]. *)
Definition empty : t := mk 0 ALLREDUCE 0 "" 0 0 [].

Definition set_request_rank (v : Z) (m : t) : t :=
  mk v (request_type m) (tensor_type m) (tensor_name m) (root_rank m) (device m)
     (tensor_shape m).
Definition set_request_type (v : RequestType) (m : t) : t :=
  mk (request_rank m) v (tensor_type m) (tensor_name m) (root_rank m) (device m)
     (tensor_shape m).
Definition set_tensor_type (v : Z) (m : t) : t :=
  mk (request_rank m) (request_type m) v (tensor_name m) (root_rank m) (device m)
     (tensor_shape m).
Definition set_tensor_name (v : string) (m : t) : t :=
  mk (request_rank m) (request_type m) (tensor_type m) v (root_rank m) (device m)
     (tensor_shape m).
Definition set_root_rank (v : Z) (m : t) : t :=
  mk (request_rank m) (request_type m) (tensor_type m) (tensor_name m) v (device m)
     (tensor_shape m).
Definition set_device (v : Z) (m : t) : t :=
  mk (request_rank m) (request_type m) (tensor_type m) (tensor_name m) (root_rank m) v
     (tensor_shape m).
Definition add_tensor_shape (v : Z) (m : t) : t :=
  mk (request_rank m) (request_type m) (tensor_type m) (tensor_name m) (root_rank m)
     (device m) (tensor_shape m ++ [v]).

End Request.

Module Operations.

Definition NOT_INITIALIZED_ERROR : Status :=
  Status_PreconditionError "Horovod has not been initialized; use hvd.init().".

Definition SHUT_DOWN_ERROR : Status :=
  Status_UnknownError
    ("Horovod has been shut down. This was caused by an exception on one of the "
     ++ "ranks or an attempt to allreduce, allgather or broadcast a tensor after "
     ++ "one of the ranks finished execution. If the shutdown was caused by an "
     ++ "exception, you should see the exception in the log before the first "
     ++ "shutdown message.").

Definition DUPLICATE_NAME_ERROR : Status :=
  Status_InvalidArgument
    ("Requested to allreduce, allgather, or broadcast a tensor with the same "
     ++ "name as another tensor that is currently being processed.  If you want "
     ++ "to request another tensor, use a different tensor name.").

(** The part of [HorovodGlobalState] that the modelled functions touch.
    [controller] is a [shared_ptr]: [None] until [InitializeHorovodOnce]
    has created it. *)
Record HorovodGlobalState : Type := mkGlobal {
  shut_down : bool;
  initialization_done : bool;
  controller : option Controller;
  tensor_table : gmap string TensorTableEntry;
  message_queue : list Request.t
}.

Definition with_tables (g : HorovodGlobalState)
    (tt : gmap string TensorTableEntry) (q : list Request.t) : HorovodGlobalState :=
  {| shut_down := shut_down g; initialization_done := initialization_done g;
     controller := controller g; tensor_table := tt; message_queue := q |}.

Definition with_shut_down (g : HorovodGlobalState) (b : bool) : HorovodGlobalState :=
  {| shut_down := b; initialization_done := initialization_done g;
     controller := controller g; tensor_table := tensor_table g;
     message_queue := message_queue g |}.

(** [std::unordered_map::emplace]: no effect when the key is present. *)
Definition emplace (name : string) (e : TensorTableEntry)
    (tt : gmap string TensorTableEntry) : gmap string TensorTableEntry :=
  match tt !! name with
  | Some _ => tt
  | None => <[name := e]> tt
  end.

(** [for (i = 0; i < dims(); ++i) message.add_tensor_shape(dim_size(i))] *)
Definition add_shape (t : Tensor) (m : Request.t) : Request.t :=
  fold_left (fun m d => Request.add_tensor_shape (int64_t d) m) (dims t) m.

(** The locked tail shared by the three enqueue functions
    (lines 723-734, 762-773, 805-816). *)
Definition enqueue_locked (g : HorovodGlobalState) (name : string)
    (e : TensorTableEntry) (message : Request.t) : Status * HorovodGlobalState :=
  if shut_down g then (SHUT_DOWN_ERROR, g)
  else if decide (is_Some (tensor_table g !! name)) then (DUPLICATE_NAME_ERROR, g)
  else (Status_OK,
        with_tables g (emplace name e (tensor_table g)) (message_queue g ++ [message])).

(** The enqueue functions dereference [horovod_global.controller] first:
    without a controller there is no result. *)
Definition EnqueueTensorAllreduce (g : HorovodGlobalState) (context : Z)
    (tensor : Tensor) (output : option Tensor) (ready_event : option ReadyEvent)
    (name : string) (device : Z) (callback : StatusCallback)
    : option (Status * HorovodGlobalState) :=
  ctl ← controller g;
  let message :=
    add_shape tensor
      (Request.set_request_type Request.ALLREDUCE
        (Request.set_device device
          (Request.set_tensor_type (dtype tensor)
            (Request.set_tensor_name name
              (Request.set_request_rank (GetRank ctl) Request.empty))))) in
  let e := {| tensor_name := name; context := context; tensor := tensor;
              output := output; root_rank := 0; ready_event := ready_event;
              device := device; callback := callback |} in
  Some (enqueue_locked g name e message).

Definition EnqueueTensorAllgather (g : HorovodGlobalState) (context : Z)
    (tensor : Tensor) (ready_event : option ReadyEvent)
    (name : string) (device : Z) (callback : StatusCallback)
    : option (Status * HorovodGlobalState) :=
  ctl ← controller g;
  let message :=
    add_shape tensor
      (Request.set_request_type Request.ALLGATHER
        (Request.set_device device
          (Request.set_tensor_type (dtype tensor)
            (Request.set_tensor_name name
              (Request.set_request_rank (GetRank ctl) Request.empty))))) in
  let e := {| tensor_name := name; context := context; tensor := tensor;
              output := None; root_rank := 0; ready_event := ready_event;
              device := device; callback := callback |} in
  Some (enqueue_locked g name e message).

Definition EnqueueTensorBroadcast (g : HorovodGlobalState) (context : Z)
    (tensor : Tensor) (output : option Tensor) (root_rank : Z)
    (ready_event : option ReadyEvent)
    (name : string) (device : Z) (callback : StatusCallback)
    : option (Status * HorovodGlobalState) :=
  ctl ← controller g;
  let message :=
    add_shape tensor
      (Request.set_request_type Request.BROADCAST
        (Request.set_device device
          (Request.set_root_rank root_rank
            (Request.set_tensor_type (dtype tensor)
              (Request.set_tensor_name name
                (Request.set_request_rank (GetRank ctl) Request.empty)))))) in
  let e := {| tensor_name := name; context := context; tensor := tensor;
              output := output; root_rank := root_rank; ready_event := ready_event;
              device := device; callback := callback |} in
  Some (enqueue_locked g name e message).

(** ** Lifecycle queries (lines 658-693) *)

Definition horovod_rank (g : HorovodGlobalState) : option Z :=
  if negb (initialization_done g) then Some (-1)
  else GetRank <$> controller g.

Definition horovod_local_rank (g : HorovodGlobalState) : option Z :=
  if negb (initialization_done g) then Some (-1)
  else GetLocalRank <$> controller g.

Definition horovod_size (g : HorovodGlobalState) : option Z :=
  if negb (initialization_done g) then Some (-1)
  else GetSize <$> controller g.

Definition horovod_local_size (g : HorovodGlobalState) : option Z :=
  if negb (initialization_done g) then Some (-1)
  else GetLocalSize <$> controller g.

Definition horovod_mpi_threads_supported (g : HorovodGlobalState) : option Z :=
  if negb (initialization_done g) then Some (-1)
  else (fun mpiController => if IsMpiThreadsSupported mpiController then 1 else 0)
         <$> controller g.

(** ** The shutdown tail of [BackgroundThreadLoop] (lines 525-543) *)

(** What the background thread does to its collaborators, in order. *)
Inductive ExecResult : Type :=
| Finished (status : Status)
| Threw (what : string).

Inductive Event : Type :=
| TimelineStart (name : string) (t : ResponseType)
| TimelineEnd (name : string) (output : option Tensor)
| TimelineActivityStart (name : string) (activity : string)
| TimelineActivityEnd (name : string)
| InitializeBufferCalled (device context : Z) (status : Status)
| ReadyPolled (e : TensorTableEntry) (ready : bool)
| SleepFor (nanoseconds : Z)
| ExecuteOperationCalled (entries : list TensorTableEntry) (response : Response)
    (result : ExecResult)
| CallbackInvoked (cb : StatusCallback) (status : Status).

(** [while (!state.message_queue.empty()) state.message_queue.pop();] *)
Fixpoint pop_all (q : list Request.t) : list Request.t :=
  match q with
  | [] => []
  | _ :: q' => pop_all q'
  end.

(** [for (auto& e : state.tensor_table) callbacks.emplace_back(e.second.callback)],
    visiting the entries in the order of [map_to_list], which is one of
    the orders in which the hash map may be visited; the sequence for any
    order is [BackgroundThreadLoop_shutdown_visiting] below. *)
Definition collect_callbacks (tt : gmap string TensorTableEntry) : list StatusCallback :=
  map (fun e => callback (snd e)) (map_to_list tt).

Definition BackgroundThreadLoop_shutdown (state : HorovodGlobalState)
    : HorovodGlobalState * list Event :=
  let state := with_shut_down state true in
  let callbacks := collect_callbacks (tensor_table state) in
  let state := with_tables state ∅ (pop_all (message_queue state)) in
  (state, map (fun cb => CallbackInvoked cb SHUT_DOWN_ERROR) callbacks).

(** ** [PerformOperation] (lines 239-328) *)

(** How a run of [PerformOperation] ends: it returns, an [assert] fails,
    or the polling loop is still running when the fuel is used up. *)
Inductive Outcome (A : Type) : Type :=
| Returned (a : A)
| AssertionFailed
| StillWaiting.
Arguments Returned {A} a.
Arguments AssertionFailed {A}.
Arguments StillWaiting {A}.

Definition WAIT_FOR_DATA : string := "WAIT_FOR_DATA".
Definition WAIT_FOR_OTHER_TENSOR_DATA : string := "WAIT_FOR_OTHER_TENSOR_DATA".

Section PerformOperation.

(** The collaborators.  [World] is whatever they depend on (device
    progress, communicator state); every call may change it. *)
Variable World : Type.
Variable Ready : World -> ReadyEvent -> bool * World.
Variable sleep_for : World -> Z -> World.
Variable InitializeBuffer : World -> Z -> Z -> Status * World.
Variable ExecuteOperation :
  World -> list TensorTableEntry -> Response -> ExecResult * World.

(** Lines 246-261: move the named entries out of the tensor table. *)
Fixpoint take_entries (names : list string) (tt : gmap string TensorTableEntry)
    : option (list TensorTableEntry * gmap string TensorTableEntry) :=
  match names with
  | [] => Some ([], tt)
  | name :: names' =>
    match tt !! name with
    | None => None
    | Some e =>
      match take_entries names' (delete name tt) with
      | None => None
      | Some (es, tt') => Some (e :: es, tt')
      end
    end
  end.

(** Lines 291-296: the entries that carry a ready event. *)
Fixpoint waiting_for (entries : list TensorTableEntry)
    : list (TensorTableEntry * ReadyEvent) * list Event :=
  match entries with
  | [] => ([], [])
  | e :: rest =>
    let '(ws, t) := waiting_for rest in
    match ready_event e with
    | Some ev => ((e, ev) :: ws, TimelineActivityStart (tensor_name e) WAIT_FOR_DATA :: t)
    | None => (ws, t)
    end
  end.

(** Lines 298-306: one sweep over [waiting_tensors]; entries whose event
    is ready are erased. *)
Fixpoint poll_all (w : World) (waiting : list (TensorTableEntry * ReadyEvent))
    : list (TensorTableEntry * ReadyEvent) * World * list Event :=
  match waiting with
  | [] => ([], w, [])
  | (e, ev) :: rest =>
    let '(ready, w) := Ready w ev in
    let '(still, w', t) := poll_all w rest in
    if ready
    then (still, w',
          ReadyPolled e true
            :: TimelineActivityEnd (tensor_name e)
            :: TimelineActivityStart (tensor_name e) WAIT_FOR_OTHER_TENSOR_DATA
            :: t)
    else ((e, ev) :: still, w', ReadyPolled e false :: t)
  end.

(** Lines 297-308: [while (!waiting_tensors.empty())]. *)
Fixpoint wait_loop (fuel : nat) (w : World)
    (waiting : list (TensorTableEntry * ReadyEvent)) : option (World * list Event) :=
  match waiting with
  | [] => Some (w, [])
  | _ :: _ =>
    match fuel with
    | O => None
    | S fuel' =>
      let '(still, w, t) := poll_all w waiting in
      let w := sleep_for w 100 in
      match wait_loop fuel' w still with
      | None => None
      | Some (w', t') => Some (w', t ++ SleepFor 100 :: t')
      end
    end
  end.

(** Lines 309-313. *)
Definition end_waiting (entries : list TensorTableEntry) : list Event :=
  flat_map (fun e => match ready_event e with
                     | Some _ => [TimelineActivityEnd (tensor_name e)]
                     | None => []
                     end) entries.

(** Lines 281-284 and 323-326: report [status] to every entry. *)
Definition complete (entries : list TensorTableEntry) (out_of : TensorTableEntry -> option Tensor)
    (status : Status) : list Event :=
  flat_map (fun e => [TimelineEnd (tensor_name e) (out_of e);
                      CallbackInvoked (callback e) status]) entries.

(** Lines 315-320: the single execution call-site and its handler. *)
Definition execute_catching (w : World) (entries : list TensorTableEntry)
    (response : Response) : Status * World * Event :=
  let '(result, w) := ExecuteOperation w entries response in
  let status := match result with
                | Finished status => status
                | Threw what => Status_UnknownError what
                end in
  (status, w, ExecuteOperationCalled entries response result).

(** Lines 269-280: the fusion buffer is set up only when several
    entries are fused; a single entry proceeds as after a success. *)
Definition initialize_fusion_buffer (w : World) (entries : list TensorTableEntry)
    : Status * World * list Event :=
  match entries with
  | first_entry :: _ :: _ =>
    let '(status, w) :=
      InitializeBuffer w (device first_entry) (context first_entry) in
    (status, w,
     [InitializeBufferCalled (device first_entry) (context first_entry) status])
  | _ => (Status_OK, w, [])
  end.

Definition PerformOperation (fuel : nat) (w : World)
    (tensor_table : gmap string TensorTableEntry) (response : Response)
    : Outcome (gmap string TensorTableEntry * World * list Event) :=
  match take_entries (tensor_names response) tensor_table with
  | None => AssertionFailed
  | Some (entries, tensor_table) =>
    let t_start :=
      map (fun e => TimelineStart (tensor_name e) (response_type response)) entries in
    let '(init_status, w, t_init) := initialize_fusion_buffer w entries in
    if negb (ok init_status)
    then Returned (tensor_table, w,
                   t_start ++ t_init ++ complete entries (fun _ => None) init_status)
    else
      let '(waiting_tensors, t_wait) := waiting_for entries in
      match wait_loop fuel w waiting_tensors with
      | None => StillWaiting
      | Some (w, t_poll) =>
        let '(status, w, t_exec) := execute_catching w entries response in
        Returned (tensor_table, w,
                  t_start ++ t_init ++ t_wait ++ t_poll ++ end_waiting entries
                    ++ t_exec
                    :: (if in_progress status then []
                        else complete entries
                               (fun e => if ok status then output e else None)
                               status))
      end
  end.

End PerformOperation.

Arguments poll_all {World} Ready w waiting.
Arguments wait_loop {World} Ready sleep_for fuel w waiting.
Arguments initialize_fusion_buffer {World} InitializeBuffer w entries.
Arguments execute_catching {World} ExecuteOperation w entries response.
Arguments PerformOperation {World} Ready sleep_for InitializeBuffer ExecuteOperation
  fuel w tensor_table response.

End Operations.

(* ===================================================================== *)
(** * tensorflow/timeline.cc *)
(* ===================================================================== *)

Module Timeline.

(** The JSON objects the writer appends to the trace file.  Each object
    is one unit of output:
    - [ProcessName pid name] is
      [{"name": "process_name", "ph": "M", "pid": pid, "args": {"name": name}}],
    - [ProcessSortIndex pid i] is
      [{"name": "process_sort_index", "ph": "M", "pid": pid, "args": {"sort_index": i}}],
    - [TraceEvent] is the event object of lines 79-90, with the optional
      ["dur"] and ["args"] members. *)
Inductive Json : Type :=
| ArrayOpen
| ProcessName (pid : Z) (name : string)
| ProcessSortIndex (pid : Z) (sort_index : Z)
| TraceEvent (op_name : string) (phase : ascii) (ts : Z) (pid : Z)
    (dur : option Z) (args : option string).

(** [std::ofstream]: what has reached the file, the state flag, and how
    many more objects the device accepts before a write fails ([None]: it
    never fails).  A failed stream ignores every later write. *)
Record ofstream : Type := mkStream {
  good : bool;
  written : list Json;
  room : option nat
}.

Definition put (j : Json) (f : ofstream) : ofstream :=
  if good f
  then match room f with
       | None => mkStream true (written f ++ [j]) None
       | Some (S n) => mkStream true (written f ++ [j]) (Some n)
       | Some O => mkStream false (written f) (Some O)
       end
  else f.

Record t : Type := mk {
  initialized_ : bool;
  file_ : ofstream;
  tensor_table_ : gmap string Z;
  start_time_ : Z;
  last_flush_time_ : Z
}.

Section Writer.

(** [TIMELINE_FLUSH_TIME] of timeline.h, in clock ticks. *)
Variable TIMELINE_FLUSH_TIME : Z.

(** [Initialize]: [file_.open] with [std::ios::trunc] leaves an empty
    file; [open_ok] says whether it could be opened and [capacity] how
    much the device accepts.  The stream is open exactly when an earlier
    [Initialize] has succeeded, that is when [initialized_] is set (nothing
    closes it): [open] on an open stream fails, sets the fail bit and
    leaves the file as it is. *)
Definition Initialize (tl : t) (open_ok : bool) (capacity : option nat) (now : Z) : t :=
  if initialized_ tl
  then mk (initialized_ tl) (mkStream false (written (file_ tl)) (room (file_ tl)))
          (tensor_table_ tl) (start_time_ tl) (last_flush_time_ tl)
  else
    let opened := mkStream open_ok [] capacity in
    if good opened
    then mk true (put ArrayOpen opened) (tensor_table_ tl) now now
    else mk (initialized_ tl) opened (tensor_table_ tl) (start_time_ tl)
            (last_flush_time_ tl).

(** [auto& tensor_idx = tensor_table_[tensor_name]]: the subscript
    inserts a zero for an absent key. *)
Definition subscript (name : string) (m : gmap string Z) : gmap string Z :=
  match m !! name with
  | Some _ => m
  | None => <[name := 0]> m
  end.

(** [WriteEvent], lines 40-102; [now] is the reading of the steady clock
    in ticks of a nanosecond. *)
Definition WriteEvent (tl : t) (tensor_name op_name : string) (phase : ascii)
    (args : string) (now : Z) : t :=
  if negb (good (file_ tl)) then tl
  else
    let ts := int64_t (now - start_time_ tl) in
    let ts_micros := Z.quot ts 1000 in
    let table := subscript tensor_name (tensor_table_ tl) in
    let tensor_idx := default 0 (table !! tensor_name) in
    let '(tensor_idx, table, file) :=
      if tensor_idx =? 0
      then
        let tensor_idx := int (Z.of_nat (size table)) in
        (tensor_idx, <[tensor_name := tensor_idx]> table,
         put (ProcessSortIndex tensor_idx tensor_idx)
             (put (ProcessName tensor_idx tensor_name) (file_ tl)))
      else (tensor_idx, table, file_ tl) in
    let file :=
      put (TraceEvent op_name phase ts_micros tensor_idx
             (if Ascii.eqb phase "X" then Some 0 else None)
             (if String.eqb args "" then None else Some args)) file in
    let last_flush :=
      if TIMELINE_FLUSH_TIME <=? int64_t (now - last_flush_time_ tl)
      then now else last_flush_time_ tl in
    mk (initialized_ tl) file table (start_time_ tl) last_flush.

(** One call of [WriteEvent], and a sequence of calls. *)
Record Call : Type := mkCall {
  call_tensor_name : string;
  call_op_name : string;
  call_phase : ascii;
  call_args : string;
  call_now : Z
}.

Definition write (tl : t) (c : Call) : t :=
  WriteEvent tl (call_tensor_name c) (call_op_name c) (call_phase c)
    (call_args c) (call_now c).

Definition run (tl : t) (calls : list Call) : t := fold_left write calls tl.

End Writer.

(** A timeline object before [Initialize]. *)
Definition fresh : t := mk false (mkStream true [] (Some O)) ∅ 0 0.

(** Three events about two tensors, for examples. *)
Definition three_calls : list Call :=
  [mkCall "grad_a" "NEGOTIATE_ALLREDUCE" "B"%char "" 1000;
   mkCall "grad_b" "0" "X"%char "" 2000;
   mkCall "grad_a" "NEGOTIATE_ALLREDUCE" "E"%char "" 3000].

(** How often the metadata of [pid] occurs in a piece of output. *)
Definition is_process_name (pid : Z) (j : Json) : bool :=
  match j with ProcessName p _ => p =? pid | _ => false end.
Definition is_sort_index (pid : Z) (j : Json) : bool :=
  match j with ProcessSortIndex p _ => p =? pid | _ => false end.
Definition count_process_name (pid : Z) (out : list Json) : nat :=
  length (List.filter (is_process_name pid) out).
Definition count_sort_index (pid : Z) (out : list Json) : nat :=
  length (List.filter (is_sort_index pid) out).

(** The metadata of a process precede its events. *)
Definition metadata_first (out : list Json) : Prop :=
  forall l1 l2 op ph ts p dur args,
    out = l1 ++ TraceEvent op ph ts p dur args :: l2 ->
    count_process_name p l1 = 1%nat /\ count_sort_index p l1 = 1%nat.

(** What holds of the table of process ids and of the file between two
    calls of [WriteEvent]. *)
Record consistent (tl : t) : Prop := mkConsistent {
  pid_range : forall n p,
    tensor_table_ tl !! n = Some p -> 1 <= p <= Z.of_nat (size (tensor_table_ tl));
  pid_injective : forall n1 n2 p,
    tensor_table_ tl !! n1 = Some p -> tensor_table_ tl !! n2 = Some p -> n1 = n2;
  named_in_table : forall p n,
    ProcessName p n ∈ written (file_ tl) -> tensor_table_ tl !! n = Some p;
  sorted_in_table : forall p i,
    ProcessSortIndex p i ∈ written (file_ tl) ->
    i = p /\ exists n, tensor_table_ tl !! n = Some p;
  metadata_once : forall p,
    (count_process_name p (written (file_ tl)) <= 1)%nat
    /\ (count_sort_index p (written (file_ tl)) <= 1)%nat;
  metadata_precede : metadata_first (written (file_ tl));
  metadata_present : good (file_ tl) = true ->
    forall n p, tensor_table_ tl !! n = Some p ->
    count_process_name p (written (file_ tl)) = 1%nat
    /\ count_sort_index p (written (file_ tl)) = 1%nat
}.

End Timeline.

(* ===================================================================== *)
(** * Quantities used to state the properties of the split *)
(* ===================================================================== *)

Module AdasumSpec.
Import AdasumCudaAllreduceOp.

(** Sum of a list of integers, and the element counts of the entries. *)
Definition Zsum (l : list Z) : Z := foldr Z.add 0 l.

Definition elements (entries : list TensorTableEntry) : list Z :=
  map (fun e => num_elements (tensor e)) entries.

(** The local ranks of a node. *)
Definition local_ranks (local_size : Z) : list Z := seqZ 0 local_size.

(** Number of elements of the range [a, b) of the fused tensor that lie in
    the slice [r * p, (r + 1) * p) of local rank [r], and in the remainder
    region that starts at [from]. *)
Definition in_slice (r p a b : Z) : Z :=
  Z.max (Z.min b ((r + 1) * p) - Z.max a (r * p)) 0.

Definition in_remainder (from a b : Z) : Z := Z.max (b - Z.max a from) 0.

(** Offset of entry [i] in the fused tensor. *)
Definition offset (entries : list TensorTableEntry) (i : nat) : Z :=
  Zsum (take i (elements entries)).

(** The smallest multiple of [d] that is at least [n]. *)
Definition round_up (n d : Z) : Z := (n + d - 1) / d * d.

(** The controller of the process with local rank [r] on a node. *)
Definition at_local_rank (ctl : Controller) (r : Z) : Controller :=
  {| GetRank := GetRank ctl; GetLocalRank := r; GetSize := GetSize ctl;
     GetLocalSize := GetLocalSize ctl; IsHomogeneous := IsHomogeneous ctl;
     IsMpiThreadsSupported := IsMpiThreadsSupported ctl |}.

(** [tensor_counts[i]] as computed by local rank [r]. *)
Definition count_at (unit : Z) (ctl : Controller) (element_size fused_len : Z)
    (entries : list TensorTableEntry) (i : nat) (r : Z) : Z :=
  match NcclHierarchical unit (at_local_rank ctl r) element_size fused_len entries with
  | Some s => match tensor_counts s with
              | Some counts => default 0 (counts !! i)
              | None => 0
              end
  | None => 0
  end.

(** The element count after the optional padding. *)
Definition fused_total (unit local_size : Z) (entries : list TensorTableEntry) : Z :=
  if 1 <? Z.of_nat (length entries)
  then round_up (Zsum (elements entries)) (local_size * unit)
  else Zsum (elements entries).

Definition three_tensors : list TensorTableEntry := map entry_of [1000; 2000; 3000].

End AdasumSpec.

(* ===================================================================== *)
(** * Collaborators and inputs for worked examples *)
(* ===================================================================== *)

Module OperationsExamples.
Import Operations.

(** A world that is a clock: event [ev] is ready once the clock has reached
    [ev]; sleeping advances the clock by one. *)
Definition clock_ready (w : nat) (ev : ReadyEvent) : bool * nat := (ev <=? w, w)%nat.
Definition clock_sleep (w : nat) (ns : Z) : nat := S w.
Definition buffer_ok (w : nat) (device context : Z) : Status * nat := (Status_OK, w).
Definition execute_ok (w : nat) (entries : list TensorTableEntry) (response : Response)
    : ExecResult * nat := (Finished Status_OK, w).
Definition execute_throws (w : nat) (entries : list TensorTableEntry)
    (response : Response) : ExecResult * nat := (Threw "NCCL failure", w).

Definition some_tensor : Tensor := mkTensor 1 [2; 3] 6 24.

Definition entry_a : TensorTableEntry :=
  {| tensor_name := "a"; context := 0; tensor := some_tensor;
     output := Some some_tensor; root_rank := 0; ready_event := Some 2%nat;
     device := 0; callback := 7%nat |}.

Definition entry_b : TensorTableEntry :=
  {| tensor_name := "b"; context := 0; tensor := some_tensor;
     output := Some some_tensor; root_rank := 0; ready_event := None;
     device := 0; callback := 8%nat |}.

Definition two_entries : gmap string TensorTableEntry :=
  <["a" := entry_a]> (<["b" := entry_b]> ∅).

Definition response_ab : Response := mkResponse ALLREDUCE ["a"; "b"] [0; 0].

Definition rank0 : Controller :=
  {| GetRank := 0; GetLocalRank := 0; GetSize := 2; GetLocalSize := 1;
     IsHomogeneous := true; IsMpiThreadsSupported := true |}.

Definition running : HorovodGlobalState :=
  {| shut_down := false; initialization_done := true; controller := Some rank0;
     tensor_table := two_entries; message_queue := [] |}.

Definition not_started : HorovodGlobalState :=
  {| shut_down := false; initialization_done := false; controller := None;
     tensor_table := ∅; message_queue := [] |}.

(** The invocations of callbacks in a trace, in order. *)
Definition callbacks_of (trace : list Event) : list (StatusCallback * Status) :=
  flat_map (fun ev => match ev with
                      | CallbackInvoked cb status => [(cb, status)]
                      | _ => []
                      end) trace.

Definition is_execute (ev : Event) : bool :=
  match ev with ExecuteOperationCalled _ _ _ => true | _ => false end.

Definition is_poll (ev : Event) : bool :=
  match ev with ReadyPolled _ _ => true | _ => false end.

Definition is_callback (ev : Event) : bool :=
  match ev with CallbackInvoked _ _ => true | _ => false end.

(** Events that are neither a poll, nor the execution, nor a callback. *)
Definition bookkeeping (ev : Event) : Prop :=
  is_poll ev = false /\ is_execute ev = false /\ is_callback ev = false.

End OperationsExamples.

(* ===================================================================== *)
(** * operations.cc: the cycle of the background thread *)
(* ===================================================================== *)

Module BackgroundLoop.
Import Operations.

(** [ResponseList] of message.h: the responses of one cycle and the
    shutdown flag. *)
Record ResponseList : Type := mkResponseList {
  responses : list Response;
  shutdown : bool
}.

(** ** [GetTensorDataForAutotuner] (lines 219-235) *)

(** The inner loop over the tensor names of one ALLREDUCE response.
    [tensor_table.at(name)] throws [std::out_of_range] for a missing name:
    there is no result then. *)
Fixpoint autotuner_names (names : list string) (tensor_table : gmap string TensorTableEntry)
    (total_tensor_size : Z) (collected : list string) : option (Z * list string) :=
  match names with
  | [] => Some (total_tensor_size, collected)
  | tensor_name :: rest =>
    let collected := collected ++ [tensor_name] in
    match tensor_table !! tensor_name with
    | None => None
    | Some entry =>
      autotuner_names rest tensor_table
        (int64_t (total_tensor_size + size_bytes (tensor entry))) collected
    end
  end.

Fixpoint autotuner_responses (rs : list Response) (tensor_table : gmap string TensorTableEntry)
    (total_tensor_size : Z) (collected : list string) : option (Z * list string) :=
  match rs with
  | [] => Some (total_tensor_size, collected)
  | response :: rest =>
    let inner :=
      match response_type response with
      | ALLREDUCE =>
        autotuner_names (tensor_names response) tensor_table total_tensor_size collected
      | _ => Some (total_tensor_size, collected)
      end in
    match inner with
    | None => None
    | Some (total_tensor_size, collected) =>
      autotuner_responses rest tensor_table total_tensor_size collected
    end
  end.

(** [collected] is the vector [tensor_names] that the caller passes by
    reference; the result pairs the total size with the extended vector. *)
Definition GetTensorDataForAutotuner (response_list : ResponseList)
    (tensor_table : gmap string TensorTableEntry) (collected : list string)
    : option (Z * list string) :=
  autotuner_responses (responses response_list) tensor_table 0 collected.

(** ** [RunLoopOnce] (lines 554-604) and the loop of [BackgroundThreadLoop] *)

(** How a piece of the background thread ends: it completes, an [assert]
    fails, an exception leaves the thread, or the fuel is used up while it
    is still polling or cycling. *)
Inductive Run (A : Type) : Type :=
| Completed (a : A)
| AssertFailed
| Uncaught
| StillRunning.
Arguments Completed {A} a.
Arguments AssertFailed {A}.
Arguments Uncaught {A}.
Arguments StillRunning {A}.

Section Loop.

Variable World : Type.
Variable Ready : World -> ReadyEvent -> bool * World.
Variable sleep_for : World -> Z -> World.
Variable InitializeBuffer : World -> Z -> Z -> Status * World.
Variable ExecuteOperation :
  World -> list TensorTableEntry -> Response -> ExecResult * World.

(** Lines 556-569: the pacing sleep and the cycle mark of the timeline. *)
Variable start_cycle : World -> World.

(** [state.controller->ComputeResponseList()]: the controller drains the
    message queue (it answers with what is left of it) and negotiates the
    responses; it does not touch the tensor table. *)
Variable ComputeResponseList :
  World -> list Request.t -> ResponseList * list Request.t * World.

(** The parameter manager. *)
Variable IsAutoTuning : World -> bool.
Variable Update : World -> list string -> Z -> bool * World.
Variable SynchronizeParameters : World -> World.

(** Lines 585-592: the responses are performed in order. *)
Fixpoint perform_all (fuel : nat) (w : World) (tensor_table : gmap string TensorTableEntry)
    (rs : list Response) : Run (gmap string TensorTableEntry * World * list Event) :=
  match rs with
  | [] => Completed (tensor_table, w, [])
  | response :: rest =>
    match PerformOperation Ready sleep_for InitializeBuffer ExecuteOperation
            fuel w tensor_table response with
    | Returned (tensor_table, w, t) =>
      match perform_all fuel w tensor_table rest with
      | Completed (tensor_table, w, t') => Completed (tensor_table, w, t ++ t')
      | AssertFailed => AssertFailed
      | Uncaught => Uncaught
      | StillRunning => StillRunning
      end
    | AssertionFailed => AssertFailed
    | StillWaiting => StillRunning
    end
  end.

Definition RunLoopOnce (fuel : nat) (w : World) (state : HorovodGlobalState)
    : Run (bool * HorovodGlobalState * World * list Event) :=
  let w := start_cycle w in
  let '(response_list, queue, w) := ComputeResponseList w (message_queue state) in
  let state := with_tables state (tensor_table state) queue in
  let autotuner_data :=
    if IsAutoTuning w
    then GetTensorDataForAutotuner response_list (tensor_table state) []
    else Some (0, []) in
  match autotuner_data with
  | None => Uncaught
  | Some (total_tensor_size, collected) =>
    match perform_all fuel w (tensor_table state) (responses response_list) with
    | Completed (tensor_table, w, t) =>
      let w :=
        if IsAutoTuning w
        then let '(should_sync, w) := Update w collected total_tensor_size in
             if should_sync then SynchronizeParameters w else w
        else w in
      Completed (negb (shutdown response_list),
                 with_tables state tensor_table (message_queue state), w, t)
    | AssertFailed => AssertFailed
    | Uncaught => Uncaught
    | StillRunning => StillRunning
    end
  end.

(** Lines 508-510: [while (RunLoopOnce(state, is_coordinator));]. *)
Fixpoint run_cycles (cycles fuel : nat) (w : World) (state : HorovodGlobalState)
    : Run (HorovodGlobalState * World * list Event) :=
  match cycles with
  | O => StillRunning
  | S cycles' =>
    match RunLoopOnce fuel w state with
    | Completed (again, state, w, t) =>
      if again
      then match run_cycles cycles' fuel w state with
           | Completed (state, w, t') => Completed (state, w, t ++ t')
           | AssertFailed => AssertFailed
           | Uncaught => Uncaught
           | StillRunning => StillRunning
           end
      else Completed (state, w, t)
    | AssertFailed => AssertFailed
    | Uncaught => Uncaught
    | StillRunning => StillRunning
    end
  end.

(** [BackgroundThreadLoop] from the start of its loop (line 508) to its end:
    the cycles, then the shutdown sequence. *)
Definition BackgroundThreadLoop_from_loop (cycles fuel : nat) (w : World)
    (state : HorovodGlobalState) : Run (HorovodGlobalState * World * list Event) :=
  match run_cycles cycles fuel w state with
  | Completed (state, w, t) =>
    let '(state, t') := BackgroundThreadLoop_shutdown state in
    Completed (state, w, t ++ t')
  | AssertFailed => AssertFailed
  | Uncaught => Uncaught
  | StillRunning => StillRunning
  end.

End Loop.

Arguments perform_all {World} Ready sleep_for InitializeBuffer ExecuteOperation
  fuel w tensor_table rs.
Arguments RunLoopOnce {World} Ready sleep_for InitializeBuffer ExecuteOperation
  start_cycle ComputeResponseList IsAutoTuning Update SynchronizeParameters fuel w state.
Arguments run_cycles {World} Ready sleep_for InitializeBuffer ExecuteOperation
  start_cycle ComputeResponseList IsAutoTuning Update SynchronizeParameters
  cycles fuel w state.
Arguments BackgroundThreadLoop_from_loop {World} Ready sleep_for InitializeBuffer
  ExecuteOperation start_cycle ComputeResponseList IsAutoTuning Update
  SynchronizeParameters cycles fuel w state.

(** ** Quantities and inputs used to state properties *)

(** The tensor names of the ALLREDUCE responses, in order. *)
Definition allreduce_names (rs : list Response) : list string :=
  flat_map (fun r => match response_type r with
                     | ALLREDUCE => tensor_names r
                     | _ => []
                     end) rs.

(** The operation manager never answers that an execution is still in
    progress. *)
Definition never_in_progress {World : Type}
    (ExecuteOperation : World -> list TensorTableEntry -> Response -> ExecResult * World)
    : Prop :=
  forall w entries response status w',
    ExecuteOperation w entries response = (Finished status, w') ->
    in_progress status = false.

(** The byte sizes of the named tensors that are in the table. *)
Definition sizes_of (tensor_table : gmap string TensorTableEntry) (names : list string)
    : list Z :=
  omap (fun name => (fun e => size_bytes (tensor e)) <$> tensor_table !! name) names.

End BackgroundLoop.

(* ===================================================================== *)
(** * Collaborators for worked examples of the background loop *)
(* ===================================================================== *)

Module LoopExamples.
Import Operations OperationsExamples BackgroundLoop.

(** A device without room for the fusion buffer. *)
Definition out_of_memory : Status := Status_PreconditionError "out of memory".
Definition buffer_fails (w : nat) (device context : Z) : Status * nat :=
  (out_of_memory, w).

(** A controller that answers every cycle with one response for tensor
    [a] and the request to shut down, and leaves the queue empty. *)
Definition response_a : Response := mkResponse ALLREDUCE ["a"] [0].
Definition compute_a_then_stop (w : nat) (q : list Request.t)
    : ResponseList * list Request.t * nat :=
  (mkResponseList [response_a] true, [], w).

Definition no_pacing (w : nat) : nat := w.
Definition not_tuning (w : nat) : bool := false.
Definition update_never (w : nat) (names : list string) (bytes : Z) : bool * nat :=
  (false, w).


(** Tensor [c] enqueued for an allreduce on the running state, the state
    after that, and the responses that name [c] or [b] alone. *)
Definition enqueue_c : option (Status * HorovodGlobalState) :=
  EnqueueTensorAllreduce running 0 some_tensor None None "c" 0 9%nat.
Definition accepted_c : HorovodGlobalState := from_option snd running enqueue_c.
Definition response_c : Response := mkResponse ALLREDUCE ["c"] [0].
Definition response_b : Response := mkResponse ALLREDUCE ["b"] [0].

End LoopExamples.

(* ===================================================================== *)
(** * operations.cc: what an accepted enqueue leaves behind *)
(* ===================================================================== *)

Module EnqueueSpec.
Import Operations.

(** The request [m] announces tensor [t] under [name]: it carries the rank
    of this process, the kind of collective, the tensor's dtype and
    dimensions, the name and the device. *)
Definition announces (m : Request.t) (ctl : Controller) (kind : Request.RequestType)
    (t : Tensor) (name : string) (dev : Z) : Prop :=
  Request.request_rank m = GetRank ctl
  /\ Request.request_type m = kind
  /\ Request.tensor_type m = dtype t
  /\ Request.tensor_name m = name
  /\ Request.device m = dev
  /\ Request.tensor_shape m = map int64_t (dims t).

(** The table entry [e] holds what the caller passed in. *)
Definition holds (e : TensorTableEntry) (name : string) (ctx : Z) (t : Tensor)
    (out : option Tensor) (ev : option ReadyEvent) (dev : Z) (cb : StatusCallback)
    : Prop :=
  tensor_name e = name /\ context e = ctx /\ tensor e = t /\ output e = out
  /\ ready_event e = ev /\ device e = dev /\ callback e = cb.

(** The three ways to enqueue a tensor under [name] with callback [cb]. *)
Inductive enqueued_as (g : HorovodGlobalState) (name : string) (ctx : Z) (t : Tensor)
    (ev : option ReadyEvent) (dev : Z) (cb : StatusCallback)
    : option (Status * HorovodGlobalState) -> Prop :=
| as_allreduce out :
    enqueued_as g name ctx t ev dev cb
      (EnqueueTensorAllreduce g ctx t out ev name dev cb)
| as_allgather :
    enqueued_as g name ctx t ev dev cb
      (EnqueueTensorAllgather g ctx t ev name dev cb)
| as_broadcast out root :
    enqueued_as g name ctx t ev dev cb
      (EnqueueTensorBroadcast g ctx t out root ev name dev cb).

End EnqueueSpec.

(** Polls and sleeps: the events of waiting. *)
Module TraceSpec.
Import Operations.

Definition is_wait (ev : Event) : bool :=
  match ev with
  | ReadyPolled _ _ | SleepFor _ => true
  | _ => false
  end.

End TraceSpec.

(* ===================================================================== *)
(** * AdasumCudaAllreduceOp: the calls of [NcclHierarchical] *)
(* ===================================================================== *)

Module AdasumCalls.
Import AdasumCudaAllreduceOp.

(** The communicator handed to [DispatchFusedAllreduce]. *)
Inductive Communicator : Type := MPI_COMM_WORLD | CROSS.

(** The data-moving calls of [NcclHierarchical] (lines 38-47 and 116-251),
    with the arguments that the split determines; byte offsets are
    relative to [buffer_data].  Error checks, timeline records and the
    allocation of the host buffer are left out. *)
Inductive Call : Type :=
| MemcpyInFusionBuffer
| ncclReduceScatter (recv_offset count : Z)
| ncclReduce (recv_offset count root : Z)
| MemcpyDeviceToHost (from_offset len : Z)
| DispatchFusedAllreduce (counts : list Z) (start_level : Z) (comm : Communicator)
| MemcpyHostToDevice (to_offset len : Z)
| ncclAllGather (send_offset count : Z)
| ncclBcast (offset count root : Z)
| MemcpyOutFusionBuffer.

(** The calls in the order of the source, when none of them fails. *)
Definition calls (ctl : Controller) (entries : list TensorTableEntry) (s : Split)
    : list Call :=
  (if 1 <? Z.of_nat (length entries) then [MemcpyInFusionBuffer] else [])
  ++ (if 0 <? num_elements_per_rank s
      then [ncclReduceScatter (rank_offset s) (size_t (num_elements_per_rank s))]
      else [])
  ++ (if 0 <? num_elements_remaining s
      then [ncclReduce (remainder_offset s) (size_t (num_elements_remaining s))
              (split_root_rank s)]
      else [])
  ++ (if IsHomogeneous ctl || is_root_rank s
      then match tensor_counts s with
           | Some counts =>
             [MemcpyDeviceToHost (rank_offset s) (total_buffer_len s);
              DispatchFusedAllreduce counts (GetLocalSize ctl)
                (if IsHomogeneous ctl then MPI_COMM_WORLD else CROSS);
              MemcpyHostToDevice (rank_offset s) (total_buffer_len s)]
           | None => []
           end
      else [])
  ++ (if 0 <? num_elements_per_rank s
      then [ncclAllGather (rank_offset s) (size_t (num_elements_per_rank s))]
      else [])
  ++ (if 0 <? num_elements_remaining s
      then [ncclBcast (remainder_offset s) (size_t (num_elements_remaining s))
              (split_root_rank s)]
      else [])
  ++ (if 1 <? Z.of_nat (length entries) then [MemcpyOutFusionBuffer] else []).

Section Op.
Variable FUSION_BUFFER_ATOMIC_UNIT : Z.

Definition NcclHierarchical_calls (ctl : Controller) (element_size fused_len : Z)
    (entries : list TensorTableEntry) : option (list Call) :=
  calls ctl entries
    <$> NcclHierarchical FUSION_BUFFER_ATOMIC_UNIT ctl element_size fused_len entries.

End Op.

(** What the other ranks of the NCCL communicator must match in a
    collective: its kind, its element count and its root. *)
Inductive Collective : Type :=
| ReduceScatter (count : Z)
| Reduce (count root : Z)
| AllGather (count : Z)
| Bcast (count root : Z).

Definition collective (c : Call) : option Collective :=
  match c with
  | ncclReduceScatter _ count => Some (ReduceScatter count)
  | ncclReduce _ count root => Some (Reduce count root)
  | ncclAllGather _ count => Some (AllGather count)
  | ncclBcast _ count root => Some (Bcast count root)
  | _ => None
  end.

Definition collectives (cs : list Call) : list Collective := omap collective cs.

(** The collective that undoes a scattering collective. *)
Definition gathers (c : Collective) : Collective :=
  match c with
  | ReduceScatter count => AllGather count
  | Reduce count root => Bcast count root
  | other => other
  end.

Definition is_scattering (c : Collective) : bool :=
  match c with
  | ReduceScatter _ | Reduce _ _ => true
  | _ => false
  end.

End AdasumCalls.

(* ===================================================================== *)
(** * timeline.cc: what the events in the file look like *)
(* ===================================================================== *)

Module TimelineSpec.
Import Timeline.

Definition is_event (j : Json) : bool :=
  match j with TraceEvent _ _ _ _ _ _ => true | _ => false end.

(** The trace events in a piece of output, in order. *)
Definition events (out : list Json) : list Json := List.filter is_event out.

(** The event object of a call: the timestamp is the time since [start]
    in whole microseconds, the pid is the one that [pids] gives the tensor
    name, ["dur": 0] is present for phase [X] only, and ["args"] for
    non-empty arguments only. *)
Definition event_of (start : Z) (pids : gmap string Z) (c : Call) : Json :=
  TraceEvent (call_op_name c) (call_phase c)
    (Z.quot (call_now c - start) 1000)
    (default 0 (pids !! call_tensor_name c))
    (if Ascii.eqb (call_phase c) "X" then Some 0 else None)
    (if String.eqb (call_args c) "" then None else Some (call_args c)).

Definition timestamp (j : Json) : Z :=
  match j with TraceEvent _ _ ts _ _ _ => ts | _ => 0 end.

(** The clock readings of the calls do not go back, starting at [now]. *)
Fixpoint clock_monotone (now : Z) (calls : list Call) : Prop :=
  match calls with
  | [] => True
  | c :: rest => now <= call_now c /\ clock_monotone (call_now c) rest
  end.

(** A list of integers that never decreases. *)
Fixpoint non_decreasing (from : Z) (l : list Z) : Prop :=
  match l with
  | [] => True
  | x :: rest => from <= x /\ non_decreasing x rest
  end.

(** Every process id from 1 to the size of the table is taken. *)
Definition dense (pids : gmap string Z) : Prop :=
  forall k, 1 <= k <= Z.of_nat (size pids) -> exists name, pids !! name = Some k.


(** The ["args"] member of a trace event, if it has one. *)
Definition args_member (j : Json) : option string :=
  match j with TraceEvent _ _ _ _ _ args => args | _ => None end.

End TimelineSpec.

(* ===================================================================== *)
(** * timeline.cc: the public event methods *)
(* ===================================================================== *)

Module TimelineMethods.
Import Timeline.

(** The TensorFlow dtypes that [DataTypeName] knows, and any other. *)
Inductive DataType : Type :=
| DT_UINT8 | DT_INT8 | DT_UINT16 | DT_INT16 | DT_INT32 | DT_INT64
| DT_FLOAT | DT_DOUBLE | DT_OTHER.

(** [DataTypeName], lines 201-231. *)
Definition DataTypeName (dtype : DataType) : string :=
  match dtype with
  | DT_UINT8 => "uint8"
  | DT_INT8 => "int8"
  | DT_UINT16 => "uint16"
  | DT_INT16 => "int16"
  | DT_INT32 => "int32"
  | DT_INT64 => "int64"
  | DT_FLOAT => "float"
  | DT_DOUBLE => "double"
  | DT_OTHER => "<unknown>"
  end.

(** The double-quote character of the JSON text. *)
Definition quote : string := String (ascii_of_nat 34) "".

(** What [End] reads of its output tensor: the dtype and the shape. *)
Record OutputTensor : Type := mkOutput {
  output_dtype : DataType;
  output_shape : list Z
}.

Section Methods.

Variable TIMELINE_FLUSH_TIME : Z.

(** The default of the [args] parameter of [WriteEvent], declared in
    timeline.h; the methods that pass three arguments get it. *)
Variable default_args : string.

(** [MPIRequest::RequestType_Name], [MPIResponse::ResponseType_Name],
    [std::to_string] and [TensorShape::DebugString]. *)
Variable RequestType_Name : Request.RequestType -> string.
Variable ResponseType_Name : ResponseType -> string.
Variable to_string : Z -> string.
Variable DebugString : list Z -> string.

Definition NegotiateStart (tl : t) (tensor_name : string)
    (request_type : Request.RequestType) (now : Z) : t :=
  if negb (initialized_ tl) then tl
  else
    let event_category := ("NEGOTIATE_" ++ RequestType_Name request_type)%string in
    WriteEvent TIMELINE_FLUSH_TIME tl tensor_name event_category "B" default_args now.

Definition NegotiateRankReady (tl : t) (tensor_name : string) (rank : Z) (now : Z) : t :=
  if negb (initialized_ tl) then tl
  else WriteEvent TIMELINE_FLUSH_TIME tl tensor_name (to_string rank) "X" default_args now.

Definition NegotiateEnd (tl : t) (tensor_name : string)
    (request_type : Request.RequestType) (now : Z) : t :=
  if negb (initialized_ tl) then tl
  else
    let event_category := ("NEGOTIATE_" ++ RequestType_Name request_type)%string in
    WriteEvent TIMELINE_FLUSH_TIME tl tensor_name event_category "E" default_args now.

Definition Start (tl : t) (tensor_name : string) (response_type : ResponseType)
    (now : Z) : t :=
  if negb (initialized_ tl) then tl
  else
    let event_category := ResponseType_Name response_type in
    WriteEvent TIMELINE_FLUSH_TIME tl tensor_name event_category "B" default_args now.

Definition WaitForDataStart (tl : t) (tensor_name : string) (now : Z) : t :=
  if negb (initialized_ tl) then tl
  else WriteEvent TIMELINE_FLUSH_TIME tl tensor_name "WAIT_FOR_DATA" "B" default_args now.

Definition WaitForDataEnd (tl : t) (tensor_name : string) (now : Z) : t :=
  if negb (initialized_ tl) then tl
  else WriteEvent TIMELINE_FLUSH_TIME tl tensor_name "WAIT_FOR_DATA" "E" default_args now.

Definition NcclInitStart (tl : t) (tensor_name : string) (now : Z) : t :=
  if negb (initialized_ tl) then tl
  else WriteEvent TIMELINE_FLUSH_TIME tl tensor_name "NCCL_INIT" "B" default_args now.

Definition NcclInitEnd (tl : t) (tensor_name : string) (now : Z) : t :=
  if negb (initialized_ tl) then tl
  else WriteEvent TIMELINE_FLUSH_TIME tl tensor_name "NCCL_INIT" "E" default_args now.

Definition QueueStart (tl : t) (tensor_name : string) (now : Z) : t :=
  if negb (initialized_ tl) then tl
  else WriteEvent TIMELINE_FLUSH_TIME tl tensor_name "QUEUE" "B" default_args now.

Definition QueueEnd (tl : t) (tensor_name : string) (now : Z) : t :=
  if negb (initialized_ tl) then tl
  else WriteEvent TIMELINE_FLUSH_TIME tl tensor_name "QUEUE" "E" default_args now.

Definition ProcessStart (tl : t) (tensor_name : string) (now : Z) : t :=
  if negb (initialized_ tl) then tl
  else WriteEvent TIMELINE_FLUSH_TIME tl tensor_name "PROCESS" "B" default_args now.

Definition ProcessEnd (tl : t) (tensor_name : string) (now : Z) : t :=
  if negb (initialized_ tl) then tl
  else WriteEvent TIMELINE_FLUSH_TIME tl tensor_name "PROCESS" "E" default_args now.

(** [End], lines 235-248: the arguments are built only for an output
    tensor that is not null. *)
Definition End_args (output_tensor : option OutputTensor) : string :=
  match output_tensor with
  | Some o =>
    ((quote ++ "dtype" ++ quote ++ ": " ++ quote ++ DataTypeName (output_dtype o) ++ quote)
     ++ (", " ++ quote ++ "shape" ++ quote ++ ": " ++ quote
         ++ DebugString (output_shape o) ++ quote))%string
  | None => ""
  end.

Definition End (tl : t) (tensor_name : string) (response_type : ResponseType)
    (output_tensor : option OutputTensor) (now : Z) : t :=
  if negb (initialized_ tl) then tl
  else
    let event_category := ResponseType_Name response_type in
    WriteEvent TIMELINE_FLUSH_TIME tl tensor_name event_category "E"
      (End_args output_tensor) now.

(** A call of one of the public methods, and a sequence of such calls,
    each with the clock reading it finds. *)
Inductive Method : Type :=
| CallNegotiateStart (tensor_name : string) (request_type : Request.RequestType)
| CallNegotiateRankReady (tensor_name : string) (rank : Z)
| CallNegotiateEnd (tensor_name : string) (request_type : Request.RequestType)
| CallStart (tensor_name : string) (response_type : ResponseType)
| CallWaitForDataStart (tensor_name : string)
| CallWaitForDataEnd (tensor_name : string)
| CallNcclInitStart (tensor_name : string)
| CallNcclInitEnd (tensor_name : string)
| CallQueueStart (tensor_name : string)
| CallQueueEnd (tensor_name : string)
| CallProcessStart (tensor_name : string)
| CallProcessEnd (tensor_name : string)
| CallEnd (tensor_name : string) (response_type : ResponseType)
    (output_tensor : option OutputTensor).

Definition invoke (tl : t) (m : Method * Z) : t :=
  let now := snd m in
  match fst m with
  | CallNegotiateStart name request_type => NegotiateStart tl name request_type now
  | CallNegotiateRankReady name rank => NegotiateRankReady tl name rank now
  | CallNegotiateEnd name request_type => NegotiateEnd tl name request_type now
  | CallStart name response_type => Start tl name response_type now
  | CallWaitForDataStart name => WaitForDataStart tl name now
  | CallWaitForDataEnd name => WaitForDataEnd tl name now
  | CallNcclInitStart name => NcclInitStart tl name now
  | CallNcclInitEnd name => NcclInitEnd tl name now
  | CallQueueStart name => QueueStart tl name now
  | CallQueueEnd name => QueueEnd tl name now
  | CallProcessStart name => ProcessStart tl name now
  | CallProcessEnd name => ProcessEnd tl name now
  | CallEnd name response_type output_tensor => End tl name response_type output_tensor now
  end.

Definition invoke_all (tl : t) (ms : list (Method * Z)) : t := fold_left invoke ms tl.

(** The activity that a method reports and whether it opens ([B]), closes
    ([E]) or marks ([X]) it. *)
Definition activity (m : Method) : string :=
  match m with
  | CallNegotiateStart _ request_type | CallNegotiateEnd _ request_type =>
    ("NEGOTIATE_" ++ RequestType_Name request_type)%string
  | CallNegotiateRankReady _ rank => to_string rank
  | CallStart _ response_type | CallEnd _ response_type _ => ResponseType_Name response_type
  | CallWaitForDataStart _ | CallWaitForDataEnd _ => "WAIT_FOR_DATA"
  | CallNcclInitStart _ | CallNcclInitEnd _ => "NCCL_INIT"
  | CallQueueStart _ | CallQueueEnd _ => "QUEUE"
  | CallProcessStart _ | CallProcessEnd _ => "PROCESS"
  end.

Definition phase_of (m : Method) : ascii :=
  match m with
  | CallNegotiateStart _ _ | CallStart _ _ | CallWaitForDataStart _
  | CallNcclInitStart _ | CallQueueStart _ | CallProcessStart _ => "B"
  | CallNegotiateRankReady _ _ => "X"
  | _ => "E"
  end.

Definition tensor_of (m : Method) : string :=
  match m with
  | CallNegotiateStart name _ | CallNegotiateRankReady name _ | CallNegotiateEnd name _
  | CallStart name _ | CallWaitForDataStart name | CallWaitForDataEnd name
  | CallNcclInitStart name | CallNcclInitEnd name | CallQueueStart name
  | CallQueueEnd name | CallProcessStart name | CallProcessEnd name
  | CallEnd name _ _ => name
  end.

Definition args_of (m : Method) : string :=
  match m with
  | CallEnd _ _ output_tensor => End_args output_tensor
  | _ => default_args
  end.

Definition as_call (m : Method * Z) : Call :=
  mkCall (tensor_of (fst m)) (activity (fst m)) (phase_of (fst m)) (args_of (fst m))
    (snd m).

End Methods.

End TimelineMethods.

(** Names and inputs for worked examples of the public methods. *)
Module TimelineExamples.
Import Timeline TimelineMethods.

Definition RequestType_Name (request_type : Request.RequestType) : string :=
  match request_type with
  | Request.ALLREDUCE => "ALLREDUCE"
  | Request.ALLGATHER => "ALLGATHER"
  | Request.BROADCAST => "BROADCAST"
  end.

Definition ResponseType_Name (response_type : ResponseType) : string :=
  match response_type with
  | ALLREDUCE => "ALLREDUCE"
  | ALLGATHER => "ALLGATHER"
  | BROADCAST => "BROADCAST"
  | ERROR => "ERROR"
  end.

Definition to_string (z : Z) : string := NilZero.string_of_int (Z.to_int z).

Definition DebugString (shape : list Z) : string :=
  ("[" ++ String.concat "," (map to_string shape) ++ "]")%string.

(** The life of one allreduce of tensor [grad_a] in the timeline. *)
Definition one_allreduce : list (Method * Z) :=
  [(CallNegotiateStart "grad_a" Request.ALLREDUCE, 1000);
   (CallNegotiateRankReady "grad_a" 0, 2000);
   (CallNegotiateEnd "grad_a" Request.ALLREDUCE, 3000);
   (CallStart "grad_a" ALLREDUCE, 4000);
   (CallEnd "grad_a" ALLREDUCE (Some (mkOutput DT_FLOAT [2; 3])), 9000)].

End TimelineExamples.

(* ===================================================================== *)
(** * operations.cc: [CreateOperationManager] (lines 146-215) *)
(* ===================================================================== *)

Module OperationManager.

(** The operations that can be registered. *)
Inductive AllreduceOp : Type :=
| MPI_CUDAAllreduce | NCCLHierarchicalAllreduce | NCCLAllreduce | DDLAllreduce
| GlooAllreduce | MLSLAllreduce | MPIAllreduce.

Inductive AllgatherOp : Type :=
| MPIHierarchicalAllgather | GlooAllgather | MLSLAllgather | MPIAllgather.

Inductive BroadcastOp : Type :=
| GlooBroadcast | MLSLBroadcast | MPIBroadcast.

(** The operations in the order in which they are asked whether they
    are enabled; [ErrorOp] is always the error operation. *)
Record t : Type := mk {
  allreduce_ops : list AllreduceOp;
  allgather_ops : list AllgatherOp;
  broadcast_ops : list BroadcastOp
}.

(** The macros that the preprocessor conditions read. *)
Record Build : Type := mkBuild {
  HAVE_CUDA : bool;
  HAVE_NCCL : bool;
  HAVE_DDL : bool;
  HAVE_GLOO : bool;
  HAVE_MLSL : bool;
  HOROVOD_GPU_ALLREDUCE : ascii
}.

(** [LibType]: the value of [state.cpu_operation]. *)
Inductive LibType : Type := MPI | MLSL | GLOO.

Definition is_GLOO (l : LibType) : bool := match l with GLOO => true | _ => false end.
Definition is_MLSL (l : LibType) : bool := match l with MLSL => true | _ => false end.

Definition CreateOperationManager (b : Build) (cpu_operation : LibType) : t :=
  let gpu := HOROVOD_GPU_ALLREDUCE b in
  (* #if HAVE_CUDA *)
  let '(allreduce_ops, allgather_ops) :=
    if HAVE_CUDA b
    then
      if Ascii.eqb gpu "M"
      then ([MPI_CUDAAllreduce], [])
      else
        let allreduce_ops :=
          if HAVE_NCCL b && Ascii.eqb gpu "N"
          then [NCCLHierarchicalAllreduce; NCCLAllreduce]
          else if HAVE_DDL b && Ascii.eqb gpu "D"
               then [DDLAllreduce]
               else [] in
        (allreduce_ops, [MPIHierarchicalAllgather])
    else ([], []) in
  let broadcast_ops := [] in
  (* #if HAVE_GLOO *)
  let '(allreduce_ops, allgather_ops, broadcast_ops) :=
    if HAVE_GLOO b && is_GLOO cpu_operation
    then (allreduce_ops ++ [GlooAllreduce], allgather_ops ++ [GlooAllgather],
          broadcast_ops ++ [GlooBroadcast])
    else (allreduce_ops, allgather_ops, broadcast_ops) in
  (* #if HAVE_MLSL *)
  let '(allreduce_ops, allgather_ops, broadcast_ops) :=
    if HAVE_MLSL b && is_MLSL cpu_operation
    then (allreduce_ops ++ [MLSLAllreduce], allgather_ops ++ [MLSLAllgather],
          broadcast_ops ++ [MLSLBroadcast])
    else (allreduce_ops, allgather_ops, broadcast_ops) in
  (* Default operations, always enabled but last to be checked. *)
  mk (allreduce_ops ++ [MPIAllreduce]) (allgather_ops ++ [MPIAllgather])
     (broadcast_ops ++ [MPIBroadcast]).

(** Operations that run on the GPU. *)
Definition on_gpu (op : AllreduceOp) : bool :=
  match op with
  | MPI_CUDAAllreduce | NCCLHierarchicalAllreduce | NCCLAllreduce | DDLAllreduce => true
  | _ => false
  end.

(** A build of the CUDA and NCCL flavour with Gloo compiled in. *)
Definition nccl_build : Build := mkBuild true true false true false "N".

End OperationManager.

(* ===================================================================== *)
(** * operations.cc: starting and stopping the background thread *)
(* ===================================================================== *)

Module Lifecycle.
Import Operations.

(** What [InitializeHorovodOnce] and [horovod_shutdown] touch besides the
    fields of [HorovodGlobalState] above: the [std::atomic_flag]
    [initialize_flag] and the [std::thread] [background_thread], of which
    the functions observe whether it is joinable.  [threads_started]
    counts the threads that have been started. *)
Record Process : Type := mkProcess {
  global : HorovodGlobalState;
  initialize_flag : bool;
  joinable : bool;
  threads_started : nat
}.

(** How a call ends: it returns; the program is terminated (a joinable
    [std::thread] is assigned to); the call waits for ever because no
    thread exists that could end the wait; or the call waits for a
    background thread that makes no progress. *)
Inductive Result : Type :=
| Done (p : Process)
| Terminated
| Hangs
| Stalls.

Definition with_controller (g : HorovodGlobalState) (c : Controller)
    : HorovodGlobalState :=
  {| shut_down := shut_down g; initialization_done := false; controller := Some c;
     tensor_table := tensor_table g; message_queue := message_queue g |}.

Definition with_initialization_done (g : HorovodGlobalState) : HorovodGlobalState :=
  {| shut_down := shut_down g; initialization_done := true; controller := controller g;
     tensor_table := tensor_table g; message_queue := message_queue g |}.

(** [InitializeHorovodOnce] (lines 608-626); [new_controller] is the
    controller that the call would create.  The waiting loop at its end
    (lines 622-624) is left when [initialization_done] is set.  The
    background thread sets it at line 505, if it gets there:
    [thread_initialises] says whether it does.  Without a thread nobody
    sets it. *)
Definition InitializeHorovodOnce (new_controller : Controller)
    (thread_initialises : bool) (p : Process) : Result :=
  let started :=
    if negb (initialize_flag p)
    then
      if joinable p then None
      else Some {| global := with_controller (global p) new_controller;
                   initialize_flag := true;
                   joinable := true;
                   threads_started := S (threads_started p) |}
    else Some p in
  match started with
  | None => Terminated
  | Some p =>
    if initialization_done (global p) then Done p
    else if joinable p
         then if thread_initialises
              then Done {| global := with_initialization_done (global p);
                           initialize_flag := initialize_flag p;
                           joinable := joinable p;
                           threads_started := threads_started p |}
              else Stalls
         else Hangs
  end.

(** [horovod_init] (lines 639-641). *)
Definition horovod_init (new_controller : Controller) (thread_initialises : bool)
    (p : Process) : Result :=
  InitializeHorovodOnce new_controller thread_initialises p.

(** [horovod_shutdown] (lines 648-656).  The [join] of line 651 returns
    when the background thread has run to its end, if it ever does:
    [thread_ends] is [None] for a thread that never leaves its loop, and
    otherwise what the thread did until its loop was left; the thread's
    shutdown sequence follows. *)
Definition horovod_shutdown_joining
    (thread_ends : option (HorovodGlobalState -> HorovodGlobalState))
    (p : Process) : Result :=
  if joinable p
  then
    match thread_ends with
    | None => Stalls
    | Some until_loop_exit =>
      let g := with_shut_down (global p) true in
      let g := fst (BackgroundThreadLoop_shutdown (until_loop_exit g)) in
      Done {| global := with_shut_down g false;
              initialize_flag := false;
              joinable := false;
              threads_started := threads_started p |}
    end
  else Done p.

(** [horovod_shutdown] with a background thread that ends. *)
Definition horovod_shutdown (until_loop_exit : HorovodGlobalState -> HorovodGlobalState)
    (p : Process) : Result :=
  horovod_shutdown_joining (Some until_loop_exit) p.

(** A sequence of calls of the two functions, each with the progress
    that the background thread makes while the call waits for it. *)
Inductive ApiCall : Type :=
| Init (new_controller : Controller) (thread_initialises : bool)
| Shutdown (thread_ends : option (HorovodGlobalState -> HorovodGlobalState)).

Definition call (c : ApiCall) (p : Process) : Result :=
  match c with
  | Init new_controller thread_initialises =>
    horovod_init new_controller thread_initialises p
  | Shutdown thread_ends => horovod_shutdown_joining thread_ends p
  end.

Fixpoint calls (cs : list ApiCall) (p : Process) : Result :=
  match cs with
  | [] => Done p
  | c :: rest =>
    match call c p with
    | Done p => calls rest p
    | Terminated => Terminated
    | Hangs => Hangs
    | Stalls => Stalls
    end
  end.

Definition is_shutdown (c : ApiCall) : bool :=
  match c with Shutdown _ => true | Init _ _ => false end.

(** The background thread makes the progress that the call waits for. *)
Definition progresses (c : ApiCall) : bool :=
  match c with
  | Init _ thread_initialises => thread_initialises
  | Shutdown (Some _) => true
  | Shutdown None => false
  end.

(** A process in which Horovod has never been started. *)
Definition never_started (g : HorovodGlobalState) : Process :=
  {| global := g; initialize_flag := false; joinable := false; threads_started := 0 |}.

(** Between two calls: a thread is joinable exactly when the flag is set,
    and then initialisation has completed. *)
Definition settled (p : Process) : Prop :=
  joinable p = initialize_flag p
  /\ (initialize_flag p = true -> initialization_done (global p) = true).

End Lifecycle.

(* ===================================================================== *)
(** * operations.cc: the shutdown sequence and the order of the hash map *)
(* ===================================================================== *)

Module ShutdownOrder.
Import Operations.

(** [for (auto& e : state.tensor_table)] visits every entry of the
    [std::unordered_map] once, in an order that the contents of the map
    do not determine (it depends on the history of insertions).
    [visits order tt] says that [order] is such an order for [tt]. *)
Definition visits (order : list (string * TensorTableEntry))
    (tt : gmap string TensorTableEntry) : Prop :=
  order ≡ₚ map_to_list tt.

(** The shutdown tail of [BackgroundThreadLoop] (lines 525-543) when the
    loop over the tensor table visits the entries in [order]. *)
Definition BackgroundThreadLoop_shutdown_visiting
    (order : list (string * TensorTableEntry)) (state : HorovodGlobalState)
    : HorovodGlobalState * list Event :=
  let state := with_shut_down state true in
  let callbacks := map (fun e => callback (snd e)) order in
  let state := with_tables state ∅ (pop_all (message_queue state)) in
  (state, map (fun cb => CallbackInvoked cb SHUT_DOWN_ERROR) callbacks).

End ShutdownOrder.

(* ===================================================================== *)
(** * Properties *)
(* ===================================================================== *)

(** ** Wrap-around is the identity on values that fit *)

Module MachineIntFacts.

Lemma int_id x : is_int x -> int x = x.
Proof.
  unfold is_int, INT_MIN, INT_MAX, int, wrap. intros H.
  rewrite Z.mod_small; lia.
Qed.

Lemma int64_id x : is_int64 x -> int64_t x = x.
Proof.
  unfold is_int64, INT64_MIN, INT64_MAX, int64_t, wrap. intros H.
  rewrite Z.mod_small; lia.
Qed.

Lemma size_t_id x : 0 <= x < 2 ^ 64 -> size_t x = x.
Proof. intros H. unfold size_t. now apply Z.mod_small. Qed.

Lemma int_range x : is_int (int x).
Proof.
  unfold is_int, INT_MIN, INT_MAX, int, wrap.
  pose proof (Z.mod_pos_bound (x + 2 ^ (32 - 1)) (2 ^ 32) ltac:(lia)). lia.
Qed.

Lemma is_int_is_int64 x : is_int x -> is_int64 x.
Proof. unfold is_int, is_int64, INT_MIN, INT_MAX, INT64_MIN, INT64_MAX. lia. Qed.

Lemma size_t_int64_id x : 0 <= x <= INT64_MAX -> size_t (int64_t x) = x.
Proof.
  intros H. rewrite int64_id.
  - apply size_t_id. unfold INT64_MAX in H. lia.
  - unfold is_int64, INT64_MIN. lia.
Qed.

End MachineIntFacts.

Import MachineIntFacts.

(** ** The hierarchical split of [AdasumCudaAllreduceOp] *)

Module AdasumFacts.
Import AdasumCudaAllreduceOp AdasumSpec.

Lemma Zsum_app l k : Zsum (l ++ k) = Zsum l + Zsum k.
Proof. unfold Zsum. induction l as [|x l IH]; simpl; lia. Qed.

Lemma Zsum_nonneg l : Forall (fun x => 0 <= x) l -> 0 <= Zsum l.
Proof. induction 1; simpl; lia. Qed.

Lemma Zsum_take_le l i :
  Forall (fun x => 0 <= x) l -> 0 <= Zsum (take i l) <= Zsum l.
Proof.
  intros H. rewrite <- (take_drop i l) at 3. rewrite Zsum_app.
  assert (0 <= Zsum (take i l)) by (apply Zsum_nonneg; now apply Forall_take).
  assert (0 <= Zsum (drop i l)) by (apply Zsum_nonneg; now apply Forall_drop).
  lia.
Qed.

(** *** Rounding up *)

Lemma round_up_spec n d :
  0 <= n -> 0 < d ->
  n <= round_up n d < n + d /\ (d | round_up n d)
  /\ forall m, (d | m) -> n <= m -> round_up n d <= m.
Proof.
  intros Hn Hd. unfold round_up.
  pose proof (Z.div_mod (n + d - 1) d ltac:(lia)) as Hdm.
  pose proof (Z.mod_pos_bound (n + d - 1) d Hd) as Hb.
  repeat split.
  - nia.
  - nia.
  - exists ((n + d - 1) / d). reflexivity.
  - intros m [k ->] Hle.
    apply Z.mul_le_mono_nonneg_r; [lia|].
    assert (n + d - 1 < d * (k + 1)) as Hlt by nia.
    apply Z.div_lt_upper_bound in Hlt; lia.
Qed.

(** *** Slices of the local ranks partition the divisible part *)

Lemma in_slice_prefix_sum (n : nat) p a b :
  0 <= a <= b -> 0 <= p ->
  Zsum (map (fun r => in_slice r p a b) (seqZ 0 (Z.of_nat n)))
  = Z.min b (Z.of_nat n * p) - Z.min a (Z.of_nat n * p).
Proof.
  intros Hab Hp. induction n as [|n IH].
  - simpl. lia.
  - rewrite seqZ_S, map_app, Zsum_app, IH. simpl. unfold in_slice.
    replace (0 + Z.of_nat n) with (Z.of_nat n) by lia.
    replace (Z.of_nat (S n) * p) with ((Z.of_nat n + 1) * p) by lia.
    assert (Z.of_nat n * p <= (Z.of_nat n + 1) * p) by nia.
    assert (0 <= Z.of_nat n * p) by nia.
    lia.
Qed.

Lemma slices_and_remainder_cover ls p a b :
  0 <= a <= b -> 0 <= p -> 0 <= ls ->
  Zsum (map (fun r => in_slice r p a b) (local_ranks ls))
    + (if ls * p <=? b then in_remainder (ls * p) a b else 0)
  = b - a.
Proof.
  intros Hab Hp Hls. unfold local_ranks.
  rewrite <- (Z2Nat.id ls Hls) at 1.
  rewrite in_slice_prefix_sum by assumption.
  rewrite (Z2Nat.id ls Hls). unfold in_remainder.
  assert (0 <= ls * p) by nia.
  destruct (Z.leb_spec (ls * p) b); lia.
Qed.

(** *** The code computes these quantities when nothing overflows *)

Ltac fits := unfold is_int, is_int64, INT_MIN, INT64_MIN, INT64_MAX, INT_MAX in *; lia.

Ltac unwrap :=
  repeat match goal with
         | |- context [int64_t ?x] => rewrite (int64_id x) by fits
         | |- context [int ?x] => rewrite (int_id x) by fits
         end.

Lemma sum_num_elements_from acc entries :
  Forall (fun x => 0 <= x) (elements entries) ->
  0 <= acc -> acc + Zsum (elements entries) <= INT64_MAX ->
  fold_left (fun acc e => int64_t (acc + num_elements (tensor e))) entries acc
  = acc + Zsum (elements entries).
Proof.
  revert acc. induction entries as [|e entries IH]; intros acc Hpos Hacc Hmax; simpl in *.
  - lia.
  - inversion Hpos as [|? ? He Hrest]; subst.
    pose proof (Zsum_nonneg _ Hrest).
    rewrite int64_id by (unfold is_int64, INT64_MIN, INT64_MAX in *; lia).
    rewrite IH by (try assumption; lia). lia.
Qed.

Lemma sum_num_elements_exact entries :
  Forall (fun x => 0 <= x) (elements entries) ->
  Zsum (elements entries) <= INT64_MAX ->
  sum_num_elements entries = Zsum (elements entries).
Proof.
  intros Hpos Hmax. unfold sum_num_elements.
  rewrite sum_num_elements_from by (try assumption; lia). lia.
Qed.

Lemma pad_num_elements_exact unit n local_size :
  0 <= n -> 1 <= local_size * unit <= INT_MAX ->
  n + local_size * unit <= INT64_MAX ->
  pad_num_elements unit n local_size = round_up n (local_size * unit).
Proof.
  intros Hn Hd Hmax. unfold pad_num_elements, fusion_div, round_up.
  set (d := local_size * unit) in *.
  destruct (round_up_spec n d Hn ltac:(lia)) as [Hr _]. unfold round_up in Hr.
  rewrite (int_id d) by (unfold is_int, INT_MIN, INT_MAX in *; lia).
  rewrite (int64_id (n + d)) by (unfold is_int64, INT64_MIN, INT64_MAX in *; lia).
  rewrite (int64_id (n + d - 1)) by (unfold is_int64, INT64_MIN, INT64_MAX in *; lia).
  rewrite Z.quot_div_nonneg by lia.
  apply int64_id. unfold is_int64, INT64_MIN, INT64_MAX in *. lia.
Qed.

Lemma tensor_counts_homogeneous_lookup r ls p root sofar entries i e :
  0 <= r -> r + 1 <= ls -> ls <= INT_MAX -> 0 <= p -> ls * p <= INT64_MAX ->
  0 <= sofar ->
  Forall (fun x => 0 <= x <= INT_MAX) (elements entries) ->
  sofar + Zsum (elements entries) <= INT64_MAX ->
  entries !! i = Some e ->
  tensor_counts_homogeneous r ls p root sofar entries !! i
  = Some (let a := sofar + offset entries i in
          let b := a + num_elements (tensor e) in
          in_slice r p a b
          + (if root && (ls * p <=? b) then in_remainder (ls * p) a b else 0)).
Proof.
  intros Hr Hrls Hls Hp Hlsp. revert sofar i.
  induction entries as [|e0 entries IH]; intros sofar i Hsofar Hpos Hmax Hi.
  - discriminate.
  - simpl in Hpos, Hmax. inversion Hpos as [|? ? He0 Hrest]; subst.
    assert (0 <= Zsum (elements entries))
      by (apply Zsum_nonneg; eapply Forall_impl; [exact Hrest|simpl; lia]).
    assert (0 <= r * p) by nia.
    assert (r * p <= (r + 1) * p) by nia.
    assert ((r + 1) * p <= ls * p) by nia.
    destruct i as [|i].
    + injection Hi as ->. cbn [tensor_counts_homogeneous lookup list_lookup].
      unfold offset. cbn [take Zsum foldr]. cbv zeta.
      rewrite Z.add_0_r. set (n := num_elements (tensor e)) in *.
      unfold in_slice, in_remainder. f_equal.
      rewrite (int_id (r + 1)) by (unfold is_int, INT_MIN, INT_MAX in *; lia).
      rewrite (int64_id (r * p)) by (unfold is_int64, INT64_MIN, INT64_MAX in *; lia).
      rewrite (int64_id ((r + 1) * p))
        by (unfold is_int64, INT64_MIN, INT64_MAX in *; lia).
      rewrite (int64_id (ls * p)) by (unfold is_int64, INT64_MIN, INT64_MAX in *; lia).
      rewrite (int64_id (sofar + n)) by (unfold is_int64, INT64_MIN, INT64_MAX in *; lia).
      destruct root; cbn [andb]; [destruct (Z.leb_spec (ls * p) (sofar + n))|]; unwrap; lia.
    + change (tensor_counts_homogeneous r ls p root sofar (e0 :: entries) !! S i)
        with (tensor_counts_homogeneous r ls p root
                (int64_t (sofar + num_elements (tensor e0))) entries !! i).
      change ((e0 :: entries) !! S i) with (entries !! i) in Hi.
      rewrite (int64_id (sofar + num_elements (tensor e0)))
        by (unfold is_int64, INT64_MIN, INT64_MAX, INT_MAX in *; lia).
      rewrite (IH (sofar + num_elements (tensor e0)) i) by (try assumption; lia).
      unfold offset. cbn [elements map take Zsum foldr]. cbv zeta.
      fold (elements entries). fold (Zsum (take i (elements entries))).
      rewrite !Z.add_assoc. reflexivity.
Qed.

(** *** The fields of the split, read off the code *)

Lemma NcclHierarchical_fields unit ctl element_size fused_len entries s :
  NcclHierarchical unit ctl element_size fused_len entries = Some s ->
  let n := split_num_elements s in
  let ls := GetLocalSize ctl in
  entries <> []
  /\ n = (if IsHomogeneous ctl && (1 <? Z.of_nat (length entries))
          then pad_num_elements unit (sum_num_elements entries) ls
          else sum_num_elements entries)
  /\ (IsHomogeneous ctl && (1 <? Z.of_nat (length entries)) = true ->
      buffer_len s = size_t (int64_t (n * element_size)))
  /\ num_elements_per_rank s = (if IsHomogeneous ctl then Z.quot n ls else 0)
  /\ num_elements_remaining s = (if IsHomogeneous ctl then Z.rem n ls else n)
  /\ split_root_rank s = (if IsHomogeneous ctl then int (ls - 1) else 0)
  /\ is_root_rank s = (GetLocalRank ctl =? split_root_rank s)
  /\ total_num_elements s
     = (if is_root_rank s
        then int64_t (num_elements_per_rank s + num_elements_remaining s)
        else num_elements_per_rank s)
  /\ (IsHomogeneous ctl = true ->
      tensor_counts s
      = Some (tensor_counts_homogeneous (GetLocalRank ctl) ls
                (num_elements_per_rank s) (is_root_rank s) 0 entries)).
Proof.
  unfold NcclHierarchical. destruct entries as [|first_entry rest]; [discriminate|].
  destruct (if 1 <? Z.of_nat (length (first_entry :: rest)) then Some fused_len
            else (fun o => size_t (size_bytes o)) <$> output first_entry)
    as [len|]; [|discriminate].
  cbn [mbind option_bind].
  set (fused := IsHomogeneous ctl && (1 <? Z.of_nat (length (first_entry :: rest)))).
  destruct (fused && _); [discriminate|].
  destruct (IsHomogeneous ctl && (GetLocalSize ctl =? 0)); [discriminate|].
  destruct fused eqn:Hfused; intros [= <-]; cbn [split_num_elements buffer_len
    num_elements_per_rank num_elements_remaining split_root_rank is_root_rank
    total_num_elements tensor_counts]; cbv zeta.
  - repeat split; try reflexivity; try discriminate.
    intros ->. reflexivity.
  - repeat split; try reflexivity; try discriminate.
    intros ->. reflexivity.
Qed.

(** The split of a result, for an element count that is not negative and
    a local size of at least one (both within their C++ types). *)
Lemma split_of_result unit ctl element_size fused_len entries s :
  NcclHierarchical unit ctl element_size fused_len entries = Some s ->
  0 <= split_num_elements s <= INT64_MAX ->
  1 <= GetLocalSize ctl <= INT_MAX ->
  let n := split_num_elements s in
  let ls := GetLocalSize ctl in
  num_elements_per_rank s = (if IsHomogeneous ctl then n / ls else 0)
  /\ num_elements_remaining s = (if IsHomogeneous ctl then n mod ls else n)
  /\ split_root_rank s = (if IsHomogeneous ctl then ls - 1 else 0)
  /\ is_root_rank s = bool_decide (GetLocalRank ctl = split_root_rank s)
  /\ total_num_elements s
     = (if is_root_rank s
        then num_elements_per_rank s + num_elements_remaining s
        else num_elements_per_rank s).
Proof.
  intros Hs Hn Hls n ls.
  destruct (NcclHierarchical_fields _ _ _ _ _ _ Hs)
    as (_ & _ & _ & Hper & Hrem & Hroot & Hisroot & Htotal & _).
  fold n ls in Hper, Hrem, Hroot.
  rewrite Z.quot_div_nonneg in Hper by lia.
  rewrite Z.rem_mod_nonneg in Hrem by lia.
  rewrite (int_id (ls - 1)) in Hroot by fits.
  repeat split; try assumption.
  - rewrite Hisroot. destruct (Z.eqb_spec (GetLocalRank ctl) (split_root_rank s));
      [rewrite bool_decide_eq_true_2|rewrite bool_decide_eq_false_2]; done.
  - rewrite Htotal. destruct (is_root_rank s); [|reflexivity].
    apply int64_id. rewrite Hper, Hrem.
    pose proof (Z.div_mod n ls ltac:(lia)).
    pose proof (Z.mod_pos_bound n ls ltac:(lia)).
    assert (0 <= n / ls) by (apply Z.div_pos; lia).
    destruct (IsHomogeneous ctl); [|fits].
    assert (n / ls <= ls * (n / ls)) by nia. fits.
Qed.

(** The wrapping sum of the element counts fits an [int64_t]. *)
Lemma sum_num_elements_range entries : is_int64 (sum_num_elements entries).
Proof.
  unfold sum_num_elements.
  assert (forall acc, is_int64 acc ->
            is_int64 (fold_left (fun acc e => int64_t (acc + num_elements (tensor e)))
                        entries acc)) as H.
  { induction entries as [|e entries IH]; intros acc Hacc; [exact Hacc|].
    cbn [fold_left]. apply IH.
    unfold is_int64, INT64_MIN, INT64_MAX, int64_t, wrap.
    pose proof (Z.mod_pos_bound (acc + num_elements (tensor e) + 2 ^ (64 - 1)) (2 ^ 64)
                  ltac:(lia)). lia. }
  apply H. unfold is_int64, INT64_MIN, INT64_MAX. lia.
Qed.

(** When [NcclHierarchical] has a result: the entries are not empty, the
    only entry has an output, and no division is by zero. *)
Lemma NcclHierarchical_defined unit ctl element_size fused_len entries :
  entries <> [] ->
  Forall (fun e => output e <> None) entries ->
  (IsHomogeneous ctl = true -> GetLocalSize ctl <> 0) ->
  (IsHomogeneous ctl = true -> (1 < length entries)%nat ->
   fusion_div unit (GetLocalSize ctl) <> 0) ->
  exists s, NcclHierarchical unit ctl element_size fused_len entries = Some s.
Proof.
  intros Hne Hout Hls Hdiv. unfold NcclHierarchical.
  destruct entries as [|e0 rest]; [congruence|].
  assert (exists len,
             (if 1 <? Z.of_nat (length (e0 :: rest)) then Some fused_len
              else (fun o => size_t (size_bytes o)) <$> output e0) = Some len)
    as [len ->].
  { destruct (1 <? Z.of_nat (length (e0 :: rest))); [eauto|].
    inversion Hout as [|? ? He0 _]; subst.
    destruct (output e0); [eauto|congruence]. }
  cbn [mbind option_bind].
  destruct (IsHomogeneous ctl) eqn:Hhom; cbn [andb].
  - assert ((GetLocalSize ctl =? 0) = false) as ->
      by (apply Z.eqb_neq; now apply Hls).
    destruct (Z.ltb_spec 1 (Z.of_nat (length (e0 :: rest)))) as [Hfused|Hsingle].
    + assert ((fusion_div unit (GetLocalSize ctl) =? 0) = false) as ->
        by (apply Z.eqb_neq; apply Hdiv; [reflexivity|lia]).
      eauto.
    + eauto.
  - eauto.
Qed.

(** C4: how the (possibly padded) element count is split between the
    local ranks.  For entries whose element counts sum to
    [0 <= num_elements] and for [1 <= local_size] (all sizes within their
    C++ types), [NcclHierarchical] computes a split.  Its element count is
    the sum, padded when several entries are fused on a homogeneous
    cluster; [num_elements_per_rank] is [num_elements / local_size] on a
    homogeneous cluster and [0] otherwise, [num_elements_remaining] is
    [num_elements mod local_size] respectively [num_elements], the root is
    [local_size - 1] respectively [0], and a rank owns
    [num_elements_per_rank] elements, plus the remainder when it is the
    root. *)
Theorem C4_split_between_local_ranks unit ctl element_size fused_len entries :
  entries <> [] ->
  Forall (fun e => output e <> None) entries ->
  0 <= sum_num_elements entries ->
  1 <= GetLocalSize ctl <= INT_MAX ->
  (IsHomogeneous ctl = true -> (1 < length entries)%nat ->
   1 <= unit /\ GetLocalSize ctl * unit <= INT_MAX
   /\ sum_num_elements entries + GetLocalSize ctl * unit <= INT64_MAX) ->
  exists s,
    NcclHierarchical unit ctl element_size fused_len entries = Some s
    /\ let n := split_num_elements s in
       let ls := GetLocalSize ctl in
       n = (if IsHomogeneous ctl && (1 <? Z.of_nat (length entries))
            then round_up (sum_num_elements entries) (ls * unit)
            else sum_num_elements entries)
       /\ 0 <= n <= INT64_MAX
       /\ num_elements_per_rank s = (if IsHomogeneous ctl then n / ls else 0)
       /\ num_elements_remaining s = (if IsHomogeneous ctl then n mod ls else n)
       /\ split_root_rank s = (if IsHomogeneous ctl then ls - 1 else 0)
       /\ is_root_rank s = bool_decide (GetLocalRank ctl = split_root_rank s)
       /\ total_num_elements s
          = (if is_root_rank s
             then num_elements_per_rank s + num_elements_remaining s
             else num_elements_per_rank s).
Proof.
  intros Hne Hout Hn0 Hls Hfused.
  destruct (NcclHierarchical_defined unit ctl element_size fused_len entries Hne Hout)
    as [s Hs].
  { intros _. lia. }
  { intros Hhom Hlen. destruct (Hfused Hhom Hlen) as (Hunit & Hdiv & _).
    unfold fusion_div. rewrite int_id by fits. nia. }
  exists s. split; [exact Hs|]. cbv zeta.
  destruct (NcclHierarchical_fields _ _ _ _ _ _ Hs) as (_ & Hn & _).
  cbv zeta in Hn.
  pose proof (sum_num_elements_range entries) as Hrange.
  assert (split_num_elements s
          = (if IsHomogeneous ctl && (1 <? Z.of_nat (length entries))
             then round_up (sum_num_elements entries) (GetLocalSize ctl * unit)
             else sum_num_elements entries)
          /\ 0 <= split_num_elements s <= INT64_MAX) as [Hvalue Hbound].
  { rewrite Hn.
    destruct (IsHomogeneous ctl) eqn:Hhom; cbn [andb]; [|split; [reflexivity|fits]].
    destruct (Z.ltb_spec 1 (Z.of_nat (length entries))) as [Hlen|Hlen];
      [|split; [reflexivity|fits]].
    destruct (Hfused eq_refl ltac:(lia)) as (Hunit & Hdiv & Hmax).
    assert (1 <= GetLocalSize ctl * unit) by nia.
    rewrite pad_num_elements_exact by lia.
    split; [reflexivity|].
    destruct (round_up_spec (sum_num_elements entries) (GetLocalSize ctl * unit)
                Hn0 ltac:(lia)) as (Hr & _).
    lia. }
  split; [exact Hvalue|split; [exact Hbound|]].
  apply (split_of_result unit ctl element_size fused_len entries s Hs Hbound Hls).
Qed.

Lemma C4_split_between_local_ranks_witness :
  exists s,
    NcclHierarchical 64 (homogeneous_rank 3 4) 4 0 [entry_of 1003] = Some s
    /\ split_num_elements s = 1003
    /\ 0 <= split_num_elements s <= INT64_MAX
    /\ num_elements_per_rank s = split_num_elements s / 4
    /\ num_elements_remaining s = split_num_elements s mod 4
    /\ split_root_rank s = 4 - 1
    /\ is_root_rank s = bool_decide (3 = split_root_rank s)
    /\ total_num_elements s
       = (if is_root_rank s
          then num_elements_per_rank s + num_elements_remaining s
          else num_elements_per_rank s).
Proof.
  apply (C4_split_between_local_ranks 64 (homogeneous_rank 3 4) 4 0 [entry_of 1003]).
  - discriminate.
  - repeat constructor; discriminate.
  - vm_compute. discriminate.
  - unfold INT_MAX. simpl. lia.
  - simpl. lia.
Defined.

(** The padding of a result for several entries fused on a homogeneous
    cluster, when [div] fits an [int] and the sizes fit an [int64_t]. *)
Lemma padding_of_result unit ctl element_size fused_len entries s :
  NcclHierarchical unit ctl element_size fused_len entries = Some s ->
  IsHomogeneous ctl = true ->
  (1 < length entries)%nat ->
  let n0 := sum_num_elements entries in
  let div := GetLocalSize ctl * unit in
  let n := split_num_elements s in
  0 <= n0 -> 1 <= GetLocalSize ctl -> 1 <= unit -> div <= INT_MAX ->
  n0 + div <= INT64_MAX ->
  0 <= element_size -> (n0 + div) * element_size <= INT64_MAX ->
  n = ((n0 + div - 1) / div) * div
  /\ n0 <= n < n0 + div
  /\ (div | n)
  /\ (forall m, (div | m) -> n0 <= m -> n <= m)
  /\ (GetLocalSize ctl | n)
  /\ num_elements_remaining s = 0
  /\ buffer_len s = n * element_size.
Proof.
  intros Hs Hhom Hlen n0 div n Hn0 Hls Hunit Hdiv Hmax Hes Hbytes.
  destruct (NcclHierarchical_fields _ _ _ _ _ _ Hs)
    as (_ & Hn & Hbuf & _ & Hrem & _).
  fold n in Hn, Hbuf, Hrem. rewrite Hhom in Hn, Hbuf, Hrem.
  assert ((1 <? Z.of_nat (length entries)) = true) as Hfused
    by (apply Z.ltb_lt; lia).
  rewrite Hfused in Hn, Hbuf. cbn [andb] in Hn, Hbuf.
  assert (1 <= div) by (unfold div; nia).
  rewrite pad_num_elements_exact in Hn by (fold n0 div; lia).
  fold n0 div in Hn.
  destruct (round_up_spec n0 div Hn0 ltac:(lia)) as (Hrange & Hdivides & Hleast).
  rewrite <- Hn in Hrange, Hdivides, Hleast.
  assert ((GetLocalSize ctl | n)) as Hlsn.
  { eapply Z.divide_trans; [|exact Hdivides]. exists unit. unfold div. lia. }
  repeat split; try assumption; try lia.
  - rewrite Hrem, Z.rem_mod_nonneg by lia.
    apply Z.mod_divide in Hlsn; lia.
  - rewrite Hbuf by reflexivity. apply size_t_int64_id. nia.
Qed.

(** C5: the padding of a fused buffer on a homogeneous cluster.  When
    several entries are fused on a homogeneous cluster, [NcclHierarchical]
    computes a split in which, with
    [div = local_size * FUSION_BUFFER_ATOMIC_UNIT], [num_elements] has been
    replaced by [((num_elements + div - 1) / div) * div], the least
    multiple of [div] that is not below the original count; it is below
    the original plus [div], is divisible by [local_size], leaves no
    remainder, and [buffer_len] is the padded count times the element
    size.  The hypotheses say that [div] fits an [int] and the sizes fit
    an [int64_t]. *)
Theorem C5_fusion_padding unit ctl element_size fused_len entries :
  IsHomogeneous ctl = true ->
  (1 < length entries)%nat ->
  let n0 := sum_num_elements entries in
  let div := GetLocalSize ctl * unit in
  0 <= n0 -> 1 <= GetLocalSize ctl -> 1 <= unit -> div <= INT_MAX ->
  n0 + div <= INT64_MAX ->
  0 <= element_size -> (n0 + div) * element_size <= INT64_MAX ->
  exists s,
    NcclHierarchical unit ctl element_size fused_len entries = Some s
    /\ let n := split_num_elements s in
       n = ((n0 + div - 1) / div) * div
       /\ n0 <= n < n0 + div
       /\ (div | n)
       /\ (forall m, (div | m) -> n0 <= m -> n <= m)
       /\ (GetLocalSize ctl | n)
       /\ num_elements_remaining s = 0
       /\ buffer_len s = n * element_size.
Proof.
  intros Hhom Hlen n0 div Hn0 Hls Hunit Hdiv Hmax Hes Hbytes.
  assert (exists s, NcclHierarchical unit ctl element_size fused_len entries = Some s)
    as [s Hs].
  { unfold NcclHierarchical. destruct entries as [|e0 rest]; [simpl in Hlen; lia|].
    assert ((1 <? Z.of_nat (length (e0 :: rest))) = true) as ->
      by (apply Z.ltb_lt; lia).
    cbn [mbind option_bind]. rewrite Hhom. cbn [andb].
    assert ((fusion_div unit (GetLocalSize ctl) =? 0) = false) as ->.
    { apply Z.eqb_neq. unfold fusion_div. fold div. rewrite int_id by fits.
      unfold div. nia. }
    assert ((GetLocalSize ctl =? 0) = false) as -> by (apply Z.eqb_neq; lia).
    eauto. }
  exists s. split; [exact Hs|].
  apply (padding_of_result unit ctl element_size fused_len entries s Hs Hhom Hlen);
    assumption.
Qed.

Lemma C5_fusion_padding_witness :
  exists s,
    NcclHierarchical 64 (homogeneous_rank 0 4) 4 24000 three_tensors = Some s
    /\ split_num_elements s = ((6000 + 256 - 1) / 256) * 256
    /\ 6000 <= split_num_elements s < 6000 + 256
    /\ num_elements_remaining s = 0
    /\ buffer_len s = split_num_elements s * 4.
Proof.
  pose proof (C5_fusion_padding 64 (homogeneous_rank 0 4) 4 24000 three_tensors
                eq_refl) as H.
  cbv zeta in H.
  change (sum_num_elements three_tensors) with 6000 in H.
  change (GetLocalSize (homogeneous_rank 0 4) * 64) with 256 in H.
  assert (GetLocalSize (homogeneous_rank 0 4) = 4) as Hls by reflexivity.
  specialize (H ltac:(simpl; lia) ltac:(lia) ltac:(lia) ltac:(lia)
                ltac:(unfold INT_MAX; lia) ltac:(unfold INT64_MAX; lia)
                ltac:(lia) ltac:(unfold INT64_MAX; lia)).
  destruct H as (s & Hs & H1 & H2 & _ & _ & _ & H3 & H4).
  exists s. repeat split; try assumption; lia.
Defined.

(** *** Attribution of the fused elements to the original tensors *)

Lemma Zsum_map_ext (f g : Z -> Z) l :
  (forall x, x ∈ l -> f x = g x) -> Zsum (map f l) = Zsum (map g l).
Proof.
  induction l as [|x l IH]; intros H; simpl; [reflexivity|].
  rewrite (H x) by (left; reflexivity).
  rewrite IH; [reflexivity|]. intros y Hy. apply H. now right.
Qed.

Lemma Zsum_root_extra (f : Z -> Z) x ls :
  1 <= ls ->
  Zsum (map (fun r => f r + (if r =? ls - 1 then x else 0)) (local_ranks ls))
  = Zsum (map f (local_ranks ls)) + x.
Proof.
  intros Hls. unfold local_ranks.
  assert (seqZ 0 ls = seqZ 0 (ls - 1) ++ [ls - 1]) as ->.
  { replace (ls - 1) with (Z.of_nat (Z.to_nat (ls - 1))) at 1 by lia.
    replace (ls - 1) with (0 + Z.of_nat (Z.to_nat (ls - 1))) at 2 by lia.
    rewrite <- seqZ_S. f_equal. lia. }
  rewrite !map_app, !Zsum_app. cbn [map Zsum foldr].
  rewrite Z.eqb_refl.
  rewrite (Zsum_map_ext _ f); [lia|].
  intros r Hr. apply elem_of_seqZ in Hr.
  destruct (Z.eqb_spec r (ls - 1)); lia.
Qed.

Lemma fused_total_bounds unit ls entries :
  1 <= ls -> 1 <= unit ->
  Forall (fun x => 0 <= x <= INT_MAX) (elements entries) ->
  let n := fused_total unit ls entries in
  Zsum (elements entries) <= n < Zsum (elements entries) + ls * unit
  /\ (1 < Z.of_nat (length entries) -> (ls | n)).
Proof.
  intros Hls Hunit Hpos n. unfold fused_total in n.
  assert (0 <= Zsum (elements entries))
    by (apply Zsum_nonneg; eapply Forall_impl; [exact Hpos|simpl; lia]).
  assert (1 <= ls * unit) by nia.
  destruct (Z.ltb_spec 1 (Z.of_nat (length entries))).
  - destruct (round_up_spec (Zsum (elements entries)) (ls * unit)) as (? & Hd & _);
      [lia|lia|].
    split; [assumption|]. intros _.
    eapply Z.divide_trans; [|exact Hd]. exists unit. lia.
  - subst n. split; [lia|lia].
Qed.

Lemma rank_split unit ctl element_size fused_len entries r :
  IsHomogeneous ctl = true -> entries <> [] ->
  Forall (fun e => output e <> None) entries ->
  1 <= GetLocalSize ctl <= INT_MAX -> 1 <= unit ->
  GetLocalSize ctl * unit <= INT_MAX ->
  Forall (fun x => 0 <= x <= INT_MAX) (elements entries) ->
  Zsum (elements entries) + GetLocalSize ctl * unit <= INT64_MAX ->
  0 <= r < GetLocalSize ctl ->
  let ls := GetLocalSize ctl in
  let n := fused_total unit ls entries in
  let p := n / ls in
  exists s counts,
    NcclHierarchical unit (at_local_rank ctl r) element_size fused_len entries = Some s
    /\ split_num_elements s = n
    /\ num_elements_per_rank s = p
    /\ num_elements_remaining s = n mod ls
    /\ tensor_counts s = Some counts
    /\ forall i e, entries !! i = Some e ->
         counts !! i
         = Some (let a := offset entries i in
                 let b := a + num_elements (tensor e) in
                 in_slice r p a b
                 + (if r =? ls - 1 then in_remainder (ls * p) a b else 0)).
Proof.
  intros Hhom Hne Hout Hls Hunit Hdiv Hpos Hmax Hr ls n p.
  destruct (NcclHierarchical unit (at_local_rank ctl r) element_size fused_len entries)
    as [s|] eqn:Hs.
  2:{ exfalso. unfold NcclHierarchical in Hs.
      destruct entries as [|e0 rest]; [congruence|].
      cbn [at_local_rank GetLocalSize GetLocalRank IsHomogeneous] in Hs.
      rewrite Hhom in Hs.
      assert (exists len,
                 (if 1 <? Z.of_nat (length (e0 :: rest)) then Some fused_len
                  else (fun o => size_t (size_bytes o)) <$> output e0) = Some len)
        as [len Hlen].
      { destruct (1 <? Z.of_nat (length (e0 :: rest))); [eauto|].
        inversion Hout as [|? ? He0 _]; subst.
        destruct (output e0); [eauto|congruence]. }
      rewrite Hlen in Hs. cbn [mbind option_bind] in Hs.
      assert ((fusion_div unit (GetLocalSize ctl) =? 0) = false) as Hd0.
      { apply Z.eqb_neq. unfold fusion_div. rewrite int_id by fits. nia. }
      assert ((GetLocalSize ctl =? 0) = false) as Hl0 by (apply Z.eqb_neq; lia).
      rewrite Hd0, Hl0, !andb_false_r in Hs.
      destruct (true && _) in Hs; discriminate. }
  destruct (NcclHierarchical_fields _ _ _ _ _ _ Hs)
    as (_ & Hn & _ & Hper & Hrem & Hroot & Hisroot & _ & Hcounts).
  cbn [at_local_rank GetLocalSize GetLocalRank IsHomogeneous] in *.
  rewrite Hhom in *. fold ls in Hn, Hper, Hrem, Hroot, Hcounts.
  assert (Forall (fun x => 0 <= x) (elements entries)) as Hpos'
    by (eapply Forall_impl; [exact Hpos|simpl; lia]).
  pose proof (Zsum_nonneg _ Hpos') as Hsum.
  destruct (fused_total_bounds unit ls entries ltac:(lia) Hunit Hpos) as [Hbound _].
  fold n in Hbound.
  assert (split_num_elements s = n) as Hn'.
  { rewrite Hn. unfold n, fused_total. cbn [andb].
    rewrite sum_num_elements_exact by (try assumption; unfold ls in *; lia).
    destruct (1 <? Z.of_nat (length entries)); [|reflexivity].
    apply pad_num_elements_exact; unfold ls in *; nia. }
  rewrite Hn' in *.
  rewrite Z.quot_div_nonneg in Hper by lia. fold p in Hper.
  rewrite Z.rem_mod_nonneg in Hrem by lia.
  rewrite (int_id (ls - 1)) in Hroot by fits.
  assert (0 <= p) by (apply Z.div_pos; lia).
  assert (ls * p <= n) by (apply Z.mul_div_le; lia).
  exists s, (tensor_counts_homogeneous r ls (num_elements_per_rank s)
               (is_root_rank s) 0 entries).
  repeat split; try assumption; [now apply Hcounts|].
  intros i e Hi. rewrite Hper, Hisroot, Hroot.
  rewrite (tensor_counts_homogeneous_lookup r ls p _ 0 entries i e)
    by (try assumption; unfold ls in *; lia).
  cbv zeta. rewrite !Z.add_0_l. f_equal. f_equal.
  unfold in_remainder.
  destruct (r =? ls - 1); cbn [andb]; [|reflexivity].
  destruct (Z.leb_spec (ls * p) (offset entries i + num_elements (tensor e))); lia.
Qed.

(** C1 (amended): on a homogeneous cluster, for a non-empty list of entries
    with output tensors whose element counts each fit an [int] and whose
    padded total fits an [int64_t], and for [1 <= local_size]:
    - every local rank computes the same split: the fused total [n] (the
      sum of the counts, rounded up to a multiple of
      [local_size * FUSION_BUFFER_ATOMIC_UNIT] when several entries are
      fused), [n / local_size] elements per rank and [n mod local_size]
      remaining, which is [0] when several entries are fused;
    - [tensor_counts[i]] of rank [r] is the number of elements of entry
      [i] (which occupies [offset i, offset i + e_i) of the fused tensor)
      inside the slice of rank [r], plus, on the root [local_size - 1],
      those inside the remainder region;
    - summed over the local ranks, [tensor_counts[i]] is exactly [e_i]. *)
Theorem C1_tensor_counts_partition unit ctl element_size fused_len entries :
  IsHomogeneous ctl = true -> entries <> [] ->
  Forall (fun e => output e <> None) entries ->
  1 <= GetLocalSize ctl <= INT_MAX -> 1 <= unit ->
  GetLocalSize ctl * unit <= INT_MAX ->
  Forall (fun x => 0 <= x <= INT_MAX) (elements entries) ->
  Zsum (elements entries) + GetLocalSize ctl * unit <= INT64_MAX ->
  let ls := GetLocalSize ctl in
  let n := fused_total unit ls entries in
  let p := n / ls in
  (Zsum (elements entries) <= n < Zsum (elements entries) + ls * unit
   /\ ((1 < length entries)%nat -> n mod ls = 0))
  /\ (forall r, 0 <= r < ls ->
      exists s counts,
        NcclHierarchical unit (at_local_rank ctl r) element_size fused_len entries
        = Some s
        /\ split_num_elements s = n
        /\ num_elements_per_rank s = p
        /\ num_elements_remaining s = n mod ls
        /\ tensor_counts s = Some counts
        /\ forall i e, entries !! i = Some e ->
             counts !! i
             = Some (let a := offset entries i in
                     let b := a + num_elements (tensor e) in
                     in_slice r p a b
                     + (if r =? ls - 1 then in_remainder (ls * p) a b else 0)))
  /\ (forall i e, entries !! i = Some e ->
      Zsum (map (count_at unit ctl element_size fused_len entries i) (local_ranks ls))
      = num_elements (tensor e)).
Proof.
  intros Hhom Hne Hout Hls Hunit Hdiv Hpos Hmax ls n p.
  destruct (fused_total_bounds unit ls entries ltac:(unfold ls; lia) Hunit Hpos)
    as [Hbound Hdivides]. fold n in Hbound, Hdivides.
  assert (Forall (fun x => 0 <= x) (elements entries)) as Hpos'
    by (eapply Forall_impl; [exact Hpos|simpl; lia]).
  split; [split; [exact Hbound|]|split].
  - intros Hlen. apply Z.mod_divide; [unfold ls; lia|]. apply Hdivides. lia.
  - intros r Hr. now apply rank_split.
  - intros i e Hi.
    set (a := offset entries i). set (b := a + num_elements (tensor e)).
    rewrite (Zsum_map_ext _
               (fun r => in_slice r p a b
                         + (if r =? ls - 1 then in_remainder (ls * p) a b else 0))).
    + rewrite Zsum_root_extra by (unfold ls; lia).
      assert (0 <= a <= Zsum (elements entries)) as Ha
        by (apply Zsum_take_le; assumption).
      assert (0 <= num_elements (tensor e)) as He.
      { rewrite Forall_forall in Hpos'. apply Hpos'.
        apply list_elem_of_lookup. exists i.
        unfold elements. rewrite list_lookup_fmap, Hi. reflexivity. }
      assert (0 <= p) by (apply Z.div_pos; unfold ls; lia).
      pose proof (slices_and_remainder_cover ls p a b ltac:(lia) ltac:(lia)
                    ltac:(unfold ls; lia)) as Hcover.
      unfold in_remainder in *.
      destruct (Z.leb_spec (ls * p) b); lia.
    + intros r Hr. apply elem_of_seqZ in Hr.
      destruct (rank_split unit ctl element_size fused_len entries r
                  Hhom Hne Hout Hls Hunit Hdiv Hpos Hmax ltac:(lia))
        as (s & counts & Hs & _ & _ & _ & Hc & Hcount).
      unfold count_at. rewrite Hs, Hc, (Hcount i e Hi). reflexivity.
Qed.

Lemma C1_tensor_counts_partition_witness :
  Zsum (map (count_at 64 (homogeneous_rank 0 4) 4 24000 three_tensors 1) (local_ranks 4))
  = 2000.
Proof.
  assert (GetLocalSize (homogeneous_rank 0 4) = 4) as Hls by reflexivity.
  refine (proj2 (proj2 (C1_tensor_counts_partition 64 (homogeneous_rank 0 4) 4 24000
                          three_tensors eq_refl _ _ _ _ _ _ _)) 1%nat (entry_of 2000) eq_refl).
  - discriminate.
  - repeat constructor; discriminate.
  - unfold INT_MAX. lia.
  - lia.
  - unfold INT_MAX. lia.
  - unfold INT_MAX. repeat constructor; simpl; lia.
  - unfold INT64_MAX. simpl. lia.
Defined.

(** What the ranks of a four-GPU node compute for tensors of 1000, 2000
    and 3000 elements when the atomic unit is 64 (its value in Horovod's
    common.h): the 6000 elements are padded to 6144, each rank owns 1536
    of them and nothing remains. *)
Example three_tensors_unit_64 :
  map (fun r =>
         option_map (fun s => (split_num_elements s, num_elements_per_rank s,
                               num_elements_remaining s, tensor_counts s))
           (NcclHierarchical 64 (homogeneous_rank r 4) 4 24000 three_tensors))
      [0; 1; 2; 3]
  = [Some (6144, 1536, 0, Some [1000; 536; 0]);
     Some (6144, 1536, 0, Some [0; 1464; 72]);
     Some (6144, 1536, 0, Some [0; 0; 1536]);
     Some (6144, 1536, 0, Some [0; 0; 1392])].
Proof. reflexivity. Qed.

(** The slice is 1500 elements only for an atomic unit that divides 1500. *)
Lemma three_tensors_per_rank unit r :
  1 <= unit -> 4 * unit <= INT_MAX -> 0 <= r < 4 ->
  exists s,
    NcclHierarchical unit (at_local_rank (homogeneous_rank 0 4) r) 4 24000 three_tensors
    = Some s
    /\ (num_elements_per_rank s = 1500 <-> (unit | 1500)).
Proof.
  intros Hunit Hmax Hr.
  destruct (rank_split unit (homogeneous_rank 0 4) 4 24000 three_tensors r)
    as (s & _ & Hs & _ & Hper & _); try reflexivity; try discriminate.
  - repeat constructor; discriminate.
  - unfold INT_MAX; simpl; lia.
  - assumption.
  - simpl; lia.
  - unfold INT_MAX. repeat constructor; simpl; lia.
  - unfold INT_MAX, INT64_MAX in *. simpl. lia.
  - simpl; lia.
  - exists s. split; [exact Hs|]. rewrite Hper.
    change (fused_total unit (GetLocalSize (homogeneous_rank 0 4)) three_tensors)
      with (round_up 6000 (4 * unit)).
    change (GetLocalSize (homogeneous_rank 0 4)) with 4.
    destruct (round_up_spec 6000 (4 * unit)) as (Hrange & [k Hk] & Hleast); [lia|lia|].
    rewrite Hk. replace (k * (4 * unit)) with (k * unit * 4) by lia.
    rewrite Z.div_mul by lia. split.
    + intros H. exists k. lia.
    + intros [j Hj]. specialize (Hleast 6000 ltac:(exists j; lia) ltac:(lia)). lia.
Qed.

(** C1 as stated fails twice.  For the tensors of 1000, 2000 and 3000
    elements on four local ranks the code does not split 6000 elements
    into slices of 1500: with the atomic unit of 64 it pads to 6144 and
    gives each rank 1536.  And an element count that does not fit an [int]
    is lost in [tensor_counts]: for a single tensor of [2^32] elements on
    a node with one rank, the only rank counts 0 elements. *)
Lemma C1_counterexample :
  option_map (fun s => (split_num_elements s, num_elements_per_rank s))
    (NcclHierarchical 64 (homogeneous_rank 0 4) 4 24000 three_tensors)
  = Some (6144, 1536)
  /\ Zsum (map (count_at 64 (homogeneous_rank 0 1) 1 0 [entry_of (2 ^ 32)] 0)
             (local_ranks 1)) = 0
  /\ num_elements (tensor (entry_of (2 ^ 32))) = 4294967296.
Proof. repeat split; reflexivity. Qed.

(** C3 (amended): the capability check of the Adasum operation looks at
    the device of the first entry only.  It answers [true] exactly when
    that device is not the host device, whatever the hierarchical-allreduce
    setting of the parameter manager. *)
Theorem C3_Enabled_by_device_only CPU_DEVICE_ID param_manager first_entry rest response :
  Enabled CPU_DEVICE_ID param_manager (first_entry :: rest) response
  = Some (bool_decide (device first_entry <> CPU_DEVICE_ID)).
Proof.
  cbn [Enabled]. f_equal.
  destruct (Z.eqb_spec (device first_entry) CPU_DEVICE_ID);
    [rewrite bool_decide_eq_false_2|rewrite bool_decide_eq_true_2]; auto.
Qed.

(** C3 as stated fails: with hierarchical allreduce switched off and a
    tensor on GPU 0, [Enabled] answers [true]. *)
Lemma C3_counterexample :
  Enabled (-1) {| HierarchicalAllreduce := false; HierarchicalAllgather := false |}
    [entry_of 1] (mkResponse ALLREDUCE ["t"%string] [0])
  = Some true
  /\ device (entry_of 1) <> -1
  /\ HierarchicalAllreduce
       {| HierarchicalAllreduce := false; HierarchicalAllgather := false |} = false.
Proof. repeat split; [discriminate]. Qed.

End AdasumFacts.

(** ** operations.cc: enqueue, lifecycle queries, shutdown *)

Module OperationsFacts.
Import Operations OperationsExamples.

Lemma add_shape_tensor_name t m :
  Request.tensor_name (add_shape t m) = Request.tensor_name m.
Proof.
  unfold add_shape. revert m.
  induction (dims t) as [|d ds IH]; intros m; simpl; [reflexivity|].
  rewrite IH. reflexivity.
Qed.

Lemma emplace_fresh name e (tt : gmap string TensorTableEntry) :
  tt !! name = None -> emplace name e tt = <[name := e]> tt.
Proof. intros H. unfold emplace. now rewrite H. Qed.

Lemma enqueue_locked_cases g name e message :
  (shut_down g = true -> enqueue_locked g name e message = (SHUT_DOWN_ERROR, g))
  /\ (shut_down g = false -> is_Some (tensor_table g !! name) ->
      enqueue_locked g name e message = (DUPLICATE_NAME_ERROR, g))
  /\ (shut_down g = false -> tensor_table g !! name = None ->
      enqueue_locked g name e message
      = (Status_OK,
         with_tables g (<[name := e]> (tensor_table g)) (message_queue g ++ [message]))).
Proof.
  unfold enqueue_locked. repeat split; intros Hs.
  - now rewrite Hs.
  - intros Hdup. rewrite Hs. now rewrite decide_True.
  - intros Hfresh. rewrite Hs, decide_False, emplace_fresh; try done.
    rewrite Hfresh. now intros [? ?].
Qed.

(** C2: the three enqueue functions.  Once the controller exists: after
    shutdown the call returns [SHUT_DOWN_ERROR] and changes nothing; else,
    if the name has an outstanding entry, it returns [DUPLICATE_NAME_ERROR]
    and changes nothing; else it returns OK, the tensor table gains exactly
    one entry, stored under the name, and the message queue exactly one
    request, pushed at its end. *)
Theorem C2_enqueue_outcomes g ctl context tensor output root ready name device cb result :
  controller g = Some ctl ->
  result = EnqueueTensorAllreduce g context tensor output ready name device cb
  \/ result = EnqueueTensorAllgather g context tensor ready name device cb
  \/ result = EnqueueTensorBroadcast g context tensor output root ready name device cb ->
  exists status g',
    result = Some (status, g')
    /\ (shut_down g = true -> status = SHUT_DOWN_ERROR /\ g' = g)
    /\ (shut_down g = false -> is_Some (tensor_table g !! name) ->
        status = DUPLICATE_NAME_ERROR /\ g' = g)
    /\ (shut_down g = false -> tensor_table g !! name = None ->
        status = Status_OK
        /\ exists e message,
             tensor_table g' = <[name := e]> (tensor_table g)
             /\ size (tensor_table g') = S (size (tensor_table g))
             /\ (forall other, other <> name ->
                 tensor_table g' !! other = tensor_table g !! other)
             /\ tensor_name e = name /\ callback e = cb
             /\ message_queue g' = message_queue g ++ [message]
             /\ Request.tensor_name message = name
             /\ shut_down g' = false).
Proof.
  intros Hctl Hcall.
  assert (exists e message,
             result = Some (enqueue_locked g name e message)
             /\ tensor_name e = name /\ callback e = cb
             /\ Request.tensor_name message = name)
    as (e & message & -> & Hname & Hcb & Hmsg).
  { destruct Hcall as [-> | [-> | ->]];
      unfold EnqueueTensorAllreduce, EnqueueTensorAllgather, EnqueueTensorBroadcast;
      rewrite Hctl; cbn [mbind option_bind];
      eexists _, _; (split; [reflexivity|]);
      rewrite add_shape_tensor_name; repeat split. }
  destruct (enqueue_locked_cases g name e message) as (Hdown & Hdup & Hnew).
  destruct (enqueue_locked g name e message) as [status g'] eqn:Hres.
  exists status, g'. split; [reflexivity|]. repeat split.
  - specialize (Hdown H). congruence.
  - specialize (Hdown H). congruence.
  - specialize (Hdup H H0). congruence.
  - specialize (Hdup H H0). congruence.
  - specialize (Hnew H H0). congruence.
  - specialize (Hnew H H0). injection Hnew as -> ->.
    exists e, message. cbn [with_tables tensor_table message_queue shut_down].
    repeat split; try assumption.
    + now apply map_size_insert_None.
    + intros other Hother. now apply lookup_insert_ne.
Qed.

Lemma C2_enqueue_outcomes_witness :
  exists status g',
    EnqueueTensorAllgather running 0 some_tensor None "c" 0 9%nat = Some (status, g')
    /\ status = Status_OK
    /\ size (tensor_table g') = S (size (tensor_table running))
    /\ length (message_queue g') = S (length (message_queue running)).
Proof.
  destruct (C2_enqueue_outcomes running rank0 0 some_tensor None 0 None "c" 0 9%nat
              (EnqueueTensorAllgather running 0 some_tensor None "c" 0 9%nat)
              eq_refl (or_intror (or_introl eq_refl)))
    as (status & g' & Hres & _ & _ & Hnew).
  exists status, g'. split; [exact Hres|].
  destruct (Hnew eq_refl eq_refl) as (Hok & e & message & _ & Hsize & _ & _ & _ & Hq & _).
  repeat split; try assumption.
  rewrite Hq, length_app. simpl. lia.
Defined.

(** C9: the lifecycle queries.  Before initialisation has completed each
    query answers -1; afterwards it answers the controller's rank, local
    rank, size and local size, and 1 or 0 for whether the MPI controller
    supports threads. *)
Theorem C9_lifecycle_queries g :
  (initialization_done g = false ->
   horovod_rank g = Some (-1) /\ horovod_local_rank g = Some (-1)
   /\ horovod_size g = Some (-1) /\ horovod_local_size g = Some (-1)
   /\ horovod_mpi_threads_supported g = Some (-1))
  /\ (forall ctl, initialization_done g = true -> controller g = Some ctl ->
      horovod_rank g = Some (GetRank ctl)
      /\ horovod_local_rank g = Some (GetLocalRank ctl)
      /\ horovod_size g = Some (GetSize ctl)
      /\ horovod_local_size g = Some (GetLocalSize ctl)
      /\ horovod_mpi_threads_supported g
         = Some (if IsMpiThreadsSupported ctl then 1 else 0)).
Proof.
  unfold horovod_rank, horovod_local_rank, horovod_size, horovod_local_size,
    horovod_mpi_threads_supported.
  split.
  - intros ->. repeat split.
  - intros ctl -> ->. repeat split.
Qed.

Lemma C9_lifecycle_queries_witness :
  (horovod_rank not_started = Some (-1) /\ horovod_size not_started = Some (-1))
  /\ (horovod_rank running = Some 0 /\ horovod_size running = Some 2
      /\ horovod_mpi_threads_supported running = Some 1).
Proof.
  split.
  - destruct (proj1 (C9_lifecycle_queries not_started) eq_refl) as (H1 & _ & H3 & _).
    split; assumption.
  - destruct (proj2 (C9_lifecycle_queries running) rank0 eq_refl eq_refl)
      as (H1 & _ & H3 & _ & H5).
    repeat split; assumption.
Defined.

Lemma pop_all_empty q : pop_all q = [].
Proof. induction q as [|m q IH]; simpl; auto. Qed.

(** The shutdown sequence of [Operations] is the one that visits the
    entries in the order of [map_to_list]. *)
Lemma shutdown_visiting_map_to_list state :
  BackgroundThreadLoop_shutdown state
  = ShutdownOrder.BackgroundThreadLoop_shutdown_visiting
      (map_to_list (tensor_table state)) state.
Proof. reflexivity. Qed.

Lemma callbacks_of_invocations (cbs : list StatusCallback) status :
  callbacks_of (map (fun cb => CallbackInvoked cb status) cbs)
  = map (fun cb => (cb, status)) cbs.
Proof. induction cbs as [|cb cbs IH]; simpl; [reflexivity|]. now rewrite IH. Qed.

(** C6: the shutdown sequence at the end of the background loop.  In
    whatever order the loop over the tensor table visits the outstanding
    entries, each entry is visited once; the callbacks invoked are those
    of the visited entries, one invocation per entry of the tensor table
    and nothing else, each with the shutdown error; afterwards the tensor
    table and the message queue are empty. *)
Theorem C6_shutdown_fails_outstanding state order :
  ShutdownOrder.visits order (tensor_table state) ->
  let state' := fst (ShutdownOrder.BackgroundThreadLoop_shutdown_visiting order state) in
  let trace := snd (ShutdownOrder.BackgroundThreadLoop_shutdown_visiting order state) in
  trace = map (fun entry => CallbackInvoked (callback (snd entry)) SHUT_DOWN_ERROR) order
  /\ NoDup (map fst order)
  /\ (forall name e, (name, e) ∈ order <-> tensor_table state !! name = Some e)
  /\ length trace = size (tensor_table state)
  /\ callbacks_of trace
     = map (fun entry => (callback (snd entry), SHUT_DOWN_ERROR)) order
  /\ callbacks_of trace
     ≡ₚ map (fun entry => (callback (snd entry), SHUT_DOWN_ERROR))
          (map_to_list (tensor_table state))
  /\ tensor_table state' = ∅
  /\ message_queue state' = []
  /\ shut_down state' = true.
Proof.
  unfold ShutdownOrder.visits. intros Hvisits.
  cbn [ShutdownOrder.BackgroundThreadLoop_shutdown_visiting fst snd with_tables
         with_shut_down tensor_table message_queue shut_down].
  assert (callbacks_of
            (map (fun cb => CallbackInvoked cb SHUT_DOWN_ERROR)
               (map (fun e : string * TensorTableEntry => callback (snd e)) order))
          = map (fun entry : string * TensorTableEntry =>
                   (callback (snd entry), SHUT_DOWN_ERROR)) order) as Hcallbacks
    by (rewrite callbacks_of_invocations, map_map; reflexivity).
  split; [now rewrite map_map|].
  split; [|split; [|split; [|split; [|split; [|split; [|split]]]]]].
  - assert (map fst order ≡ₚ map fst (map_to_list (tensor_table state))) as Hnames
      by (apply Permutation_map; exact Hvisits).
    rewrite Hnames. apply NoDup_fst_map_to_list.
  - intros name e. rewrite <- elem_of_map_to_list.
    split; intros Hin.
    + eapply elem_of_Permutation_proper; [symmetry; exact Hvisits|exact Hin].
    + eapply elem_of_Permutation_proper; [exact Hvisits|exact Hin].
  - rewrite !length_map, <- length_map_to_list. now apply Permutation_length.
  - exact Hcallbacks.
  - rewrite Hcallbacks. now apply Permutation_map.
  - reflexivity.
  - apply pop_all_empty.
  - reflexivity.
Qed.

Lemma C6_shutdown_fails_outstanding_witness :
  callbacks_of
    (snd (ShutdownOrder.BackgroundThreadLoop_shutdown_visiting
            [("b", entry_b); ("a", entry_a)] running))
  = [(8%nat, SHUT_DOWN_ERROR); (7%nat, SHUT_DOWN_ERROR)]
  /\ tensor_table
       (fst (ShutdownOrder.BackgroundThreadLoop_shutdown_visiting
               [("b", entry_b); ("a", entry_a)] running)) = ∅.
Proof.
  assert (ShutdownOrder.visits [("b", entry_b); ("a", entry_a)] (tensor_table running))
    as Hvisits.
  { unfold ShutdownOrder.visits. vm_compute. apply perm_swap. }
  destruct (C6_shutdown_fails_outstanding running [("b", entry_b); ("a", entry_a)]
              Hvisits) as (_ & _ & _ & _ & Hcallbacks & _ & Htable & _).
  split; [exact Hcallbacks|exact Htable].
Defined.

End OperationsFacts.

(** ** operations.cc: [PerformOperation] *)

Module PerformOperationFacts.
Import Operations OperationsExamples.

Lemma callbacks_of_app t1 t2 : callbacks_of (t1 ++ t2) = callbacks_of t1 ++ callbacks_of t2.
Proof. unfold callbacks_of. apply flat_map_app. Qed.

Lemma callbacks_of_none t :
  Forall (fun ev => is_callback ev = false) t -> callbacks_of t = [].
Proof.
  induction 1 as [|ev t Hev _ IH]; [reflexivity|].
  simpl. rewrite IH. now destruct ev.
Qed.

Lemma callbacks_of_complete entries out_of status :
  callbacks_of (complete entries out_of status)
  = map (fun e => (callback e, status)) entries.
Proof. induction entries as [|e es IH]; simpl; [reflexivity|]. now rewrite IH. Qed.

Lemma complete_no_execute_no_poll entries out_of status :
  Forall (fun ev => is_execute ev = false /\ is_poll ev = false)
         (complete entries out_of status).
Proof. induction entries as [|e es IH]; simpl; repeat constructor; assumption. Qed.

Lemma timeline_start_bookkeeping entries t :
  Forall bookkeeping (map (fun e => TimelineStart (tensor_name e) t) entries).
Proof. induction entries; simpl; repeat constructor; assumption. Qed.

Lemma end_waiting_bookkeeping entries : Forall bookkeeping (end_waiting entries).
Proof.
  induction entries as [|e es IH]; simpl; [constructor|].
  destruct (ready_event e); simpl; repeat constructor; assumption.
Qed.

Lemma waiting_for_spec entries :
  (forall e ev, (e, ev) ∈ fst (waiting_for entries)
                <-> e ∈ entries /\ ready_event e = Some ev)
  /\ Forall bookkeeping (snd (waiting_for entries)).
Proof.
  induction entries as [|e0 es [IH1 IH2]]; simpl.
  - split; [|constructor]. intros e ev. split; [inversion 1|intros [H _]; inversion H].
  - destruct (waiting_for es) as [ws t] eqn:Hw. simpl in IH1, IH2.
    destruct (ready_event e0) as [ev0|] eqn:Hev0; simpl.
    + split; [|repeat constructor; assumption].
      intros e ev. rewrite elem_of_cons, IH1, elem_of_cons. split.
      * intros [[= -> ->]|[? ?]]; auto.
      * intros [[->|?] Hev]; [left; congruence|right; auto].
    + split; [|assumption].
      intros e ev. rewrite IH1, elem_of_cons. split.
      * intros [? ?]; auto.
      * intros [[->|?] Hev]; [congruence|auto].
Qed.

Section Oracles.

Context {World : Type}.
Variable Ready : World -> ReadyEvent -> bool * World.
Variable sleep_for : World -> Z -> World.
Variable InitializeBuffer : World -> Z -> Z -> Status * World.
Variable ExecuteOperation :
  World -> list TensorTableEntry -> Response -> ExecResult * World.

Lemma initialize_fusion_buffer_bookkeeping w entries st w1 t_init :
  initialize_fusion_buffer InitializeBuffer w entries = (st, w1, t_init) ->
  Forall bookkeeping t_init.
Proof.
  unfold initialize_fusion_buffer.
  destruct entries as [|e1 [|e2 es]]; try (intros [= <- <- <-]; constructor).
  destruct (InitializeBuffer w (device e1) (context e1)) as [status w'].
  intros [= <- <- <-]. repeat constructor.
Qed.

(** One sweep: an entry is still waiting afterwards or was seen ready, and
    every recorded poll is an answer of the oracle for the event of a
    waiting entry. *)
Lemma poll_all_spec waiting : forall w still w' t,
  poll_all Ready w waiting = (still, w', t) ->
  (forall x, x ∈ waiting -> x ∈ still \/ ReadyPolled (fst x) true ∈ t)
  /\ (forall x, x ∈ still -> x ∈ waiting)
  /\ (forall e b, ReadyPolled e b ∈ t ->
      exists ev w0, (e, ev) ∈ waiting /\ fst (Ready w0 ev) = b)
  /\ Forall (fun ev => is_execute ev = false /\ is_callback ev = false) t.
Proof.
  induction waiting as [|[e ev] rest IH]; intros w still w' t; simpl.
  - intros [= <- <- <-]. repeat split; try constructor; intros; inversion H.
  - destruct (Ready w ev) as [ready w1] eqn:Hready.
    destruct (poll_all Ready w1 rest) as [[still0 w2] t0] eqn:Hrest.
    destruct (IH _ _ _ _ Hrest) as (Hseen & Hsub & Horigin & Hquiet).
    destruct ready; intros [= <- <- <-]; repeat split.
    + intros x [->|Hx]%elem_of_cons; [right; left|].
      destruct (Hseen x Hx); [left|right; do 3 right]; assumption.
    + intros x Hx. right. auto.
    + intros e' b [[= -> ->]|H]%elem_of_cons.
      * exists ev, w. rewrite Hready. split; [left|reflexivity].
      * do 2 apply elem_of_cons in H as [[=]|H].
        destruct (Horigin e' b H) as (ev' & w0 & ? & ?).
        exists ev', w0. split; [right|]; assumption.
    + repeat constructor. assumption.
    + intros x [->|Hx]%elem_of_cons; [left; left|].
      destruct (Hseen x Hx); [left; right|right; right]; assumption.
    + intros x [->|Hx]%elem_of_cons; [left|right; auto].
    + intros e' b [[= -> ->]|H]%elem_of_cons.
      * exists ev, w. rewrite Hready. split; [left|reflexivity].
      * destruct (Horigin e' b H) as (ev' & w0 & ? & ?).
        exists ev', w0. split; [right|]; assumption.
    + repeat constructor. assumption.
Qed.

(** The polling loop ends only when every waiting entry was seen ready. *)
Lemma wait_loop_spec fuel : forall w waiting w' t,
  wait_loop Ready sleep_for fuel w waiting = Some (w', t) ->
  (forall x, x ∈ waiting -> ReadyPolled (fst x) true ∈ t)
  /\ (forall e b, ReadyPolled e b ∈ t ->
      exists ev w0, (e, ev) ∈ waiting /\ fst (Ready w0 ev) = b)
  /\ Forall (fun ev => is_execute ev = false /\ is_callback ev = false) t.
Proof.
  induction fuel as [|fuel IH]; intros w waiting w' t; simpl.
  - destruct waiting; [|discriminate]. intros [= <- <-].
    repeat split; try constructor; intros; inversion H.
  - destruct waiting as [|x0 rest].
    { intros [= <- <-]. repeat split; try constructor; intros; inversion H. }
    destruct (poll_all Ready w (x0 :: rest)) as [[still w1] t1] eqn:Hpoll.
    destruct (wait_loop Ready sleep_for fuel (sleep_for w1 100) still)
      as [[w2 t2]|] eqn:Hloop; [|discriminate].
    intros [= <- <-].
    destruct (poll_all_spec _ _ _ _ _ Hpoll) as (Hseen & Hsub & Horigin & Hquiet).
    destruct (IH _ _ _ _ Hloop) as (Hseen' & Horigin' & Hquiet').
    repeat split.
    + intros x Hx. apply elem_of_app.
      destruct (Hseen x Hx) as [Hstill|Hnow]; [right; right; auto|left; assumption].
    + intros e b [H|[[=]|H]%elem_of_cons]%elem_of_app.
      * apply Horigin; assumption.
      * destruct (Horigin' e b H) as (ev & w0 & Hin & ?).
        exists ev, w0. split; [apply Hsub|]; assumption.
    + apply Forall_app. split; [assumption|]. constructor; [split; reflexivity|assumption].
Qed.

(** More fuel never changes the result of the polling loop. *)
Lemma wait_loop_more_fuel fuel : forall extra w waiting r,
  wait_loop Ready sleep_for fuel w waiting = Some r ->
  wait_loop Ready sleep_for (fuel + extra) w waiting = Some r.
Proof.
  induction fuel as [|fuel IH]; intros extra w waiting r.
  - destruct waiting; [|discriminate]. simpl. destruct extra; auto.
  - simpl. destruct waiting as [|x rest]; [auto|].
    destruct (poll_all Ready w (x :: rest)) as [[still w1] t1].
    destruct (wait_loop Ready sleep_for fuel (sleep_for w1 100) still) as [[w2 t2]|] eqn:H;
      [|discriminate].
    rewrite (IH extra _ _ _ H). auto.
Qed.

(** There is one place for the execution in a trace. *)
Lemma split_at_execute (l1 : list Event) : forall l2 l1' l2' x x',
  Forall (fun ev => is_execute ev = false) l1 ->
  Forall (fun ev => is_execute ev = false) l2 ->
  is_execute x' = true ->
  l1 ++ x :: l2 = l1' ++ x' :: l2' ->
  l1' = l1 /\ x' = x /\ l2' = l2.
Proof.
  induction l1 as [|a l1 IH]; intros l2 l1' l2' x x' H1 H2 Hx' Heq.
  - destruct l1' as [|y l1']; simpl in Heq.
    + injection Heq as -> ->. auto.
    + injection Heq as -> ->. exfalso.
      rewrite Forall_forall in H2.
      specialize (H2 x'). rewrite H2 in Hx'; [discriminate|].
      apply elem_of_app. right. left.
  - inversion H1 as [|? ? Ha H1']; subst.
    destruct l1' as [|y l1']; simpl in Heq.
    + injection Heq as -> _. congruence.
    + injection Heq as -> Heq.
      destruct (IH _ _ _ _ _ H1' H2 Hx' Heq) as (-> & -> & ->). auto.
Qed.

(** The shape of a run that returns: either the fusion buffer could not be
    set up and every entry is told so, or the polling loop finished and the
    operation was executed. *)
Lemma PerformOperation_returned fuel w tt response tt' w' trace :
  PerformOperation Ready sleep_for InitializeBuffer ExecuteOperation fuel w tt response
  = Returned (tt', w', trace) ->
  exists entries st w1 t_init,
    take_entries (tensor_names response) tt = Some (entries, tt')
    /\ initialize_fusion_buffer InitializeBuffer w entries = (st, w1, t_init)
    /\ let t_start :=
         map (fun e => TimelineStart (tensor_name e) (response_type response)) entries in
       (ok st = false /\ w' = w1
        /\ trace = t_start ++ t_init ++ complete entries (fun _ => None) st)
       \/ (ok st = true
           /\ exists w2 t_poll result status,
                wait_loop Ready sleep_for fuel w1 (fst (waiting_for entries))
                = Some (w2, t_poll)
                /\ ExecuteOperation w2 entries response = (result, w')
                /\ status = match result with
                            | Finished status => status
                            | Threw what => Status_UnknownError what
                            end
                /\ trace
                   = (t_start ++ t_init ++ snd (waiting_for entries) ++ t_poll
                        ++ end_waiting entries)
                     ++ ExecuteOperationCalled entries response result
                     :: (if in_progress status then []
                         else complete entries
                                (fun e => if ok status then output e else None) status)).
Proof.
  unfold PerformOperation.
  destruct (take_entries (tensor_names response) tt) as [[entries tt1]|] eqn:Htake;
    [|discriminate].
  destruct (initialize_fusion_buffer InitializeBuffer w entries) as [[st w1] t_init]
    eqn:Hinit.
  destruct (ok st) eqn:Hok; cbn [negb].
  - destruct (waiting_for entries) as [waiting t_wait] eqn:Hwaiting.
    destruct (wait_loop Ready sleep_for fuel w1 waiting) as [[w2 t_poll]|] eqn:Hloop;
      [|discriminate].
    unfold execute_catching.
    destruct (ExecuteOperation w2 entries response) as [result w3] eqn:Hexec.
    intros [= <- <- <-].
    exists entries, st, w1, t_init.
    split; [first [assumption|reflexivity]|split; [first [assumption|reflexivity]|]].
    cbv zeta.
    right. split; [assumption|].
    exists w2, t_poll, result,
      (match result with
       | Finished status => status
       | Threw what => Status_UnknownError what
       end).
    rewrite Hwaiting. cbn [fst snd].
    repeat split; try assumption; try reflexivity.
    rewrite <- !app_assoc. reflexivity.
  - intros [= <- <- <-]. exists entries, st, w1, t_init.
    split; [first [assumption|reflexivity]|split; [first [assumption|reflexivity]|]].
    cbv zeta. left. auto.
Qed.

(** C7: the execution call comes after the readiness of every event.  In a
    run that returns, whatever precedes the call of [ExecuteOperation]
    contains, for every entry of the response that has a ready event, a
    poll of that entry answered [true] by [Ready]; only entries with a
    ready event are ever polled; and the call happens once. *)
Theorem C7_execute_only_after_ready
    fuel w tt response tt' w' trace before entries response' result after :
  PerformOperation Ready sleep_for InitializeBuffer ExecuteOperation fuel w tt response
  = Returned (tt', w', trace) ->
  trace = before ++ ExecuteOperationCalled entries response' result :: after ->
  take_entries (tensor_names response) tt = Some (entries, tt')
  /\ (forall e ev, e ∈ entries -> ready_event e = Some ev ->
      ReadyPolled e true ∈ before /\ exists w0, fst (Ready w0 ev) = true)
  /\ (forall e b, ReadyPolled e b ∈ trace -> e ∈ entries /\ ready_event e <> None)
  /\ (forall e b, e ∈ entries -> ready_event e = None -> ReadyPolled e b ∉ trace)
  /\ Forall (fun ev => is_execute ev = false) (before ++ after).
Proof.
  intros Hrun Hsplit.
  destruct (PerformOperation_returned _ _ _ _ _ _ _ Hrun)
    as (entries0 & st & w1 & t_init & Htake & Hinit & Hshape).
  pose proof (timeline_start_bookkeeping entries0 (response_type response)) as Hstart.
  pose proof (initialize_fusion_buffer_bookkeeping _ _ _ _ _ Hinit) as Hinit'.
  destruct (waiting_for_spec entries0) as [Hwaiting Hwait].
  pose proof (end_waiting_bookkeeping entries0) as Hend.
  cbv zeta in Hshape. destruct Hshape as [(_ & _ & Htrace)|(_ & Hexec)].
  { (* no execution in a run that stops at the fusion buffer *)
    exfalso.
    assert (Forall (fun ev => is_execute ev = false) trace) as Hnone.
    { rewrite Htrace. rewrite !Forall_app. repeat split.
      - eapply Forall_impl; [exact Hstart|]. intros ev H; apply H.
      - eapply Forall_impl; [exact Hinit'|]. intros ev H; apply H.
      - eapply Forall_impl; [apply complete_no_execute_no_poll|]. intros ev H; apply H. }
    rewrite Hsplit, Forall_app, Forall_cons in Hnone.
    destruct Hnone as (_ & Hx & _). discriminate. }
  destruct Hexec as (w2 & t_poll & result0 & status & Hloop & _ & _ & Htrace).
  destruct (wait_loop_spec _ _ _ _ _ Hloop) as (Hseen & Horigin & Hquiet).
  set (pre := map (fun e => TimelineStart (tensor_name e) (response_type response)) entries0
                ++ t_init ++ snd (waiting_for entries0) ++ t_poll ++ end_waiting entries0)
    in Htrace.
  set (post := if in_progress status then []
               else complete entries0 (fun e => if ok status then output e else None)
                      status) in Htrace.
  assert (Forall (fun ev => is_execute ev = false) pre) as Hpre.
  { unfold pre. rewrite !Forall_app. repeat split.
    - eapply Forall_impl; [exact Hstart|]. intros ev H; apply H.
    - eapply Forall_impl; [exact Hinit'|]. intros ev H; apply H.
    - eapply Forall_impl; [exact Hwait|]. intros ev H; apply H.
    - eapply Forall_impl; [exact Hquiet|]. intros ev H; apply H.
    - eapply Forall_impl; [exact Hend|]. intros ev H; apply H. }
  assert (Forall (fun ev => is_execute ev = false /\ is_poll ev = false) post) as Hpost.
  { unfold post. destruct (in_progress status); [constructor|].
    apply complete_no_execute_no_poll. }
  assert (Forall (fun ev => is_execute ev = false) post) as Hpost'
    by (eapply Forall_impl; [exact Hpost|]; intros ev H; apply H).
  rewrite Hsplit in Htrace. symmetry in Htrace.
  destruct (split_at_execute pre post before after
              (ExecuteOperationCalled entries0 response result0)
              (ExecuteOperationCalled entries response' result)
              Hpre Hpost' eq_refl Htrace) as (-> & Hx & ->).
  injection Hx as -> -> ->.
  assert (forall e b, ReadyPolled e b ∈ trace -> e ∈ entries0 /\ ready_event e <> None)
    as Hpolled.
  { intros e b. rewrite Hsplit. unfold pre.
    intros Hin. repeat (apply elem_of_app in Hin as [Hin|Hin]).
    - rewrite Forall_forall in Hstart. destruct (Hstart _ Hin) as [? _]. discriminate.
    - rewrite Forall_forall in Hinit'. destruct (Hinit' _ Hin) as [? _]. discriminate.
    - rewrite Forall_forall in Hwait. destruct (Hwait _ Hin) as [? _]. discriminate.
    - destruct (Horigin e b Hin) as (ev & w0 & Hw & _).
      apply Hwaiting in Hw as [? ?]. split; [assumption|congruence].
    - rewrite Forall_forall in Hend. destruct (Hend _ Hin) as [? _]. discriminate.
    - apply elem_of_cons in Hin as [[=]|Hin].
      rewrite Forall_forall in Hpost. destruct (Hpost _ Hin) as [_ ?]. discriminate. }
  repeat split.
  - assumption.
  - unfold pre. rewrite !elem_of_app. do 3 right. left.
    apply (Hseen (e, ev)). apply Hwaiting. auto.
  - assert (ReadyPolled e true ∈ t_poll) as Hin
      by (apply (Hseen (e, ev)); apply Hwaiting; auto).
    destruct (Horigin e true Hin) as (ev' & w0 & Hw & Hready).
    apply Hwaiting in Hw as [_ Hev']. exists w0. congruence.
  - apply (Hpolled e b H).
  - apply (Hpolled e b H).
  - intros e b He Hnone Hin. destruct (Hpolled e b Hin) as [_ ?]. congruence.
  - apply Forall_app. split; assumption.
Qed.

(** An entry whose event never becomes ready keeps the operation from being
    executed, however long the loop runs. *)
Corollary never_ready_never_executed fuel w tt response entries tt1 e ev :
  take_entries (tensor_names response) tt = Some (entries, tt1) ->
  e ∈ entries -> ready_event e = Some ev ->
  (forall w0, fst (Ready w0 ev) = false) ->
  match PerformOperation Ready sleep_for InitializeBuffer ExecuteOperation fuel w tt
          response with
  | Returned (_, _, trace) => Forall (fun ev => is_execute ev = false) trace
  | AssertionFailed => False
  | StillWaiting => True
  end.
Proof.
  intros Htake He Hev Hnever.
  destruct (PerformOperation Ready sleep_for InitializeBuffer ExecuteOperation fuel w tt
              response) as [[[tt' w'] trace]| |] eqn:Hrun; [| |exact I].
  - destruct (PerformOperation_returned _ _ _ _ _ _ _ Hrun)
      as (entries0 & st & w1 & t_init & Htake' & Hinit & Hshape).
    rewrite Htake in Htake'. injection Htake' as <- <-.
    cbv zeta in Hshape. destruct Hshape as [(_ & _ & ->)|(_ & Hexec)].
    + pose proof (timeline_start_bookkeeping entries (response_type response)) as Hstart.
      pose proof (initialize_fusion_buffer_bookkeeping _ _ _ _ _ Hinit) as Hinit'.
      rewrite !Forall_app. repeat split.
      * eapply Forall_impl; [exact Hstart|]. intros x H; apply H.
      * eapply Forall_impl; [exact Hinit'|]. intros x H; apply H.
      * eapply Forall_impl; [apply complete_no_execute_no_poll|]. intros x H; apply H.
    + exfalso. destruct Hexec as (w2 & t_poll & _ & _ & Hloop & _).
      destruct (wait_loop_spec _ _ _ _ _ Hloop) as (Hseen & Horigin & _).
      destruct (waiting_for_spec entries) as [Hwaiting _].
      assert ((e, ev) ∈ fst (waiting_for entries)) as Hw by (apply Hwaiting; auto).
      destruct (Horigin e true (Hseen _ Hw)) as (ev' & w0 & Hw' & Hready).
      apply Hwaiting in Hw' as [_ Hev']. rewrite Hev in Hev'. injection Hev' as <-.
      rewrite Hnever in Hready. discriminate.
  - unfold PerformOperation in Hrun. rewrite Htake in Hrun.
    destruct (initialize_fusion_buffer InitializeBuffer w entries) as [[st w1] t_init].
    destruct (negb (ok st)); [discriminate|].
    destruct (waiting_for entries) as [waiting t_wait].
    destruct (wait_loop Ready sleep_for fuel w1 waiting) as [[w2 t_poll]|];
      [|discriminate].
    destruct (execute_catching ExecuteOperation w2 entries response) as [[? ?] ?].
    discriminate.
Qed.

(** C8: an exception of the execution path becomes an [UnknownError]
    status.  When the execution is reached (the entries are in the table,
    the fusion buffer is available, the polling loop has finished) and
    [ExecuteOperation] throws an exception with message [what], then
    [PerformOperation] returns normally and, after the call, invokes the
    callback of every entry, in order, with [UnknownError what]; no
    callback is invoked before the call. *)
Theorem C8_exception_becomes_unknown_error
    fuel w tt response entries tt1 st w1 t_init w2 t_poll what w3 :
  take_entries (tensor_names response) tt = Some (entries, tt1) ->
  initialize_fusion_buffer InitializeBuffer w entries = (st, w1, t_init) ->
  ok st = true ->
  wait_loop Ready sleep_for fuel w1 (fst (waiting_for entries)) = Some (w2, t_poll) ->
  ExecuteOperation w2 entries response = (Threw what, w3) ->
  exists t_before,
    PerformOperation Ready sleep_for InitializeBuffer ExecuteOperation fuel w tt response
    = Returned (tt1, w3,
                t_before
                  ++ ExecuteOperationCalled entries response (Threw what)
                  :: complete entries (fun _ => None) (Status_UnknownError what))
    /\ Forall (fun ev => is_execute ev = false) t_before
    /\ callbacks_of t_before = []
    /\ callbacks_of (complete entries (fun _ => None) (Status_UnknownError what))
       = map (fun e => (callback e, Status_UnknownError what)) entries
    /\ status_type (Status_UnknownError what) = UNKNOWN_ERROR
    /\ reason (Status_UnknownError what) = what.
Proof.
  intros Htake Hinit Hok Hloop Hexec.
  pose proof (timeline_start_bookkeeping entries (response_type response)) as Hstart.
  pose proof (initialize_fusion_buffer_bookkeeping _ _ _ _ _ Hinit) as Hinit'.
  destruct (waiting_for_spec entries) as [_ Hwait].
  pose proof (end_waiting_bookkeeping entries) as Hend.
  destruct (wait_loop_spec _ _ _ _ _ Hloop) as (_ & _ & Hquiet).
  exists (map (fun e => TimelineStart (tensor_name e) (response_type response)) entries
            ++ t_init ++ snd (waiting_for entries) ++ t_poll ++ end_waiting entries).
  repeat split.
  - unfold PerformOperation. rewrite Htake, Hinit, Hok. cbn [negb].
    destruct (waiting_for entries) as [waiting t_wait]. cbn [fst snd] in *.
    rewrite Hloop. unfold execute_catching. rewrite Hexec.
    cbn [in_progress ok Status_UnknownError status_type].
    rewrite <- !app_assoc. reflexivity.
  - rewrite !Forall_app. repeat split;
      (eapply Forall_impl; [eassumption|]; intros ev H; apply H).
  - apply callbacks_of_none. rewrite !Forall_app. repeat split;
      (eapply Forall_impl; [eassumption|]; intros ev H; apply H).
  - apply callbacks_of_complete.
Qed.

End Oracles.

(** With events that become ready as the clock advances, the polling loop
    ends once the fuel covers the latest event. *)
Lemma wait_loop_clock_returns fuel : forall (w : nat) waiting,
  Forall (fun x : TensorTableEntry * ReadyEvent => (snd x < w + fuel)%nat) waiting ->
  waiting = [] \/ (0 < fuel)%nat ->
  exists r, wait_loop clock_ready clock_sleep fuel w waiting = Some r.
Proof.
  induction fuel as [|fuel IH]; intros w waiting Hdue Hfuel.
  - destruct Hfuel as [-> | ?]; [simpl; eauto|lia].
  - destruct waiting as [|x rest]; [simpl; eauto|].
    cbn [wait_loop].
    destruct (poll_all clock_ready w (x :: rest)) as [[still w1] t1] eqn:Hpoll.
    assert (w1 = w /\ Forall (fun y : TensorTableEntry * ReadyEvent =>
                                (w < snd y < w + S fuel)%nat) still) as [-> Hstill].
    { clear -Hpoll Hdue. revert still w1 t1 Hpoll.
      induction Hdue as [|[e ev] l Hev Hl IHl]; intros still w1 t1; simpl.
      - intros [= <- <- <-]. auto.
      - destruct (poll_all clock_ready w l) as [[still0 w2] t0].
        destruct (IHl _ _ _ eq_refl) as [-> Hs].
        destruct (Nat.leb_spec ev w); intros [= <- <- <-]; (split; [reflexivity|]).
        * assumption.
        * constructor; [simpl in *; lia|assumption]. }
    destruct (IH (clock_sleep w 100) still) as [[w2 t2] Hr].
    + eapply Forall_impl; [exact Hstill|]. unfold clock_sleep. simpl. intros; lia.
    + destruct Hstill as [|y l Hy _]; [auto|right; simpl in Hy; lia].
    + rewrite Hr. eauto.
Qed.

Lemma C7_execute_only_after_ready_witness :
  match PerformOperation clock_ready clock_sleep buffer_ok execute_ok 5 0%nat
          two_entries response_ab with
  | Returned (_, _, trace) => ReadyPolled entry_a true ∈ take 13 trace
  | _ => False
  end.
Proof.
  destruct (PerformOperation clock_ready clock_sleep buffer_ok execute_ok 5 0%nat
              two_entries response_ab) as [[[tt' w'] trace]| |] eqn:Hrun.
  - assert (trace = take 13 trace
                      ++ ExecuteOperationCalled [entry_a; entry_b] response_ab
                           (Finished Status_OK)
                      :: drop 14 trace) as Hsplit.
    { vm_compute in Hrun. injection Hrun as _ _ <-. reflexivity. }
    destruct (C7_execute_only_after_ready clock_ready clock_sleep buffer_ok execute_ok
                _ _ _ _ _ _ _ _ _ _ _ _ Hrun Hsplit) as (_ & Hready & _).
    apply (Hready entry_a 2%nat); [left|reflexivity].
  - vm_compute in Hrun. discriminate.
  - vm_compute in Hrun. discriminate.
Defined.

Lemma C8_exception_becomes_unknown_error_witness :
  exists tt1 w3 t_before,
    PerformOperation clock_ready clock_sleep buffer_ok execute_throws 5 0%nat
      two_entries response_ab
    = Returned (tt1, w3,
                t_before
                  ++ ExecuteOperationCalled [entry_a; entry_b] response_ab
                       (Threw "NCCL failure")
                  :: complete [entry_a; entry_b] (fun _ => None)
                       (Status_UnknownError "NCCL failure"))
    /\ callbacks_of t_before = [].
Proof.
  assert (take_entries (tensor_names response_ab) two_entries
          = Some ([entry_a; entry_b], ∅)) as Htake by (vm_compute; reflexivity).
  assert (wait_loop clock_ready clock_sleep 5 0%nat (fst (waiting_for [entry_a; entry_b]))
          = Some (3%nat, snd (default (0%nat, [])
                    (wait_loop clock_ready clock_sleep 5 0%nat
                       (fst (waiting_for [entry_a; entry_b]))))))
    as Hloop by (vm_compute; reflexivity).
  destruct (C8_exception_becomes_unknown_error clock_ready clock_sleep buffer_ok
              execute_throws 5 0%nat two_entries response_ab [entry_a; entry_b] ∅
              Status_OK 0%nat _ 3%nat _ "NCCL failure" 3%nat
              Htake eq_refl eq_refl Hloop eq_refl)
    as (t_before & Hrun & _ & Hnone & _).
  exists ∅, 3%nat, t_before. split; assumption.
Defined.

End PerformOperationFacts.

(** ** timeline.cc: process ids of tensors *)

Module TimelineFacts.
Import Timeline.

Lemma put_cases j f :
  (good f = true /\ good (put j f) = true /\ written (put j f) = written f ++ [j])
  \/ (good (put j f) = false /\ written (put j f) = written f).
Proof.
  unfold put. destruct (good f) eqn:Hgood; [|right; auto].
  destruct (room f) as [[|n]|]; simpl; auto.
Qed.

Lemma count_process_name_app p l k :
  count_process_name p (l ++ k) = (count_process_name p l + count_process_name p k)%nat.
Proof. unfold count_process_name. now rewrite List.filter_app, length_app. Qed.

Lemma count_sort_index_app p l k :
  count_sort_index p (l ++ k) = (count_sort_index p l + count_sort_index p k)%nat.
Proof. unfold count_sort_index. now rewrite List.filter_app, length_app. Qed.

Lemma count_process_name_absent p l :
  (forall n, ProcessName p n ∉ l) -> count_process_name p l = 0%nat.
Proof.
  unfold count_process_name. induction l as [|j l IH]; intros H; [reflexivity|].
  simpl. destruct (is_process_name p j) eqn:Hj.
  - destruct j; try discriminate. apply Z.eqb_eq in Hj as ->.
    exfalso. apply (H name). left.
  - apply IH. intros n Hn. apply (H n). now right.
Qed.

Lemma count_sort_index_absent p l :
  (forall i, ProcessSortIndex p i ∉ l) -> count_sort_index p l = 0%nat.
Proof.
  unfold count_sort_index. induction l as [|j l IH]; intros H; [reflexivity|].
  simpl. destruct (is_sort_index p j) eqn:Hj.
  - destruct j; try discriminate. apply Z.eqb_eq in Hj as ->.
    exfalso. apply (H sort_index). left.
  - apply IH. intros n Hn. apply (H n). now right.
Qed.

(** Where an element of [w ++ [y]] sits. *)
Lemma split_snoc {A} (l1 l2 w : list A) x y :
  l1 ++ x :: l2 = w ++ [y] ->
  (l2 = [] /\ l1 = w /\ x = y) \/ (exists l2', l2 = l2' ++ [y] /\ w = l1 ++ x :: l2').
Proof.
  destruct l2 as [|z l2 _] using rev_ind.
  - intros H. apply app_inj_tail in H as [-> ->]. auto.
  - intros H. right. exists l2.
    change (l1 ++ x :: l2 ++ [z]) with (l1 ++ (x :: l2) ++ [z]) in H.
    rewrite app_assoc in H. apply app_inj_tail in H as [<- ->]. auto.
Qed.

Lemma metadata_first_snoc_meta out j :
  metadata_first out ->
  (forall op ph ts p dur args, j <> TraceEvent op ph ts p dur args) ->
  metadata_first (out ++ [j]).
Proof.
  intros H Hj l1 l2 op ph ts p dur args Heq. symmetry in Heq.
  apply split_snoc in Heq as [(_ & _ & Hx)|(l2' & _ & Hout)].
  - exfalso. eapply Hj. symmetry. exact Hx.
  - eapply H. exact Hout.
Qed.

Lemma metadata_first_snoc_event out op ph ts p dur args :
  metadata_first out ->
  count_process_name p out = 1%nat -> count_sort_index p out = 1%nat ->
  metadata_first (out ++ [TraceEvent op ph ts p dur args]).
Proof.
  intros H Hpn Hsi l1 l2 op' ph' ts' p' dur' args' Heq. symmetry in Heq.
  apply split_snoc in Heq as [(_ & -> & Hx)|(l2' & _ & Hout)].
  - injection Hx as _ _ _ -> _ _. auto.
  - eapply H. exact Hout.
Qed.

(** *** One call of [WriteEvent] *)

Lemma write_bad flush tl c : good (file_ tl) = false -> write flush tl c = tl.
Proof. intros H. unfold write, WriteEvent. now rewrite H. Qed.

Lemma write_known flush tl c p :
  good (file_ tl) = true ->
  tensor_table_ tl !! call_tensor_name c = Some p -> p <> 0 ->
  exists ts dur args,
    tensor_table_ (write flush tl c) = tensor_table_ tl
    /\ file_ (write flush tl c)
       = put (TraceEvent (call_op_name c) (call_phase c) ts p dur args) (file_ tl).
Proof.
  intros Hgood Hp Hp0. unfold write, WriteEvent, subscript.
  rewrite Hgood, Hp. cbn [negb]. rewrite Hp. cbn [from_option id].
  apply Z.eqb_neq in Hp0. rewrite Hp0. cbn [tensor_table_ file_].
  eexists _, _, _. split; reflexivity.
Qed.

Lemma write_fresh flush tl c :
  good (file_ tl) = true ->
  tensor_table_ tl !! call_tensor_name c = None ->
  Z.of_nat (size (tensor_table_ tl)) < INT_MAX ->
  let p := Z.of_nat (size (tensor_table_ tl)) + 1 in
  exists ts dur args,
    tensor_table_ (write flush tl c) = <[call_tensor_name c := p]> (tensor_table_ tl)
    /\ file_ (write flush tl c)
       = put (TraceEvent (call_op_name c) (call_phase c) ts p dur args)
           (put (ProcessSortIndex p p)
              (put (ProcessName p (call_tensor_name c)) (file_ tl))).
Proof.
  intros Hgood Hp Hsize p. unfold write, WriteEvent, subscript.
  rewrite Hgood, Hp. cbn [negb]. rewrite lookup_insert_eq. cbn [from_option id].
  rewrite Z.eqb_refl. cbn [tensor_table_ file_].
  rewrite map_size_insert_None by assumption.
  rewrite int_id by (unfold is_int, INT_MIN, INT_MAX in *; lia).
  replace (Z.of_nat (S (size (tensor_table_ tl)))) with p by (unfold p; lia).
  rewrite insert_insert_eq.
  eexists _, _, _. split; reflexivity.
Qed.

(** The table grows by at most one name per call. *)
Lemma write_size flush tl c :
  (size (tensor_table_ (write flush tl c)) <= S (size (tensor_table_ tl)))%nat.
Proof.
  unfold write, WriteEvent, subscript.
  destruct (good (file_ tl)); cbn [negb]; [|lia].
  set (name := call_tensor_name c).
  destruct (tensor_table_ tl !! name) as [p|] eqn:Hp.
  - rewrite Hp. cbn [from_option id].
    destruct (p =? 0); cbn [tensor_table_]; [|lia].
    rewrite map_size_insert_Some by (rewrite Hp; eauto). lia.
  - rewrite lookup_insert_eq. cbn [from_option id]. rewrite Z.eqb_refl. cbn [tensor_table_].
    rewrite insert_insert_eq, map_size_insert_None by assumption. lia.
Qed.

(** *** The table and the file stay consistent *)

Lemma metadata_first_app_meta out new :
  metadata_first out ->
  Forall (fun j => forall op ph ts p dur args, j <> TraceEvent op ph ts p dur args) new ->
  metadata_first (out ++ new).
Proof.
  intros Hout Hnew. revert out Hout.
  induction Hnew as [|j new Hj _ IH]; intros out Hout.
  - now rewrite app_nil_r.
  - change (j :: new) with ([j] ++ new). rewrite app_assoc.
    apply IH. now apply metadata_first_snoc_meta.
Qed.

(** A name that is already in the table: at most the event is appended. *)
Lemma consistent_known tl tl' name p ev_op ph ts dur args :
  consistent tl ->
  tensor_table_ tl !! name = Some p ->
  tensor_table_ tl' = tensor_table_ tl ->
  file_ tl' = put (TraceEvent ev_op ph ts p dur args) (file_ tl) ->
  consistent tl'.
Proof.
  intros [Hrange Hinj Hnamed Hsorted Honce Hfirst Hpresent] Hp Htable Hfile.
  destruct (put_cases (TraceEvent ev_op ph ts p dur args) (file_ tl))
    as [(Hgood & Hgood' & Hw)|(Hbad & Hw)]; rewrite <- Hfile in *.
  - constructor; rewrite ?Htable, ?Hw.
    + assumption.
    + assumption.
    + intros q n [H|[[=]|[]%elem_of_nil]%elem_of_cons]%elem_of_app. auto.
    + intros q i [H|[[=]|[]%elem_of_nil]%elem_of_cons]%elem_of_app. auto.
    + intros q. rewrite count_process_name_app, count_sort_index_app.
      cbn. rewrite !Nat.add_0_r. apply Honce.
    + destruct (Hpresent Hgood name p Hp). now apply metadata_first_snoc_event.
    + intros _ n q Hq. rewrite count_process_name_app, count_sort_index_app.
      cbn. rewrite !Nat.add_0_r. exact (Hpresent Hgood n q Hq).
  - constructor; rewrite ?Htable, ?Hw; try assumption.
    rewrite Hbad. discriminate.
Qed.

(** A new name: it gets the next process id, and the two metadata objects
    and the event are appended as far as the stream accepts them. *)
Lemma consistent_fresh tl tl' name ev_op ph ts dur args :
  consistent tl ->
  tensor_table_ tl !! name = None ->
  let p := Z.of_nat (size (tensor_table_ tl)) + 1 in
  tensor_table_ tl' = <[name := p]> (tensor_table_ tl) ->
  file_ tl' = put (TraceEvent ev_op ph ts p dur args)
                (put (ProcessSortIndex p p) (put (ProcessName p name) (file_ tl))) ->
  consistent tl'.
Proof.
  intros [Hrange Hinj Hnamed Hsorted Honce Hfirst Hpresent] Hfresh p Htable Hfile.
  set (pn := ProcessName p name) in *. set (si := ProcessSortIndex p p) in *.
  set (ev := TraceEvent ev_op ph ts p dur args) in *.
  assert (forall n q, tensor_table_ tl !! n = Some q -> q <> p) as Hold
    by (intros n q Hq; pose proof (Hrange n q Hq); unfold p; lia).
  assert (count_process_name p (written (file_ tl)) = 0%nat) as Hpn0.
  { apply count_process_name_absent. intros n Hn.
    apply Hnamed in Hn. exact (Hold _ _ Hn eq_refl). }
  assert (count_sort_index p (written (file_ tl)) = 0%nat) as Hsi0.
  { apply count_sort_index_absent. intros i Hi.
    apply Hsorted in Hi as [_ [n Hn]]. exact (Hold _ _ Hn eq_refl). }
  assert (forall q, count_process_name q [pn; si; ev] = (if (p =? q)%Z then 1 else 0)%nat
                    /\ count_sort_index q [pn; si; ev] = (if (p =? q)%Z then 1 else 0)%nat)
    as Hfull by (intros q; cbn; destruct (p =? q); auto).
  assert (exists new,
             written (file_ tl') = written (file_ tl) ++ new
             /\ (new = [] \/ new = [pn] \/ new = [pn; si] \/ new = [pn; si; ev])
             /\ (good (file_ tl') = true -> new = [pn; si; ev] /\ good (file_ tl) = true))
    as (new & Hw & Hnew & Hgood).
  { rewrite Hfile.
    destruct (put_cases pn (file_ tl)) as [(G0 & G1 & W1)|(B1 & W1)];
      destruct (put_cases si (put pn (file_ tl))) as [(G1' & G2 & W2)|(B2 & W2)];
      destruct (put_cases ev (put si (put pn (file_ tl)))) as [(G2' & G3 & W3)|(B3 & W3)];
      try congruence; rewrite W3, W2, W1.
    - exists [pn; si; ev]. rewrite <- !app_assoc. auto 10.
    - exists [pn; si]. rewrite <- !app_assoc. rewrite B3. split; [|split]; auto. discriminate.
    - exists [pn]. rewrite B3. split; [|split]; auto. discriminate.
    - exists []. rewrite app_nil_r, B3. split; [|split]; auto. discriminate. }
  assert (forall j, j ∈ new -> j ∈ [pn; si; ev]) as Hsub.
  { intros j Hj. destruct Hnew as [-> | [-> | [-> | ->]]];
      rewrite ?elem_of_cons, ?elem_of_nil in *; tauto. }
  assert (forall q, (count_process_name q new <= (if (p =? q)%Z then 1 else 0))%nat
                    /\ (count_sort_index q new <= (if (p =? q)%Z then 1 else 0))%nat)
    as Hcount.
  { intros q. destruct Hnew as [-> | [-> | [-> | ->]]]; cbn; destruct (p =? q);
      simpl; lia. }
  assert (forall n q, tensor_table_ tl !! n = Some q ->
                      <[name := p]> (tensor_table_ tl) !! n = Some q) as Hkeep.
  { intros n q Hq. rewrite lookup_insert_ne; [assumption|]. congruence. }
  constructor; rewrite ?Htable, ?Hw.
  - intros n q. rewrite map_size_insert_None by assumption.
    destruct (decide (name = n)) as [<-|Hne].
    + rewrite lookup_insert_eq. intros [= <-]. unfold p. lia.
    + rewrite lookup_insert_ne by assumption. intros Hq.
      pose proof (Hrange n q Hq). lia.
  - intros n1 n2 q.
    destruct (decide (name = n1)) as [<-|Hne1], (decide (name = n2)) as [<-|Hne2];
      rewrite ?lookup_insert_eq, ?lookup_insert_ne by assumption.
    + reflexivity.
    + intros [= <-] Hq. destruct (Hold _ _ Hq eq_refl).
    + intros Hq [= <-]. destruct (Hold _ _ Hq eq_refl).
    + apply Hinj.
  - intros q n [H|H]%elem_of_app; [auto|].
    apply Hsub in H.
    repeat (apply elem_of_cons in H as [H|H]); try discriminate;
      [|now apply elem_of_nil in H].
    unfold pn in H. injection H as Hq Hn. rewrite Hq, Hn. apply lookup_insert_eq.
  - intros q i [H|H]%elem_of_app.
    + destruct (Hsorted q i H) as (-> & n & Hn). split; [reflexivity|]. eauto.
    + apply Hsub in H.
      repeat (apply elem_of_cons in H as [H|H]); try discriminate;
        [|now apply elem_of_nil in H].
      unfold si in H. injection H as Hq Hi. rewrite Hq, Hi.
      split; [reflexivity|]. exists name. apply lookup_insert_eq.
  - intros q. rewrite count_process_name_app, count_sort_index_app.
    destruct (Hcount q) as [H1 H2]. destruct (Honce q) as [H3 H4].
    destruct (Z.eqb_spec p q) as [Heq|Hne]; [rewrite <- Heq in *|]; lia.
  - destruct Hnew as [-> | [-> | [-> | ->]]].
    + now rewrite app_nil_r.
    + apply metadata_first_app_meta; [assumption|]. repeat constructor; discriminate.
    + apply metadata_first_app_meta; [assumption|]. repeat constructor; discriminate.
    + change [pn; si; ev] with ([pn; si] ++ [ev]). rewrite app_assoc.
      apply metadata_first_snoc_event.
      * apply metadata_first_app_meta; [assumption|]. repeat constructor; discriminate.
      * rewrite count_process_name_app, Hpn0. cbn. now rewrite Z.eqb_refl.
      * rewrite count_sort_index_app, Hsi0. cbn. now rewrite Z.eqb_refl.
  - intros Hg n q. destruct (Hgood Hg) as [-> Hg0].
    rewrite count_process_name_app, count_sort_index_app.
    destruct (Hfull q) as [-> ->].
    destruct (decide (name = n)) as [<-|Hne].
    + rewrite lookup_insert_eq. intros [= <-]. rewrite Z.eqb_refl. lia.
    + rewrite lookup_insert_ne by assumption. intros Hq.
      destruct (Hpresent Hg0 n q Hq) as [-> ->].
      pose proof (Hold _ _ Hq). destruct (Z.eqb_spec p q); [congruence|lia].
Qed.

Lemma consistent_write flush tl c :
  consistent tl -> Z.of_nat (size (tensor_table_ tl)) < INT_MAX ->
  consistent (write flush tl c).
Proof.
  intros Hc Hsize.
  destruct (good (file_ tl)) eqn:Hgood; [|now rewrite write_bad].
  destruct (tensor_table_ tl !! call_tensor_name c) as [p|] eqn:Hp.
  - assert (p <> 0) as Hp0 by (pose proof (pid_range _ Hc _ _ Hp); lia).
    destruct (write_known flush tl c p Hgood Hp Hp0) as (ts & dur & args & Ht & Hf).
    eapply consistent_known; eassumption.
  - destruct (write_fresh flush tl c Hgood Hp Hsize) as (ts & dur & args & Ht & Hf).
    eapply consistent_fresh; eassumption.
Qed.

(** *** Sequences of calls *)

Lemma run_app flush tl calls1 calls2 :
  run flush tl (calls1 ++ calls2) = run flush (run flush tl calls1) calls2.
Proof. unfold run. apply fold_left_app. Qed.

Lemma write_keeps_pid flush tl c n p :
  consistent tl -> Z.of_nat (size (tensor_table_ tl)) < INT_MAX ->
  tensor_table_ tl !! n = Some p ->
  tensor_table_ (write flush tl c) !! n = Some p.
Proof.
  intros Hc Hsize Hn.
  destruct (good (file_ tl)) eqn:Hgood; [|now rewrite write_bad].
  destruct (tensor_table_ tl !! call_tensor_name c) as [q|] eqn:Hq.
  - assert (q <> 0) as Hq0 by (pose proof (pid_range _ Hc _ _ Hq); lia).
    destruct (write_known flush tl c q Hgood Hq Hq0) as (ts & dur & args & -> & _).
    assumption.
  - destruct (write_fresh flush tl c Hgood Hq Hsize) as (ts & dur & args & -> & _).
    rewrite lookup_insert_ne; [assumption|]. congruence.
Qed.

Lemma consistent_run flush calls : forall tl,
  consistent tl ->
  Z.of_nat (size (tensor_table_ tl)) + Z.of_nat (length calls) <= INT_MAX ->
  consistent (run flush tl calls)
  /\ (size (tensor_table_ (run flush tl calls))
      <= size (tensor_table_ tl) + length calls)%nat
  /\ forall n p, tensor_table_ tl !! n = Some p ->
                 tensor_table_ (run flush tl calls) !! n = Some p.
Proof.
  induction calls as [|c calls IH]; intros tl Hc Hsize.
  - change (run flush tl []) with tl. simpl. split; [assumption|split; [lia|auto]].
  - change (run flush tl (c :: calls)) with (run flush (write flush tl c) calls).
    simpl in Hsize |- *.
    pose proof (write_size flush tl c) as Hgrow.
    destruct (IH (write flush tl c)) as (Hc' & Hsize' & Hkeep).
    + apply consistent_write; [assumption|lia].
    + lia.
    + split; [assumption|split; [lia|]].
      intros n p Hn. apply Hkeep. apply write_keeps_pid; [assumption|lia|assumption].
Qed.

Lemma consistent_initial open_ok capacity now :
  consistent (Initialize fresh open_ok capacity now)
  /\ tensor_table_ (Initialize fresh open_ok capacity now) = ∅.
Proof.
  assert (forall tl, tensor_table_ tl = ∅ ->
                     (written (file_ tl) = [] \/ written (file_ tl) = [ArrayOpen]) ->
                     consistent tl) as Hempty.
  { intros tl Ht Hw. constructor; rewrite ?Ht.
    - intros n p. now rewrite lookup_empty.
    - intros n1 n2 p. now rewrite lookup_empty.
    - intros p n H. exfalso. destruct Hw as [Hw|Hw]; rewrite Hw in H;
        rewrite ?elem_of_cons, ?elem_of_nil in H; intuition discriminate.
    - intros p n H. exfalso. destruct Hw as [Hw|Hw]; rewrite Hw in H;
        rewrite ?elem_of_cons, ?elem_of_nil in H; intuition discriminate.
    - intros p. destruct Hw as [-> | ->]; cbn; lia.
    - intros l1 l2 op ph ts p dur args Heq. exfalso.
      assert (TraceEvent op ph ts p dur args ∈ written (file_ tl)) as H
        by (rewrite Heq; apply elem_of_app; right; left).
      destruct Hw as [Hw|Hw]; rewrite Hw in H;
        rewrite ?elem_of_cons, ?elem_of_nil in H; intuition discriminate.
    - intros _ n p. now rewrite lookup_empty. }
  unfold Initialize. cbn [good].
  destruct open_ok; (split; [apply Hempty|reflexivity]); cbn [tensor_table_ file_];
    try reflexivity; auto.
  unfold put. cbn [good room written]. destruct capacity as [[|n]|]; cbn [written]; auto.
Qed.

(** What one call appends to the file. *)
Lemma write_output flush tl c :
  consistent tl -> Z.of_nat (size (tensor_table_ tl)) < INT_MAX ->
  good (file_ tl) = true ->
  exists p ts dur args new,
    tensor_table_ (write flush tl c) !! call_tensor_name c = Some p
    /\ (forall q, tensor_table_ tl !! call_tensor_name c = Some q -> q = p)
    /\ written (file_ (write flush tl c)) = written (file_ tl) ++ new
    /\ let full :=
         match tensor_table_ tl !! call_tensor_name c with
         | Some _ => []
         | None => [ProcessName p (call_tensor_name c); ProcessSortIndex p p]
         end ++ [TraceEvent (call_op_name c) (call_phase c) ts p dur args] in
       new `prefix_of` full
       /\ (good (file_ (write flush tl c)) = true -> new = full).
Proof.
  intros Hc Hsize Hgood.
  destruct (tensor_table_ tl !! call_tensor_name c) as [q|] eqn:Hq.
  - assert (q <> 0) as Hq0 by (pose proof (pid_range _ Hc _ _ Hq); lia).
    destruct (write_known flush tl c q Hgood Hq Hq0) as (ts & dur & args & Ht & Hf).
    rewrite Ht, Hf.
    destruct (put_cases (TraceEvent (call_op_name c) (call_phase c) ts q dur args)
                (file_ tl)) as [(_ & G & W)|(B & W)]; rewrite W.
    + exists q, ts, dur, args,
        [TraceEvent (call_op_name c) (call_phase c) ts q dur args]. cbn [app].
      repeat split; auto; congruence.
    + exists q, ts, dur, args, []. rewrite app_nil_r, B. cbn [app].
      repeat split; auto; [congruence|apply prefix_nil|discriminate].
  - destruct (write_fresh flush tl c Hgood Hq Hsize) as (ts & dur & args & Ht & Hf).
    rewrite Ht, Hf, lookup_insert_eq.
    set (p := Z.of_nat (size (tensor_table_ tl)) + 1).
    set (pn := ProcessName p (call_tensor_name c)). set (si := ProcessSortIndex p p).
    set (ev := TraceEvent (call_op_name c) (call_phase c) ts p dur args).
    destruct (put_cases pn (file_ tl)) as [(G0 & G1 & W1)|(B1 & W1)];
      destruct (put_cases si (put pn (file_ tl))) as [(G1' & G2 & W2)|(B2 & W2)];
      destruct (put_cases ev (put si (put pn (file_ tl)))) as [(G2' & G3 & W3)|(B3 & W3)];
      try congruence; rewrite W3, W2, W1.
    + exists p, ts, dur, args, [pn; si; ev]. rewrite <- !app_assoc.
      repeat split; auto; discriminate.
    + exists p, ts, dur, args, [pn; si]. rewrite <- !app_assoc, B3.
      repeat split; auto; try discriminate. now exists [ev].
    + exists p, ts, dur, args, [pn]. rewrite B3.
      repeat split; auto; try discriminate. now exists [si; ev].
    + exists p, ts, dur, args, []. rewrite app_nil_r, B3.
      repeat split; auto; try discriminate. apply prefix_nil.
Qed.

(** *** A stream that never fails *)

Lemma put_never_fails j f :
  good f = true -> room f = None ->
  good (put j f) = true /\ room (put j f) = None /\ written (put j f) = written f ++ [j].
Proof. intros Hgood Hroom. unfold put. rewrite Hgood, Hroom. auto. Qed.

Lemma write_never_fails flush tl c :
  consistent tl -> Z.of_nat (size (tensor_table_ tl)) < INT_MAX ->
  good (file_ tl) = true -> room (file_ tl) = None ->
  good (file_ (write flush tl c)) = true /\ room (file_ (write flush tl c)) = None.
Proof.
  intros Hc Hsize Hgood Hroom.
  destruct (tensor_table_ tl !! call_tensor_name c) as [p|] eqn:Hp.
  - assert (p <> 0) as Hp0 by (pose proof (pid_range _ Hc _ _ Hp); lia).
    destruct (write_known flush tl c p Hgood Hp Hp0) as (ts & dur & args & _ & ->).
    destruct (put_never_fails (TraceEvent (call_op_name c) (call_phase c) ts p dur args)
                (file_ tl) Hgood Hroom) as (? & ? & _).
    auto.
  - destruct (write_fresh flush tl c Hgood Hp Hsize) as (ts & dur & args & _ & ->).
    cbv zeta.
    set (p := Z.of_nat (size (tensor_table_ tl)) + 1).
    destruct (put_never_fails (ProcessName p (call_tensor_name c)) (file_ tl)
                Hgood Hroom) as (Hg1 & Hr1 & _).
    destruct (put_never_fails (ProcessSortIndex p p) _ Hg1 Hr1) as (Hg2 & Hr2 & _).
    destruct (put_never_fails (TraceEvent (call_op_name c) (call_phase c) ts p dur args)
                _ Hg2 Hr2) as (? & ? & _).
    auto.
Qed.

Lemma run_never_fails flush calls : forall tl,
  consistent tl ->
  Z.of_nat (size (tensor_table_ tl)) + Z.of_nat (length calls) <= INT_MAX ->
  good (file_ tl) = true -> room (file_ tl) = None ->
  good (file_ (run flush tl calls)) = true /\ room (file_ (run flush tl calls)) = None.
Proof.
  induction calls as [|c calls IH]; intros tl Hc Hsize Hgood Hroom; [auto|].
  change (run flush tl (c :: calls)) with (run flush (write flush tl c) calls).
  cbn [length] in Hsize. pose proof (write_size flush tl c) as Hgrow.
  destruct (write_never_fails flush tl c Hc ltac:(lia) Hgood Hroom) as [Hgood' Hroom'].
  apply IH; try assumption; [apply consistent_write; [assumption|lia]|lia].
Qed.

Lemma count_process_name_positive p out :
  (0 < count_process_name p out)%nat -> exists n, ProcessName p n ∈ out.
Proof.
  unfold count_process_name. induction out as [|j out IH]; cbn [List.filter length];
    [lia|].
  destruct (is_process_name p j) eqn:Hj.
  - intros _. destruct j; try discriminate. cbn in Hj. apply Z.eqb_eq in Hj as ->.
    eexists. left.
  - intros H. destruct (IH H) as [n Hn]. exists n. now right.
Qed.

Lemma count_sort_index_positive p out :
  (0 < count_sort_index p out)%nat -> exists i, ProcessSortIndex p i ∈ out.
Proof.
  unfold count_sort_index. induction out as [|j out IH]; cbn [List.filter length];
    [lia|].
  destruct (is_sort_index p j) eqn:Hj.
  - intros _. destruct j; try discriminate. cbn in Hj. apply Z.eqb_eq in Hj as ->.
    eexists. left.
  - intros H. destruct (IH H) as [n Hn]. exists n. now right.
Qed.




(** The file after the three example events: each tensor's metadata once,
    at its first event, and the same pid on both events of [grad_a]. *)
Example three_calls_output :
  written (file_ (run 1000000000 (Initialize fresh true None 0) three_calls))
  = [ArrayOpen;
     ProcessName 1 "grad_a"; ProcessSortIndex 1 1;
     TraceEvent "NEGOTIATE_ALLREDUCE" "B" 1 1 None None;
     ProcessName 2 "grad_b"; ProcessSortIndex 2 2;
     TraceEvent "0" "X" 2 2 (Some 0) None;
     TraceEvent "NEGOTIATE_ALLREDUCE" "E" 3 1 None None].
Proof. reflexivity. Qed.

End TimelineFacts.

(* ===================================================================== *)
(** * Further properties of operations.cc *)
(* ===================================================================== *)

(** ** Entries leave the tensor table when their response is performed *)

Module TensorTableFacts.
Import Operations OperationsExamples PerformOperationFacts.

(** What a successful [take_entries] has done. *)
Lemma take_entries_some names : forall (tt : gmap string TensorTableEntry) entries tt',
  take_entries names tt = Some (entries, tt') ->
  NoDup names
  /\ Forall2 (fun name e => tt !! name = Some e) names entries
  /\ forall k, tt' !! k = if decide (k ∈ names) then None else tt !! k.
Proof.
  induction names as [|name names IH]; intros tt entries tt'; cbn [take_entries].
  - intros [= <- <-]. split; [constructor|split; [constructor|]].
    intros k. destruct (decide (k ∈ [])) as [H|_]; [inversion H|reflexivity].
  - destruct (tt !! name) as [e|] eqn:He; [|discriminate].
    destruct (take_entries names (delete name tt)) as [[es tt1]|] eqn:Hrest;
      [|discriminate].
    intros [= <- <-].
    destruct (IH _ _ _ Hrest) as (Hnodup & Hall & Hlookup).
    assert (name ∉ names) as Hfresh.
    { intros Hin. apply list_elem_of_lookup in Hin as [i Hi].
      destruct (Forall2_lookup_l _ _ _ _ _ Hall Hi) as (e' & _ & He').
      rewrite lookup_delete_eq in He'. discriminate. }
    split; [constructor; assumption|split].
    + constructor; [assumption|].
      eapply Forall2_impl; [exact Hall|]. intros n e' Hn. simpl in Hn.
      destruct (decide (name = n)) as [->|Hne].
      * rewrite lookup_delete_eq in Hn. discriminate.
      * rewrite lookup_delete_ne in Hn by assumption. assumption.
    + intros k. rewrite Hlookup.
      destruct (decide (k = name)) as [->|Hne].
      * destruct (decide (name ∈ name :: names)) as [_|Hout];
          [|exfalso; apply Hout; left].
        destruct (decide (name ∈ names)); [reflexivity|apply lookup_delete_eq].
      * destruct (decide (k ∈ names)) as [Hin|Hout],
                 (decide (k ∈ name :: names)) as [Hin'|Hout']; try reflexivity.
        -- exfalso. apply Hout'. now right.
        -- apply elem_of_cons in Hin' as [?|?]; contradiction.
        -- apply lookup_delete_ne. congruence.
Qed.

(** When [take_entries] succeeds. *)
Lemma take_entries_is_some names : forall (tt : gmap string TensorTableEntry),
  NoDup names -> (forall name, name ∈ names -> is_Some (tt !! name)) ->
  is_Some (take_entries names tt).
Proof.
  induction names as [|name names IH]; intros tt Hnodup Hall; cbn [take_entries];
    [eauto|].
  inversion Hnodup as [|? ? Hfresh Hnodup']; subst.
  destruct (Hall name ltac:(left)) as [e ->].
  destruct (IH (delete name tt) Hnodup') as [[es tt1] ->]; [|eauto].
  intros n Hn. rewrite lookup_delete_ne by (intros ->; contradiction).
  apply Hall. now right.
Qed.

(** The table splits into the entries taken and the entries left. *)
Lemma take_entries_partition names : forall (tt : gmap string TensorTableEntry) entries tt',
  take_entries names tt = Some (entries, tt') ->
  length entries = length names
  /\ map_to_list tt ≡ₚ zip names entries ++ map_to_list tt'.
Proof.
  induction names as [|name names IH]; intros tt entries tt'; cbn [take_entries].
  - intros [= <- <-]. split; reflexivity.
  - destruct (tt !! name) as [e|] eqn:He; [|discriminate].
    destruct (take_entries names (delete name tt)) as [[es tt1]|] eqn:Hrest;
      [|discriminate].
    intros [= <- <-]. destruct (IH _ _ _ Hrest) as [Hlen Hperm].
    split; [simpl; congruence|].
    rewrite <- (map_to_list_delete tt name e He). simpl. now rewrite Hperm.
Qed.

End TensorTableFacts.

(** ** What a run of [PerformOperation] does to the table and the callbacks *)

Module PerformOperationExtra.
Import Operations OperationsExamples PerformOperationFacts TensorTableFacts.

Section Oracles.

Context {World : Type}.
Variable Ready : World -> ReadyEvent -> bool * World.
Variable sleep_for : World -> Z -> World.
Variable InitializeBuffer : World -> Z -> Z -> Status * World.
Variable ExecuteOperation :
  World -> list TensorTableEntry -> Response -> ExecResult * World.

(** X1: a response that has been performed has removed exactly its tensor
    names from the tensor table.  The names were distinct keys of the
    table, every other entry is untouched, and the table has shrunk by the
    number of names, whatever the status of the operation. *)
Theorem X1_performed_names_leave_table fuel w tt response tt' w' trace :
  PerformOperation Ready sleep_for InitializeBuffer ExecuteOperation fuel w tt response
  = Returned (tt', w', trace) ->
  NoDup (tensor_names response)
  /\ (forall name, name ∈ tensor_names response -> is_Some (tt !! name) /\ tt' !! name = None)
  /\ (forall name, name ∉ tensor_names response -> tt' !! name = tt !! name)
  /\ size tt = (size tt' + length (tensor_names response))%nat.
Proof.
  intros Hrun.
  destruct (PerformOperation_returned _ _ _ _ _ _ _ _ _ _ _ Hrun)
    as (entries & st & w1 & t_init & Htake & _).
  destruct (take_entries_some _ _ _ _ Htake) as (Hnodup & Hall & Hlookup).
  destruct (take_entries_partition _ _ _ _ Htake) as (Hlen & Hperm).
  split; [assumption|split; [|split]].
  - intros name Hin. split.
    + apply list_elem_of_lookup in Hin as [i Hi].
      destruct (Forall2_lookup_l _ _ _ _ _ Hall Hi) as (e & _ & He). eauto.
    + rewrite Hlookup. now rewrite decide_True.
  - intros name Hout. rewrite Hlookup. now rewrite decide_False.
  - rewrite <- !length_map_to_list, Hperm, length_app, length_zip, Hlen. lia.
Qed.

(** X2: the assertion of [PerformOperation] fails exactly when the response
    names a tensor that is not in the table or names a tensor twice; no
    other input makes it fail. *)
Theorem X2_assertion_fails_on_missing_or_repeated_name fuel w tt response :
  PerformOperation Ready sleep_for InitializeBuffer ExecuteOperation fuel w tt response
  = AssertionFailed
  <-> ~ (NoDup (tensor_names response)
         /\ forall name, name ∈ tensor_names response -> is_Some (tt !! name)).
Proof.
  unfold PerformOperation.
  destruct (take_entries (tensor_names response) tt) as [[entries tt1]|] eqn:Htake.
  - destruct (take_entries_some _ _ _ _ Htake) as (Hnodup & Hall & _).
    split.
    + destruct (initialize_fusion_buffer InitializeBuffer w entries) as [[st w1] t_init].
      destruct (negb (ok st)); [discriminate|].
      destruct (waiting_for entries) as [waiting t_wait].
      destruct (wait_loop Ready sleep_for fuel w1 waiting) as [[w2 t_poll]|];
        [|discriminate].
      destruct (execute_catching ExecuteOperation w2 entries response) as [[? ?] ?].
      discriminate.
    + intros Hnot. exfalso. apply Hnot. split; [assumption|].
      intros name Hin. apply list_elem_of_lookup in Hin as [i Hi].
      destruct (Forall2_lookup_l _ _ _ _ _ Hall Hi) as (e & _ & He). eauto.
  - split; [|reflexivity]. intros _ [Hnodup Hall].
    destruct (take_entries_is_some _ tt Hnodup Hall) as [? H]. congruence.
Qed.

(** The callbacks of a returned run, and the execution that explains a
    run without callbacks. *)
Lemma returned_callbacks fuel w tt response tt' w' trace :
  PerformOperation Ready sleep_for InitializeBuffer ExecuteOperation fuel w tt response
  = Returned (tt', w', trace) ->
  exists entries,
    take_entries (tensor_names response) tt = Some (entries, tt')
    /\ ((exists status,
          callbacks_of trace = map (fun e => (callback e, status)) entries)
        \/ (callbacks_of trace = []
            /\ exists w2 status,
                 ExecuteOperation w2 entries response = (Finished status, w')
                 /\ ExecuteOperationCalled entries response (Finished status) ∈ trace
                 /\ in_progress status = true)).
Proof.
  intros Hrun.
  destruct (PerformOperation_returned _ _ _ _ _ _ _ _ _ _ _ Hrun)
    as (entries & st & w1 & t_init & Htake & Hinit & Hshape).
  exists entries. split; [assumption|].
  pose proof (timeline_start_bookkeeping entries (response_type response)) as Hstart.
  pose proof (initialize_fusion_buffer_bookkeeping _ _ _ _ _ _ Hinit) as Hinit'.
  destruct (waiting_for_spec entries) as [_ Hwait].
  pose proof (end_waiting_bookkeeping entries) as Hend.
  assert (forall t, Forall bookkeeping t -> callbacks_of t = []) as Hquiet.
  { intros t Ht. apply callbacks_of_none.
    eapply Forall_impl; [exact Ht|]. intros ev H; apply H. }
  cbv zeta in Hshape. destruct Hshape as [(_ & _ & ->)|(_ & Hexec)].
  - left. exists st.
    rewrite !callbacks_of_app, (Hquiet _ Hstart), (Hquiet _ Hinit').
    apply callbacks_of_complete.
  - destruct Hexec as (w2 & t_poll & result & status & Hloop & Hcall & Hstatus & ->).
    destruct (wait_loop_spec _ _ _ _ _ _ _ Hloop) as (_ & _ & Hpoll).
    assert (callbacks_of t_poll = []) as Hpoll'.
    { apply callbacks_of_none. eapply Forall_impl; [exact Hpoll|]. intros ev H; apply H. }
    rewrite !callbacks_of_app, (Hquiet _ Hstart), (Hquiet _ Hinit'), (Hquiet _ Hwait),
      Hpoll', (Hquiet _ Hend).
    cbn [app]. change (callbacks_of (?x :: ?l)) with (callbacks_of [x] ++ callbacks_of l).
    cbn [callbacks_of flat_map app].
    destruct (in_progress status) eqn:Hprog.
    + right. split; [reflexivity|]. exists w2, status.
      destruct result as [status0|what]; [|subst status; discriminate].
      subst status0. split; [assumption|split; [|assumption]].
      apply elem_of_app. right. left.
    + left. exists status. apply callbacks_of_complete.
Qed.

(** X3: every entry of a performed response is told the outcome once.
    When [PerformOperation] returns, either the callbacks of the entries
    were invoked, one invocation per entry in the order of the response and
    all with the same status, or no callback was invoked at all because the
    operation manager reported the execution as still in progress. *)
Theorem X3_one_status_for_all_callbacks fuel w tt response tt' w' trace :
  PerformOperation Ready sleep_for InitializeBuffer ExecuteOperation fuel w tt response
  = Returned (tt', w', trace) ->
  exists entries,
    take_entries (tensor_names response) tt = Some (entries, tt')
    /\ ((exists status,
          callbacks_of trace = map (fun e => (callback e, status)) entries)
        \/ (callbacks_of trace = []
            /\ exists status,
                 ExecuteOperationCalled entries response (Finished status) ∈ trace
                 /\ in_progress status = true)).
Proof.
  intros Hrun. destruct (returned_callbacks _ _ _ _ _ _ _ Hrun) as (entries & Htake & Hcb).
  exists entries. split; [assumption|].
  destruct Hcb as [Hall|(Hnone & w2 & status & _ & Hin & Hprog)]; [now left|].
  right. split; [assumption|]. exists status. split; assumption.
Qed.

(** X4: a fusion buffer that cannot be set up fails the whole response at
    once.  When a response of two or more tensors finds [InitializeBuffer]
    answering a status that is not OK, [PerformOperation] returns without
    waiting (for any fuel), polls no ready event, never calls
    [ExecuteOperation], and hands that status to the callback of every
    entry; the entries have left the table all the same. *)
Theorem X4_fusion_buffer_failure_fails_all
    fuel w tt response first_entry second_entry rest tt1 st w1 :
  take_entries (tensor_names response) tt
  = Some (first_entry :: second_entry :: rest, tt1) ->
  InitializeBuffer w (device first_entry) (context first_entry) = (st, w1) ->
  ok st = false ->
  exists trace,
    PerformOperation Ready sleep_for InitializeBuffer ExecuteOperation fuel w tt response
    = Returned (tt1, w1, trace)
    /\ Forall (fun ev => is_execute ev = false /\ is_poll ev = false) trace
    /\ callbacks_of trace
       = map (fun e => (callback e, st)) (first_entry :: second_entry :: rest).
Proof.
  intros Htake Hinit Hok.
  set (entries := first_entry :: second_entry :: rest) in *.
  eexists. split; [|split].
  - unfold PerformOperation. rewrite Htake.
    unfold initialize_fusion_buffer, entries. rewrite Hinit, Hok. reflexivity.
  - rewrite !Forall_app. repeat split.
    + eapply Forall_impl; [apply timeline_start_bookkeeping|]. intros ev H; split; apply H.
    + repeat constructor.
    + apply complete_no_execute_no_poll.
  - rewrite !callbacks_of_app.
    rewrite (callbacks_of_none (map _ _)).
    + apply callbacks_of_complete.
    + eapply Forall_impl; [apply timeline_start_bookkeeping|]. intros ev H; apply H.
Qed.

(** Whatever is executed in a run is the list of entries taken from the
    table, with the response being performed. *)
Lemma executed_entries fuel w tt response tt' w' trace es r result :
  PerformOperation Ready sleep_for InitializeBuffer ExecuteOperation fuel w tt response
  = Returned (tt', w', trace) ->
  ExecuteOperationCalled es r result ∈ trace ->
  take_entries (tensor_names response) tt = Some (es, tt') /\ r = response.
Proof.
  intros Hrun Hin.
  destruct (PerformOperation_returned _ _ _ _ _ _ _ _ _ _ _ Hrun)
    as (entries & st & w1 & t_init & Htake & Hinit & Hshape).
  pose proof (timeline_start_bookkeeping entries (response_type response)) as Hstart.
  pose proof (initialize_fusion_buffer_bookkeeping _ _ _ _ _ _ Hinit) as Hinit'.
  destruct (waiting_for_spec entries) as [_ Hwait].
  pose proof (end_waiting_bookkeeping entries) as Hend.
  assert (forall t, Forall bookkeeping t -> ExecuteOperationCalled es r result ∉ t)
    as Hquiet.
  { intros t Ht Hx. rewrite Forall_forall in Ht. destruct (Ht _ Hx) as (_ & Hex & _).
    discriminate. }
  assert (forall out_of status,
             ExecuteOperationCalled es r result ∉ complete entries out_of status)
    as Hdone.
  { intros out_of status Hx.
    pose proof (complete_no_execute_no_poll entries out_of status) as Hc.
    rewrite Forall_forall in Hc. destruct (Hc _ Hx) as [Hex _]. discriminate. }
  cbv zeta in Hshape. destruct Hshape as [(_ & _ & ->)|(_ & Hexec)].
  - exfalso. rewrite !elem_of_app in Hin. destruct Hin as [Hx|[Hx|Hx]].
    + exact (Hquiet _ Hstart Hx).
    + exact (Hquiet _ Hinit' Hx).
    + exact (Hdone _ _ Hx).
  - destruct Hexec as (w2 & t_poll & result0 & status & Hloop & _ & _ & ->).
    destruct (wait_loop_spec _ _ _ _ _ _ _ Hloop) as (_ & _ & Hpoll).
    rewrite !elem_of_app, elem_of_cons in Hin.
    destruct Hin as [[Hx|[Hx|[Hx|[Hx|Hx]]]]|[Hx|Hx]].
    + exfalso. exact (Hquiet _ Hstart Hx).
    + exfalso. exact (Hquiet _ Hinit' Hx).
    + exfalso. exact (Hquiet _ Hwait Hx).
    + exfalso. rewrite Forall_forall in Hpoll. destruct (Hpoll _ Hx) as [Hex _].
      discriminate.
    + exfalso. exact (Hquiet _ Hend Hx).
    + injection Hx as -> -> ->. split; [assumption|reflexivity].
    + exfalso. destruct (in_progress status); [inversion Hx|exact (Hdone _ _ Hx)].
Qed.

End Oracles.

Lemma X1_performed_names_leave_table_witness :
  match PerformOperation clock_ready clock_sleep buffer_ok execute_ok 5 0%nat
          two_entries response_ab with
  | Returned (tt', _, _) => size two_entries = (size tt' + 2)%nat
  | _ => False
  end.
Proof.
  destruct (PerformOperation clock_ready clock_sleep buffer_ok execute_ok 5 0%nat
              two_entries response_ab) as [[[tt' w'] trace]| |] eqn:Hrun.
  - apply (X1_performed_names_leave_table clock_ready clock_sleep buffer_ok execute_ok
             _ _ _ _ _ _ _ Hrun).
  - vm_compute in Hrun. discriminate.
  - vm_compute in Hrun. discriminate.
Defined.


Lemma X3_one_status_for_all_callbacks_witness :
  match PerformOperation clock_ready clock_sleep buffer_ok execute_throws 5 0%nat
          two_entries response_ab with
  | Returned (tt', _, trace) =>
    exists entries,
      take_entries ["a"; "b"] two_entries = Some (entries, tt')
      /\ ((exists status,
            callbacks_of trace = map (fun e => (callback e, status)) entries)
          \/ (callbacks_of trace = []
              /\ exists status,
                   ExecuteOperationCalled entries response_ab (Finished status) ∈ trace
                   /\ in_progress status = true))
  | _ => False
  end.
Proof.
  destruct (PerformOperation clock_ready clock_sleep buffer_ok execute_throws 5 0%nat
              two_entries response_ab) as [[[tt' w'] trace]| |] eqn:Hrun.
  - apply (X3_one_status_for_all_callbacks clock_ready clock_sleep buffer_ok
             execute_throws _ _ _ _ _ _ _ Hrun).
  - vm_compute in Hrun. discriminate.
  - vm_compute in Hrun. discriminate.
Defined.

Lemma X4_fusion_buffer_failure_fails_all_witness :
  exists trace,
    PerformOperation clock_ready clock_sleep LoopExamples.buffer_fails execute_ok
      0 0%nat two_entries response_ab
    = Returned (delete "b" (delete "a" two_entries), 0%nat, trace)
    /\ Forall (fun ev => is_execute ev = false /\ is_poll ev = false) trace
    /\ callbacks_of trace
       = [(7%nat, LoopExamples.out_of_memory); (8%nat, LoopExamples.out_of_memory)].
Proof.
  apply (X4_fusion_buffer_failure_fails_all clock_ready clock_sleep
           LoopExamples.buffer_fails execute_ok 0 0%nat two_entries response_ab
           entry_a entry_b [] (delete "b" (delete "a" two_entries))
           LoopExamples.out_of_memory 0%nat).
  - vm_compute. reflexivity.
  - reflexivity.
  - reflexivity.
Defined.

End PerformOperationExtra.

(** ** The data handed to the autotuner *)

Module AutotunerFacts.
Import Operations BackgroundLoop AdasumSpec.

Lemma sizes_of_cons tt name names e :
  tt !! name = Some e ->
  sizes_of tt (name :: names) = size_bytes (tensor e) :: sizes_of tt names.
Proof. intros H. unfold sizes_of. cbn. rewrite H. reflexivity. Qed.

Lemma sizes_of_app tt names1 names2 :
  sizes_of tt (names1 ++ names2) = sizes_of tt names1 ++ sizes_of tt names2.
Proof. unfold sizes_of. apply omap_app. Qed.

Lemma autotuner_names_present tt names : forall total collected,
  (forall name, name ∈ names -> is_Some (tt !! name)) ->
  0 <= total ->
  Forall (fun s => 0 <= s) (sizes_of tt names) ->
  total + Zsum (sizes_of tt names) <= INT64_MAX ->
  autotuner_names names tt total collected
  = Some (total + Zsum (sizes_of tt names), collected ++ names).
Proof.
  induction names as [|name names IH]; intros total collected Hall Htotal Hpos Hmax.
  - cbn. rewrite app_nil_r. do 2 f_equal. lia.
  - destruct (Hall name ltac:(left)) as [e He].
    rewrite (sizes_of_cons _ _ _ _ He) in Hpos, Hmax |- *.
    inversion Hpos as [|? ? Hs Hrest]; subst. cbn [Zsum foldr] in Hmax |- *.
    fold (Zsum (sizes_of tt names)) in Hmax |- *.
    pose proof (AdasumFacts.Zsum_nonneg _ Hrest).
    cbn [autotuner_names]. rewrite He.
    rewrite int64_id by (unfold is_int64, INT64_MIN, INT64_MAX in *; lia).
    rewrite IH; try assumption; try lia.
    + rewrite <- app_assoc. do 2 f_equal. lia.
    + intros n Hn. apply Hall. now right.
Qed.

Lemma autotuner_names_missing tt names : forall total collected name,
  name ∈ names -> tt !! name = None ->
  autotuner_names names tt total collected = None.
Proof.
  induction names as [|n names IH]; intros total collected name Hin Hmiss.
  - inversion Hin.
  - cbn [autotuner_names]. destruct (tt !! n) as [e|] eqn:He; [|reflexivity].
    apply elem_of_cons in Hin as [->|Hin]; [congruence|]. eapply IH; eassumption.
Qed.

Lemma autotuner_responses_present tt rs : forall total collected,
  (forall name, name ∈ allreduce_names rs -> is_Some (tt !! name)) ->
  0 <= total ->
  Forall (fun s => 0 <= s) (sizes_of tt (allreduce_names rs)) ->
  total + Zsum (sizes_of tt (allreduce_names rs)) <= INT64_MAX ->
  autotuner_responses rs tt total collected
  = Some (total + Zsum (sizes_of tt (allreduce_names rs)),
          collected ++ allreduce_names rs).
Proof.
  induction rs as [|r rs IH]; intros total collected Hall Htotal Hpos Hmax.
  - cbn. rewrite app_nil_r. do 2 f_equal. lia.
  - change (allreduce_names (r :: rs))
      with (match response_type r with ALLREDUCE => tensor_names r | _ => [] end
            ++ allreduce_names rs) in *.
    set (mine := match response_type r with ALLREDUCE => tensor_names r | _ => [] end)
      in *.
    rewrite sizes_of_app in Hpos, Hmax |- *.
    apply Forall_app in Hpos as [Hpos1 Hpos2].
    rewrite AdasumFacts.Zsum_app in Hmax |- *.
    pose proof (AdasumFacts.Zsum_nonneg _ Hpos1).
    pose proof (AdasumFacts.Zsum_nonneg _ Hpos2).
    assert (match response_type r with
            | ALLREDUCE => autotuner_names (tensor_names r) tt total collected
            | _ => Some (total, collected)
            end = Some (total + Zsum (sizes_of tt mine), collected ++ mine)) as Hinner.
    { unfold mine in *. destruct (response_type r);
        try (cbn; rewrite app_nil_r; do 2 f_equal; lia).
      apply autotuner_names_present; try assumption; try lia.
      intros n Hn. apply Hall. apply elem_of_app. now left. }
    cbn [autotuner_responses]. rewrite Hinner.
    rewrite IH; try assumption; try lia.
    + rewrite <- app_assoc. do 2 f_equal. lia.
    + intros n Hn. apply Hall. apply elem_of_app. now right.
Qed.

Lemma autotuner_responses_missing tt rs : forall total collected name,
  name ∈ allreduce_names rs -> tt !! name = None ->
  autotuner_responses rs tt total collected = None.
Proof.
  induction rs as [|r rs IH]; intros total collected name Hin Hmiss.
  - inversion Hin.
  - change (allreduce_names (r :: rs))
      with (match response_type r with ALLREDUCE => tensor_names r | _ => [] end
            ++ allreduce_names rs) in Hin.
    cbn [autotuner_responses].
    apply elem_of_app in Hin as [Hin|Hin].
    + destruct (response_type r); try (now inversion Hin).
      now rewrite (autotuner_names_missing _ _ _ _ _ Hin Hmiss).
    + destruct (match response_type r with
                | ALLREDUCE => autotuner_names (tensor_names r) tt total collected
                | _ => Some (total, collected)
                end) as [[total' collected']|]; [|reflexivity].
      eapply IH; eassumption.
Qed.

(** X5: [GetTensorDataForAutotuner] reports the tensors that are about to
    be allreduced.  If every tensor named by an ALLREDUCE response is in
    the table, it appends those names, in response order, to the caller's
    vector and returns the sum of the byte sizes of their tensors (as long
    as that sum fits an [int64_t]); ALLGATHER, BROADCAST and ERROR responses
    contribute nothing.  If one of the names is missing from the table,
    the lookup throws and there is no result. *)
Theorem X5_autotuner_data response_list tt collected :
  ((forall name, name ∈ allreduce_names (responses response_list) ->
                 is_Some (tt !! name)) ->
   Forall (fun s => 0 <= s) (sizes_of tt (allreduce_names (responses response_list))) ->
   Zsum (sizes_of tt (allreduce_names (responses response_list))) <= INT64_MAX ->
   GetTensorDataForAutotuner response_list tt collected
   = Some (Zsum (sizes_of tt (allreduce_names (responses response_list))),
           collected ++ allreduce_names (responses response_list)))
  /\ (forall name, name ∈ allreduce_names (responses response_list) ->
                   tt !! name = None ->
                   GetTensorDataForAutotuner response_list tt collected = None).
Proof.
  unfold GetTensorDataForAutotuner. split.
  - intros Hall Hpos Hmax.
    rewrite autotuner_responses_present by (try assumption; lia).
    do 2 f_equal.
  - intros name Hin Hmiss. eapply autotuner_responses_missing; eassumption.
Qed.


Lemma X5_autotuner_data_witness :
  GetTensorDataForAutotuner
    (mkResponseList [OperationsExamples.response_ab; mkResponse ALLGATHER ["c"] [0]] false)
    OperationsExamples.two_entries ["z"]
  = Some (48, ["z"; "a"; "b"])
  /\ GetTensorDataForAutotuner
       (mkResponseList [mkResponse ALLREDUCE ["c"] [0]] false)
       OperationsExamples.two_entries []
     = None.
Proof.
  split.
  - refine (proj1 (X5_autotuner_data
                     (mkResponseList [OperationsExamples.response_ab;
                                      mkResponse ALLGATHER ["c"] [0]] false)
                     OperationsExamples.two_entries ["z"]) _ _ _).
    + intros name Hin. cbn in Hin.
      rewrite ?elem_of_cons, ?elem_of_nil in Hin.
      destruct Hin as [-> | [-> | []]]; vm_compute; eauto.
    + vm_compute. repeat constructor; discriminate.
    + vm_compute. discriminate.
  - refine (proj2 (X5_autotuner_data
                     (mkResponseList [mkResponse ALLREDUCE ["c"] [0]] false)
                     OperationsExamples.two_entries []) "c" _ _).
    + cbn. left.
    + reflexivity.
Defined.

End AutotunerFacts.

(** ** Every outstanding callback is invoked once *)

Module BackgroundLoopFacts.
Import Operations OperationsExamples BackgroundLoop LoopExamples.
Import PerformOperationFacts TensorTableFacts.

Lemma map_snd_zip {A B C} (f : B -> C) (l : list A) : forall (k : list B),
  length k = length l -> map (fun p => f (snd p)) (zip l k) = map f k.
Proof.
  induction l as [|a l IH]; intros [|b k] Hlen; try discriminate; [reflexivity|].
  simpl. f_equal. apply IH. simpl in Hlen. lia.
Qed.

Lemma collect_callbacks_take names tt entries tt' :
  take_entries names tt = Some (entries, tt') ->
  collect_callbacks tt ≡ₚ map callback entries ++ collect_callbacks tt'.
Proof.
  intros H. destruct (take_entries_partition _ _ _ _ H) as [Hlen Hperm].
  unfold collect_callbacks. rewrite Hperm, map_app.
  now rewrite (map_snd_zip callback names entries Hlen).
Qed.

Lemma map_fst_callbacks entries (status : Status) :
  map fst (map (fun e => (callback e, status)) entries) = map callback entries.
Proof. rewrite map_map. reflexivity. Qed.

Section Oracles.

Context {World : Type}.
Variable Ready : World -> ReadyEvent -> bool * World.
Variable sleep_for : World -> Z -> World.
Variable InitializeBuffer : World -> Z -> Z -> Status * World.
Variable ExecuteOperation :
  World -> list TensorTableEntry -> Response -> ExecResult * World.
Variable start_cycle : World -> World.
Variable ComputeResponseList :
  World -> list Request.t -> ResponseList * list Request.t * World.
Variable IsAutoTuning : World -> bool.
Variable Update : World -> list string -> Z -> bool * World.
Variable SynchronizeParameters : World -> World.

Lemma PerformOperation_callbacks fuel w tt response tt' w' trace :
  never_in_progress ExecuteOperation ->
  PerformOperation Ready sleep_for InitializeBuffer ExecuteOperation fuel w tt response
  = Returned (tt', w', trace) ->
  map fst (callbacks_of trace) ++ collect_callbacks tt' ≡ₚ collect_callbacks tt.
Proof.
  intros Hno Hrun.
  destruct (PerformOperationExtra.returned_callbacks _ _ _ _ _ _ _ _ _ _ _ Hrun)
    as (entries & Htake & Hcb).
  rewrite (collect_callbacks_take _ _ _ _ Htake).
  destruct Hcb as [[status ->]|(_ & w2 & status & Hcall & _ & Hprog)].
  - now rewrite map_fst_callbacks.
  - rewrite (Hno _ _ _ _ _ Hcall) in Hprog. discriminate.
Qed.

Lemma perform_all_callbacks fuel rs : forall w tt tt' w' trace,
  never_in_progress ExecuteOperation ->
  perform_all Ready sleep_for InitializeBuffer ExecuteOperation fuel w tt rs
  = Completed (tt', w', trace) ->
  map fst (callbacks_of trace) ++ collect_callbacks tt' ≡ₚ collect_callbacks tt.
Proof.
  induction rs as [|response rs IH]; intros w tt tt' w' trace Hno; cbn [perform_all].
  - intros [= <- <- <-]. reflexivity.
  - destruct (PerformOperation Ready sleep_for InitializeBuffer ExecuteOperation
                fuel w tt response) as [[[tt1 w1] t1]| |] eqn:Hone; try discriminate.
    destruct (perform_all Ready sleep_for InitializeBuffer ExecuteOperation
                fuel w1 tt1 rs) as [[[tt2 w2] t2]| | |] eqn:Hrest; try discriminate.
    intros [= <- <- <-].
    rewrite callbacks_of_app, map_app, <- app_assoc.
    rewrite (IH _ _ _ _ _ Hno Hrest).
    apply (PerformOperation_callbacks _ _ _ _ _ _ _ Hno Hone).
Qed.

Lemma RunLoopOnce_callbacks fuel w state again state' w' trace :
  never_in_progress ExecuteOperation ->
  RunLoopOnce Ready sleep_for InitializeBuffer ExecuteOperation start_cycle
    ComputeResponseList IsAutoTuning Update SynchronizeParameters fuel w state
  = Completed (again, state', w', trace) ->
  map fst (callbacks_of trace) ++ collect_callbacks (tensor_table state')
  ≡ₚ collect_callbacks (tensor_table state).
Proof.
  intros Hno. unfold RunLoopOnce.
  destruct (ComputeResponseList (start_cycle w) (message_queue state))
    as [[response_list queue] w1].
  cbn [tensor_table message_queue with_tables].
  destruct (if IsAutoTuning w1
            then GetTensorDataForAutotuner response_list (tensor_table state) []
            else Some (0, [])) as [[total collected]|]; [|discriminate].
  destruct (perform_all Ready sleep_for InitializeBuffer ExecuteOperation fuel w1
              (tensor_table state) (responses response_list))
    as [[[tt2 w2] t2]| | |] eqn:Hall; try discriminate.
  intros [= <- <- <- <-]. cbn [tensor_table with_tables].
  apply (perform_all_callbacks _ _ _ _ _ _ _ Hno Hall).
Qed.

Lemma run_cycles_callbacks fuel cycles : forall w state state' w' trace,
  never_in_progress ExecuteOperation ->
  run_cycles Ready sleep_for InitializeBuffer ExecuteOperation start_cycle
    ComputeResponseList IsAutoTuning Update SynchronizeParameters cycles fuel w state
  = Completed (state', w', trace) ->
  map fst (callbacks_of trace) ++ collect_callbacks (tensor_table state')
  ≡ₚ collect_callbacks (tensor_table state).
Proof.
  induction cycles as [|cycles IH]; intros w state state' w' trace Hno;
    cbn [run_cycles]; [discriminate|].
  destruct (RunLoopOnce Ready sleep_for InitializeBuffer ExecuteOperation start_cycle
              ComputeResponseList IsAutoTuning Update SynchronizeParameters
              fuel w state) as [[[[again state1] w1] t1]| | |] eqn:Hone;
    try discriminate.
  pose proof (RunLoopOnce_callbacks _ _ _ _ _ _ _ Hno Hone) as Hfirst.
  destruct again.
  - destruct (run_cycles Ready sleep_for InitializeBuffer ExecuteOperation start_cycle
                ComputeResponseList IsAutoTuning Update SynchronizeParameters
                cycles fuel w1 state1) as [[[state2 w2] t2]| | |] eqn:Hrest;
      try discriminate.
    intros [= <- <- <-].
    rewrite callbacks_of_app, map_app, <- app_assoc.
    rewrite (IH _ _ _ _ _ Hno Hrest). exact Hfirst.
  - intros [= <- <- <-]. exact Hfirst.
Qed.

(** X6: by the time the background thread has left its loop and run its
    shutdown sequence, the callback of every tensor that was in the table
    when the loop started has been invoked exactly once, either by the
    response that performed it or by the shutdown sequence: the callbacks
    invoked are a rearrangement of the callbacks of the initial table.  The
    table and the message queue are empty and the shutdown flag is set.
    This holds when no other thread enqueues meanwhile and the operation
    manager never reports an execution as still in progress. *)
Theorem X6_every_outstanding_callback_invoked_once
    cycles fuel w state state' w' trace :
  never_in_progress ExecuteOperation ->
  BackgroundThreadLoop_from_loop Ready sleep_for InitializeBuffer ExecuteOperation
    start_cycle ComputeResponseList IsAutoTuning Update SynchronizeParameters
    cycles fuel w state
  = Completed (state', w', trace) ->
  map fst (callbacks_of trace) ≡ₚ collect_callbacks (tensor_table state)
  /\ tensor_table state' = ∅
  /\ message_queue state' = []
  /\ shut_down state' = true.
Proof.
  intros Hno. unfold BackgroundThreadLoop_from_loop.
  destruct (run_cycles Ready sleep_for InitializeBuffer ExecuteOperation start_cycle
              ComputeResponseList IsAutoTuning Update SynchronizeParameters
              cycles fuel w state) as [[[state1 w1] t1]| | |] eqn:Hcycles;
    try discriminate.
  unfold BackgroundThreadLoop_shutdown. intros [= <- <- <-].
  cbn [tensor_table message_queue shut_down with_tables with_shut_down].
  split; [|split; [reflexivity|split; [apply OperationsFacts.pop_all_empty|reflexivity]]].
  rewrite callbacks_of_app, map_app.
  rewrite <- (run_cycles_callbacks _ _ _ _ _ _ _ Hno Hcycles).
  apply Permutation_app_head.
  generalize (collect_callbacks (tensor_table state1)) as cbs.
  induction cbs as [|cb cbs IH]; [reflexivity|]. simpl. now rewrite IH.
Qed.

End Oracles.


Lemma execute_ok_never_in_progress : never_in_progress execute_ok.
Proof. intros w entries response status w' [= <- _]. reflexivity. Qed.

Lemma X6_every_outstanding_callback_invoked_once_witness :
  match BackgroundThreadLoop_from_loop clock_ready clock_sleep buffer_ok execute_ok
          no_pacing compute_a_then_stop not_tuning update_never no_pacing
          3 5 0%nat running with
  | Completed (state', _, trace) =>
    map fst (callbacks_of trace) ≡ₚ [7%nat; 8%nat] /\ tensor_table state' = ∅
  | _ => False
  end.
Proof.
  destruct (BackgroundThreadLoop_from_loop clock_ready clock_sleep buffer_ok execute_ok
              no_pacing compute_a_then_stop not_tuning update_never no_pacing
              3 5 0%nat running) as [[[state' w'] trace]| | |] eqn:Hrun.
  - destruct (X6_every_outstanding_callback_invoked_once
                clock_ready clock_sleep buffer_ok execute_ok
                no_pacing compute_a_then_stop not_tuning update_never no_pacing
                _ _ _ _ _ _ _ execute_ok_never_in_progress Hrun) as (Hperm & Htable & _).
    split; [|exact Htable].
    rewrite Hperm. vm_compute. reflexivity.
  - vm_compute in Hrun. discriminate.
  - vm_compute in Hrun. discriminate.
  - vm_compute in Hrun. discriminate.
Defined.

End BackgroundLoopFacts.

(** ** What an accepted enqueue leaves behind, and how long a name is taken *)

Module EnqueueFacts.
Import Operations OperationsExamples EnqueueSpec PerformOperationFacts TensorTableFacts.

(** [add_shape] appends the dimensions, each converted to [int64_t], and
    touches no other field. *)
Lemma add_shape_fields t m :
  add_shape t m
  = Request.mk (Request.request_rank m) (Request.request_type m) (Request.tensor_type m)
      (Request.tensor_name m) (Request.root_rank m) (Request.device m)
      (Request.tensor_shape m ++ map int64_t (dims t)).
Proof.
  unfold add_shape. revert m.
  induction (dims t) as [|d ds IH]; intros m; simpl.
  - rewrite app_nil_r. now destruct m.
  - rewrite IH. cbn [Request.add_tensor_shape Request.request_rank Request.request_type
                       Request.tensor_type Request.tensor_name Request.root_rank
                       Request.device Request.tensor_shape].
    now rewrite <- app_assoc.
Qed.

(** An enqueue answers OK only in one way. *)
Lemma enqueue_locked_ok g name e message g' :
  enqueue_locked g name e message = (Status_OK, g') ->
  shut_down g = false /\ tensor_table g !! name = None
  /\ g' = with_tables g (<[name := e]> (tensor_table g)) (message_queue g ++ [message]).
Proof.
  unfold enqueue_locked.
  destruct (shut_down g); [discriminate|].
  destruct (decide (is_Some (tensor_table g !! name))) as [Hdup|Hfresh]; [discriminate|].
  assert (tensor_table g !! name = None) as Hnone.
  { destruct (tensor_table g !! name) eqn:H; [exfalso; apply Hfresh; eauto|reflexivity]. }
  rewrite (OperationsFacts.emplace_fresh _ _ _ Hnone).
  intros [= <-]. auto.
Qed.

(** Each of the three functions ends in [enqueue_locked] on an entry with
    the caller's name and callback. *)
Lemma enqueued_as_locked g name ctx t ev dev cb result ctl :
  controller g = Some ctl ->
  enqueued_as g name ctx t ev dev cb result ->
  exists e message,
    result = Some (enqueue_locked g name e message)
    /\ tensor_name e = name /\ context e = ctx /\ tensor e = t
    /\ ready_event e = ev /\ device e = dev /\ callback e = cb.
Proof.
  intros Hctl [out| |out root];
    unfold EnqueueTensorAllreduce, EnqueueTensorAllgather, EnqueueTensorBroadcast;
    rewrite Hctl; cbn [mbind option_bind];
    eexists _, _; (split; [reflexivity|]); repeat split.
Qed.

(** X7: the request that an accepted enqueue pushes describes the tensor.
    When the controller exists, Horovod is not shut down and the name is
    free, each enqueue function answers OK, pushes exactly one request at
    the end of the queue, and that request carries this process's rank,
    the function's collective, the tensor's dtype, the name, the device and
    the tensor's dimensions in order (broadcast: also the root rank); the
    entry stored under the name holds the caller's context, tensor, output,
    ready event, device and callback (allgather stores no output). *)
Theorem X7_queued_request_describes_tensor
    g ctl ctx t out root ev name dev cb :
  controller g = Some ctl -> shut_down g = false -> tensor_table g !! name = None ->
  (exists g' m e,
     EnqueueTensorAllreduce g ctx t out ev name dev cb = Some (Status_OK, g')
     /\ message_queue g' = message_queue g ++ [m]
     /\ announces m ctl Request.ALLREDUCE t name dev
     /\ tensor_table g' !! name = Some e /\ holds e name ctx t out ev dev cb)
  /\ (exists g' m e,
        EnqueueTensorAllgather g ctx t ev name dev cb = Some (Status_OK, g')
        /\ message_queue g' = message_queue g ++ [m]
        /\ announces m ctl Request.ALLGATHER t name dev
        /\ tensor_table g' !! name = Some e /\ holds e name ctx t None ev dev cb)
  /\ (exists g' m e,
        EnqueueTensorBroadcast g ctx t out root ev name dev cb = Some (Status_OK, g')
        /\ message_queue g' = message_queue g ++ [m]
        /\ announces m ctl Request.BROADCAST t name dev
        /\ Request.root_rank m = root
        /\ tensor_table g' !! name = Some e /\ holds e name ctx t out ev dev cb
        /\ root_rank e = root).
Proof.
  intros Hctl Hup Hfresh.
  unfold EnqueueTensorAllreduce, EnqueueTensorAllgather, EnqueueTensorBroadcast.
  rewrite Hctl. cbn [mbind option_bind].
  split; [|split].
  all: match goal with
       | |- context [enqueue_locked ?g0 ?n ?e ?m] =>
         destruct (OperationsFacts.enqueue_locked_cases g0 n e m) as (_ & _ & Hnew);
         rewrite (Hnew Hup Hfresh);
         exists (with_tables g0 (<[n := e]> (tensor_table g0)) (message_queue g0 ++ [m])),
                m, e
       end.
  all: cbn [with_tables tensor_table message_queue].
  all: rewrite add_shape_fields, lookup_insert_eq.
  all: unfold announces, holds; cbn; repeat split; reflexivity.
Qed.


Lemma enqueued_as_ok g name ctx t ev dev cb result g' :
  enqueued_as g name ctx t ev dev cb result ->
  result = Some (Status_OK, g') ->
  exists e,
    shut_down g = false /\ tensor_table g !! name = None
    /\ tensor_table g' = <[name := e]> (tensor_table g)
    /\ shut_down g' = false /\ controller g' = controller g
    /\ tensor_name e = name /\ context e = ctx /\ tensor e = t
    /\ ready_event e = ev /\ device e = dev /\ callback e = cb.
Proof.
  intros Henq Hres.
  destruct (controller g) as [ctl|] eqn:Hctl.
  - destruct (enqueued_as_locked _ _ _ _ _ _ _ _ _ Hctl Henq)
      as (e & message & -> & Hfields).
    injection Hres as Hres.
    destruct (enqueue_locked_ok _ _ _ _ _ Hres) as (Hup & Hfresh & ->).
    exists e. cbn [with_tables tensor_table shut_down controller]. tauto.
  - exfalso. destruct Henq;
      unfold EnqueueTensorAllreduce, EnqueueTensorAllgather, EnqueueTensorBroadcast in Hres;
      rewrite Hctl in Hres; discriminate.
Qed.

Section Oracles.

Context {World : Type}.
Variable Ready : World -> ReadyEvent -> bool * World.
Variable sleep_for : World -> Z -> World.
Variable InitializeBuffer : World -> Z -> Z -> Status * World.
Variable ExecuteOperation :
  World -> list TensorTableEntry -> Response -> ExecResult * World.

(** X8: enqueueing a tensor and performing the response that names it
    brings the tensor table back to what it was.  After an accepted
    enqueue (by any of the three functions), a returned [PerformOperation]
    of a response naming just that tensor leaves the table as it was
    before the enqueue, so the name is free again; what was executed, if
    anything, is the single entry with the caller's context, tensor, ready
    event and device; and the caller's callback is the only callback
    invoked, at most once. *)
Theorem X8_enqueue_then_perform_restores_table
    g name ctx t ev dev cb result g' response fuel w tt' w' trace :
  enqueued_as g name ctx t ev dev cb result ->
  result = Some (Status_OK, g') ->
  tensor_names response = [name] ->
  PerformOperation Ready sleep_for InitializeBuffer ExecuteOperation
    fuel w (tensor_table g') response
  = Returned (tt', w', trace) ->
  tt' = tensor_table g
  /\ tt' !! name = None
  /\ (forall es r res, ExecuteOperationCalled es r res ∈ trace ->
      r = response
      /\ exists e, es = [e] /\ tensor_name e = name /\ context e = ctx /\ tensor e = t
                   /\ ready_event e = ev /\ device e = dev /\ callback e = cb)
  /\ (callbacks_of trace = [] \/ exists status, callbacks_of trace = [(cb, status)]).
Proof.
  intros Henq Hres Hnames Hrun.
  destruct (enqueued_as_ok _ _ _ _ _ _ _ _ _ Henq Hres)
    as (e & _ & Hfresh & Htable & _ & _ & Hfields).
  assert (take_entries (tensor_names response) (tensor_table g')
          = Some ([e], tensor_table g)) as Htake.
  { rewrite Hnames, Htable. cbn [take_entries]. rewrite lookup_insert_eq.
    now rewrite delete_insert_id. }
  destruct (PerformOperationExtra.returned_callbacks _ _ _ _ _ _ _ _ _ _ _ Hrun)
    as (entries & Htake' & Hcb).
  rewrite Htake in Htake'. injection Htake' as <- <-.
  split; [reflexivity|split; [assumption|split]].
  - intros es r res Hin.
    destruct (PerformOperationExtra.executed_entries _ _ _ _ _ _ _ _ _ _ _ _ _ _ Hrun Hin)
      as [Htake' ->].
    rewrite Htake in Htake'. injection Htake' as <-.
    split; [reflexivity|]. exists e. tauto.
  - destruct Hcb as [[status ->]|[-> _]]; [right|now left].
    exists status. cbn [map]. destruct Hfields as (_ & _ & _ & _ & _ & ->). reflexivity.
Qed.

(** X11: a response whose entries carry no ready event is executed
    without waiting.  [PerformOperation] then returns for every polling
    budget, even none, and its trace contains neither a poll of a ready
    event nor a sleep. *)
Theorem X11_no_ready_event_no_waiting fuel w tt response entries tt1 :
  take_entries (tensor_names response) tt = Some (entries, tt1) ->
  Forall (fun e => ready_event e = None) entries ->
  exists w' trace,
    PerformOperation Ready sleep_for InitializeBuffer ExecuteOperation fuel w tt response
    = Returned (tt1, w', trace)
    /\ Forall (fun ev => TraceSpec.is_wait ev = false) trace.
Proof.
  intros Htake Hnone.
  assert (waiting_for entries = ([], [])) as Hwaiting.
  { clear Htake. induction Hnone as [|e es He _ IH]; [reflexivity|].
    cbn [waiting_for]. now rewrite IH, He. }
  assert (end_waiting entries = []) as Hend.
  { clear Htake Hwaiting. induction Hnone as [|e es He _ IH]; [reflexivity|].
    unfold end_waiting in *. cbn [flat_map]. now rewrite He, IH. }
  assert (forall out_of status,
             Forall (fun ev => TraceSpec.is_wait ev = false)
                    (complete entries out_of status)) as Hdone.
  { intros out_of status. clear. induction entries as [|e es IH]; [constructor|].
    cbn [complete flat_map app]. repeat constructor. exact IH. }
  assert (Forall (fun ev => TraceSpec.is_wait ev = false)
                 (map (fun e => TimelineStart (tensor_name e) (response_type response))
                      entries)) as Hstart.
  { clear. induction entries; simpl; repeat constructor; assumption. }
  unfold PerformOperation. rewrite Htake.
  destruct (initialize_fusion_buffer InitializeBuffer w entries) as [[st w1] t_init]
    eqn:Hinit.
  assert (Forall (fun ev => TraceSpec.is_wait ev = false) t_init) as Hinit'.
  { unfold initialize_fusion_buffer in Hinit.
    destruct entries as [|e1 [|e2 es]]; try (injection Hinit as _ _ <-; constructor).
    destruct (InitializeBuffer w (device e1) (context e1)) as [status w0].
    injection Hinit as _ _ <-. repeat constructor. }
  destruct (negb (ok st)).
  - eexists _, _. split; [reflexivity|]. rewrite !Forall_app. auto.
  - rewrite Hwaiting. destruct fuel; cbn [wait_loop]; unfold execute_catching;
      destruct (ExecuteOperation w1 entries response) as [res w2];
      (eexists _, _; split; [reflexivity|]); rewrite Hend; cbn [app];
      rewrite !Forall_app; (split; [assumption|split; [assumption|]]);
      (constructor; [reflexivity|]);
      match goal with |- context [in_progress ?s] => destruct (in_progress s) end;
      auto.
Qed.

End Oracles.

(** X9: a name stays taken from an accepted enqueue on.  Once one of the
    three functions has accepted a tensor, every further enqueue under the
    same name, whatever the function, tensor or callback, is answered with
    the duplicate-name error and changes nothing. *)
Theorem X9_name_taken_after_accepted_enqueue
    g name ctx t ev dev cb result g1 ctx2 t2 ev2 dev2 cb2 again :
  enqueued_as g name ctx t ev dev cb result ->
  result = Some (Status_OK, g1) ->
  enqueued_as g1 name ctx2 t2 ev2 dev2 cb2 again ->
  again = Some (DUPLICATE_NAME_ERROR, g1).
Proof.
  intros Henq Hres Hagain.
  destruct (enqueued_as_ok _ _ _ _ _ _ _ _ _ Henq Hres)
    as (e & _ & _ & Htable & Hup & Hctl & _).
  assert (exists ctl, controller g = Some ctl) as [ctl Hctl0].
  { destruct (controller g) as [ctl|] eqn:H; [eauto|].
    exfalso. destruct Henq;
      unfold EnqueueTensorAllreduce, EnqueueTensorAllgather, EnqueueTensorBroadcast in Hres;
      rewrite H in Hres; discriminate. }
  rewrite Hctl0 in Hctl.
  destruct (enqueued_as_locked _ _ _ _ _ _ _ _ _ Hctl Hagain)
    as (e2 & message & -> & _).
  destruct (OperationsFacts.enqueue_locked_cases g1 name e2 message) as (_ & Hdup & _).
  rewrite Hdup; [reflexivity|assumption|].
  rewrite Htable, lookup_insert_eq. eauto.
Qed.

(** X10: nothing is accepted after the shutdown sequence.  On the state
    that the background thread leaves behind, each of the three enqueue
    functions answers the shutdown error and changes nothing: the tensor
    table stays empty. *)
Theorem X10_no_enqueue_after_shutdown state ctl name ctx t ev dev cb result :
  controller state = Some ctl ->
  enqueued_as (fst (BackgroundThreadLoop_shutdown state)) name ctx t ev dev cb result ->
  result = Some (SHUT_DOWN_ERROR, fst (BackgroundThreadLoop_shutdown state))
  /\ tensor_table (fst (BackgroundThreadLoop_shutdown state)) = ∅.
Proof.
  intros Hctl Henq.
  set (state' := fst (BackgroundThreadLoop_shutdown state)) in *.
  assert (controller state' = Some ctl) as Hctl' by exact Hctl.
  destruct (enqueued_as_locked _ _ _ _ _ _ _ _ _ Hctl' Henq) as (e & message & -> & _).
  destruct (OperationsFacts.enqueue_locked_cases state' name e message) as (Hdown & _).
  rewrite Hdown; [|reflexivity]. split; reflexivity.
Qed.


Lemma X7_queued_request_describes_tensor_witness :
  exists g' m,
    EnqueueTensorBroadcast running 0 some_tensor None 1 None "c" 0 9%nat
    = Some (Status_OK, g')
    /\ message_queue g' = [m]
    /\ Request.tensor_shape m = [2; 3]
    /\ Request.root_rank m = 1.
Proof.
  destruct (X7_queued_request_describes_tensor running rank0 0 some_tensor None 1 None
              "c" 0 9%nat eq_refl eq_refl eq_refl)
    as (_ & _ & g' & m & e & Hres & Hqueue & Hm & Hroot & _).
  exists g', m. split; [exact Hres|split; [exact Hqueue|split; [|exact Hroot]]].
  destruct Hm as (_ & _ & _ & _ & _ & Hshape). exact Hshape.
Defined.

Lemma X8_enqueue_then_perform_restores_table_witness :
  match PerformOperation clock_ready clock_sleep buffer_ok execute_ok 0 0%nat
          (tensor_table LoopExamples.accepted_c) LoopExamples.response_c with
  | Returned (tt', _, _) => tt' = two_entries /\ tt' !! "c" = None
  | _ => False
  end.
Proof.
  destruct (PerformOperation clock_ready clock_sleep buffer_ok execute_ok 0 0%nat
              (tensor_table LoopExamples.accepted_c) LoopExamples.response_c)
    as [[[tt' w'] trace]| |] eqn:Hrun.
  - destruct (X8_enqueue_then_perform_restores_table
                clock_ready clock_sleep buffer_ok execute_ok
                running "c" 0 some_tensor None 0 9%nat LoopExamples.enqueue_c
                LoopExamples.accepted_c LoopExamples.response_c 0 0%nat tt' w' trace
                (as_allreduce _ _ _ _ _ _ _ None) eq_refl eq_refl Hrun)
      as (Htable & Hfree & _).
    split; [exact Htable|exact Hfree].
  - vm_compute in Hrun. discriminate.
  - vm_compute in Hrun. discriminate.
Defined.

Lemma X9_name_taken_after_accepted_enqueue_witness :
  EnqueueTensorAllgather LoopExamples.accepted_c 1 some_tensor (Some 4%nat) "c" 2 10%nat
  = Some (DUPLICATE_NAME_ERROR, LoopExamples.accepted_c).
Proof.
  apply (X9_name_taken_after_accepted_enqueue
           running "c" 0 some_tensor None 0 9%nat LoopExamples.enqueue_c
           LoopExamples.accepted_c 1 some_tensor (Some 4%nat) 2 10%nat _
           (as_allreduce _ _ _ _ _ _ _ None) eq_refl (as_allgather _ _ _ _ _ _ _)).
Defined.

Lemma X10_no_enqueue_after_shutdown_witness :
  EnqueueTensorAllreduce (fst (BackgroundThreadLoop_shutdown running))
    0 some_tensor None None "c" 0 9%nat
  = Some (SHUT_DOWN_ERROR, fst (BackgroundThreadLoop_shutdown running))
  /\ tensor_table (fst (BackgroundThreadLoop_shutdown running)) = ∅.
Proof.
  apply (X10_no_enqueue_after_shutdown running rank0 "c" 0 some_tensor None 0 9%nat _
           eq_refl (as_allreduce _ _ _ _ _ _ _ None)).
Defined.

Lemma X11_no_ready_event_no_waiting_witness :
  exists w' trace,
    PerformOperation clock_ready clock_sleep buffer_ok execute_ok 0 0%nat two_entries
      LoopExamples.response_b
    = Returned (delete "b" two_entries, w', trace)
    /\ Forall (fun ev => TraceSpec.is_wait ev = false) trace.
Proof.
  apply (X11_no_ready_event_no_waiting clock_ready clock_sleep buffer_ok execute_ok
           0 0%nat two_entries LoopExamples.response_b [entry_b] (delete "b" two_entries)).
  - vm_compute. reflexivity.
  - repeat constructor.
Defined.

End EnqueueFacts.

(* ===================================================================== *)
(** * Further properties of the hierarchical split *)
(* ===================================================================== *)

Module AdasumSplitFacts.
Import AdasumCudaAllreduceOp AdasumSpec AdasumFacts.

Lemma in_slice_add r p a b c :
  0 <= r -> 0 <= p -> a <= b <= c ->
  in_slice r p a b + in_slice r p b c = in_slice r p a c.
Proof.
  intros Hr Hp Habc. unfold in_slice.
  assert (r * p <= (r + 1) * p) by nia.
  generalize dependent (r * p). generalize dependent ((r + 1) * p). intros. lia.
Qed.

Lemma in_remainder_add from a b c :
  a <= b <= c ->
  in_remainder from a b + in_remainder from b c = in_remainder from a c.
Proof. unfold in_remainder. lia. Qed.

Lemma tensor_counts_homogeneous_length r ls p root entries : forall sofar,
  length (tensor_counts_homogeneous r ls p root sofar entries) = length entries.
Proof.
  induction entries as [|e entries IH]; intros sofar; [reflexivity|].
  cbn [tensor_counts_homogeneous length]. now rewrite IH.
Qed.

(** The counts of one rank add up to the part of the data that lies in
    its slice (and, on the root, in the remainder region). *)
Lemma tensor_counts_homogeneous_sum r ls p root entries : forall sofar,
  0 <= r -> r + 1 <= ls -> ls <= INT_MAX -> 0 <= p -> ls * p <= INT64_MAX ->
  0 <= sofar ->
  Forall (fun x => 0 <= x <= INT_MAX) (elements entries) ->
  sofar + Zsum (elements entries) <= INT64_MAX ->
  Zsum (tensor_counts_homogeneous r ls p root sofar entries)
  = in_slice r p sofar (sofar + Zsum (elements entries))
    + (if root then in_remainder (ls * p) sofar (sofar + Zsum (elements entries)) else 0).
Proof.
  induction entries as [|e entries IH]; intros sofar Hr Hrls Hls Hp Hlsp Hsofar Hpos Hmax.
  - cbn [tensor_counts_homogeneous elements map Zsum foldr].
    unfold in_slice, in_remainder. rewrite Z.add_0_r.
    assert (r * p <= (r + 1) * p) by nia. destruct root; lia.
  - cbn [elements map Zsum foldr] in Hpos, Hmax |- *.
    fold (elements entries) in Hpos, Hmax |- *.
    fold (Zsum (elements entries)) in Hmax |- *.
    inversion Hpos as [|? ? He Hrest]; subst.
    assert (0 <= Zsum (elements entries))
      by (apply Zsum_nonneg; eapply Forall_impl; [exact Hrest|simpl; lia]).
    pose proof (tensor_counts_homogeneous_lookup r ls p root sofar (e :: entries) 0 e
                  Hr Hrls Hls Hp Hlsp Hsofar Hpos Hmax eq_refl) as Hhead.
    cbn [tensor_counts_homogeneous] in Hhead |- *.
    match type of Hhead with
    | (?x :: ?l) !! 0%nat = Some ?v =>
      change (Some x = Some v) in Hhead; injection Hhead as Hhead
    end.
    cbn [Zsum foldr]. rewrite Hhead. clear Hhead.
    fold (Zsum (tensor_counts_homogeneous r ls p root
                  (int64_t (sofar + num_elements (tensor e))) entries)).
    rewrite (int64_id (sofar + num_elements (tensor e))) by fits.
    rewrite IH by (try assumption; lia).
    unfold offset. cbn [take Zsum foldr]. cbv zeta. rewrite Z.add_0_r.
    set (m := num_elements (tensor e)) in *. set (N := Zsum (elements entries)) in *.
    rewrite <- (in_slice_add r p sofar (sofar + m) (sofar + (m + N))) by lia.
    rewrite <- (in_remainder_add (ls * p) sofar (sofar + m) (sofar + (m + N))) by lia.
    rewrite !Z.add_assoc.
    unfold in_remainder.
    destruct root; cbn [andb]; [destruct (Z.leb_spec (ls * p) (sofar + m))|]; lia.
Qed.

(** X12: the tensor counts of a rank account for exactly the data in what
    the rank owns.  On a homogeneous cluster, under the size bounds of the
    split, the [tensor_counts] handed to the fused allreduce have one count
    per entry, and their sum plus the padding elements that fall into the
    rank's slice is [total_num_elements]; so the counts never exceed what
    the rank owns, and they add up to it when nothing is padded. *)
Theorem X12_tensor_counts_sum_to_owned_data
    unit ctl element_size fused_len entries r :
  IsHomogeneous ctl = true -> entries <> [] ->
  Forall (fun e => output e <> None) entries ->
  1 <= GetLocalSize ctl <= INT_MAX -> 1 <= unit ->
  GetLocalSize ctl * unit <= INT_MAX ->
  Forall (fun x => 0 <= x <= INT_MAX) (elements entries) ->
  Zsum (elements entries) + GetLocalSize ctl * unit <= INT64_MAX ->
  0 <= r < GetLocalSize ctl ->
  exists s counts,
    NcclHierarchical unit (at_local_rank ctl r) element_size fused_len entries = Some s
    /\ tensor_counts s = Some counts
    /\ length counts = length entries
    /\ Zsum counts
       + in_slice r (num_elements_per_rank s) (Zsum (elements entries))
           (split_num_elements s)
       = total_num_elements s
    /\ Zsum counts <= total_num_elements s
    /\ (split_num_elements s = Zsum (elements entries) ->
        Zsum counts = total_num_elements s).
Proof.
  intros Hhom Hne Hout Hls Hunit Hdiv Hpos Hmax Hr.
  destruct (rank_split unit ctl element_size fused_len entries r
              Hhom Hne Hout Hls Hunit Hdiv Hpos Hmax Hr)
    as (s & counts & Hs & Hn & Hper & Hrem & Hc & _).
  cbv zeta in Hn, Hper, Hrem.
  set (ls := GetLocalSize ctl) in *.
  set (N := Zsum (elements entries)) in *.
  set (n := fused_total unit ls entries) in *.
  set (p := n / ls) in *.
  destruct (NcclHierarchical_fields _ _ _ _ _ _ Hs)
    as (_ & _ & _ & _ & _ & Hroot & Hisroot & Htotal & Hcounts).
  cbn [at_local_rank GetLocalSize GetLocalRank IsHomogeneous] in Hroot, Hisroot, Hcounts.
  rewrite Hhom in Hroot. fold ls in Hroot, Hcounts.
  rewrite (int_id (ls - 1)) in Hroot by fits.
  rewrite (Hcounts Hhom) in Hc. injection Hc as <-.
  destruct (fused_total_bounds unit ls entries ltac:(lia) Hunit Hpos) as [Hbound Hmult].
  fold n N in Hbound, Hmult.
  assert (Forall (fun x => 0 <= x) (elements entries)) as Hpos'
    by (eapply Forall_impl; [exact Hpos|simpl; lia]).
  pose proof (Zsum_nonneg _ Hpos') as HN. fold N in HN.
  assert (0 <= p) by (apply Z.div_pos; lia).
  assert (ls * p <= n) by (apply Z.mul_div_le; lia).
  pose proof (Z.div_mod n ls ltac:(lia)) as Hdm. fold p in Hdm.
  pose proof (Z.mod_pos_bound n ls ltac:(lia)) as Hmod.
  assert (n = N \/ n mod ls = 0) as Hcase.
  { unfold n, fused_total in *. destruct (Z.ltb_spec 1 (Z.of_nat (length entries))).
    - right. apply Z.mod_divide; [lia|]. apply Hmult. lia.
    - now left. }
  assert (Zsum (tensor_counts_homogeneous r ls (num_elements_per_rank s)
                  (is_root_rank s) 0 entries)
          + in_slice r (num_elements_per_rank s) N (split_num_elements s)
          = total_num_elements s) as Hsum.
  { rewrite Hper, Hn.
    rewrite tensor_counts_homogeneous_sum by (try assumption; lia).
    rewrite Z.add_0_l. fold N.
    rewrite Htotal, Hisroot, Hroot, Hper, Hrem.
    assert (r * p <= (r + 1) * p) by nia.
    assert ((r + 1) * p <= ls * p) by nia.
    assert (0 <= r * p) by nia.
    unfold in_slice, in_remainder.
    destruct (Z.eqb_spec r (ls - 1)) as [->|Hnot].
    - rewrite int64_id by fits.
      replace ((ls - 1 + 1) * p) with (ls * p) in * by lia.
      destruct Hcase; lia.
    - lia. }
  exists s, (tensor_counts_homogeneous r ls (num_elements_per_rank s)
               (is_root_rank s) 0 entries).
  split; [assumption|split; [now apply Hcounts|split; [|split; [assumption|split]]]].
  - apply tensor_counts_homogeneous_length.
  - unfold in_slice in Hsum. lia.
  - intros Heq. rewrite Heq in Hsum. unfold in_slice in Hsum.
    assert (r * (num_elements_per_rank s) <= (r + 1) * (num_elements_per_rank s))
      by (rewrite Hper; nia).
    lia.
Qed.


Lemma X12_tensor_counts_sum_to_owned_data_witness :
  exists s counts,
    NcclHierarchical 64 (at_local_rank (homogeneous_rank 0 4) 3) 4 24000 three_tensors
    = Some s
    /\ tensor_counts s = Some counts
    /\ length counts = 3%nat
    /\ Zsum counts + in_slice 3 (num_elements_per_rank s) 6000 (split_num_elements s)
       = total_num_elements s
    /\ Zsum counts <= total_num_elements s
    /\ (split_num_elements s = 6000 -> Zsum counts = total_num_elements s).
Proof.
  assert (GetLocalSize (homogeneous_rank 0 4) = 4) as Hls by reflexivity.
  apply (X12_tensor_counts_sum_to_owned_data 64 (homogeneous_rank 0 4) 4 24000
           three_tensors 3 eq_refl).
  - discriminate.
  - repeat constructor; discriminate.
  - unfold INT_MAX. lia.
  - lia.
  - unfold INT_MAX. lia.
  - unfold INT_MAX. repeat constructor; simpl; lia.
  - unfold INT64_MAX. simpl. lia.
  - lia.
Defined.

(** X13: on a cluster that is not homogeneous the local root owns
    everything and nothing is padded.  For entries whose element counts
    fit an [int] and whose byte size fits an [int64_t], every local rank
    computes the plain sum of the element counts as [num_elements] (also
    when several entries are fused), no per-rank part, and the whole sum as
    remainder with root [0].  Local rank [0] owns all elements and bytes
    and its [tensor_counts] are the element counts of the entries; every
    other local rank owns nothing and computes no [tensor_counts], as it
    skips the host copy and the cross-node allreduce. *)
Theorem X13_non_homogeneous_root_owns_all
    unit ctl element_size fused_len entries r :
  IsHomogeneous ctl = false -> entries <> [] ->
  Forall (fun e => output e <> None) entries ->
  Forall (fun x => 0 <= x <= INT_MAX) (elements entries) ->
  0 <= element_size ->
  element_size * Zsum (elements entries) <= INT64_MAX ->
  Zsum (elements entries) <= INT64_MAX ->
  exists s,
    NcclHierarchical unit (at_local_rank ctl r) element_size fused_len entries = Some s
    /\ split_num_elements s = Zsum (elements entries)
    /\ num_elements_per_rank s = 0
    /\ num_elements_remaining s = Zsum (elements entries)
    /\ split_root_rank s = 0
    /\ rank_offset s = 0 /\ remainder_offset s = 0
    /\ (r = 0 ->
        tensor_counts s = Some (elements entries)
        /\ total_num_elements s = Zsum (elements entries)
        /\ total_buffer_len s = element_size * Zsum (elements entries))
    /\ (r <> 0 ->
        tensor_counts s = None /\ total_num_elements s = 0 /\ total_buffer_len s = 0).
Proof.
  intros Hhom Hne Hout Hpos Hes Hbytes Hmax.
  assert (Forall (fun x => 0 <= x) (elements entries)) as Hpos'
    by (eapply Forall_impl; [exact Hpos|simpl; lia]).
  pose proof (Zsum_nonneg _ Hpos') as HN.
  pose proof (sum_num_elements_exact entries Hpos' Hmax) as Hsum.
  unfold NcclHierarchical.
  destruct entries as [|first_entry rest]; [congruence|].
  cbn [at_local_rank GetLocalSize GetLocalRank IsHomogeneous].
  rewrite Hhom. cbn [andb orb].
  assert (exists len,
             (if 1 <? Z.of_nat (length (first_entry :: rest)) then Some fused_len
              else (fun o => size_t (size_bytes o)) <$> output first_entry) = Some len)
    as [len ->].
  { destruct (1 <? Z.of_nat (length (first_entry :: rest))); [eauto|].
    inversion Hout as [|? ? H0 _]; subst.
    destruct (output first_entry); [eauto|congruence]. }
  cbn [mbind option_bind]. rewrite Hsum.
  set (N := Zsum (elements (first_entry :: rest))) in *.
  eexists. split; [reflexivity|].
  cbn [split_num_elements num_elements_per_rank num_elements_remaining split_root_rank
         rank_offset remainder_offset tensor_counts total_num_elements total_buffer_len].
  rewrite Z.mul_0_r. change (int64_t 0) with 0. change (size_t 0) with 0.
  rewrite !Z.mul_0_l. change (size_t 0) with 0.
  do 6 (split; [reflexivity|]).
  destruct (Z.eqb_spec r 0) as [Hr|Hr]; (split; [intros Hr'|intros Hr']); try congruence.
  - split; [|split].
    + f_equal. unfold tensor_counts_root_owns_all, elements.
      apply map_ext_in. intros x Hx. apply int_id.
      rewrite Forall_forall in Hpos.
      assert (0 <= num_elements (tensor x) <= INT_MAX) as Hb.
      { apply Hpos. apply list_elem_of_In. apply in_map_iff. exists x.
        split; [reflexivity|assumption]. }
      fits.
    + rewrite Z.add_0_l. apply int64_id. fits.
    + rewrite Z.add_0_l. clearbody N.
      assert (0 <= element_size * N) by nia.
      rewrite (int64_id (element_size * N)) by fits.
      rewrite (size_t_id (element_size * N)) by (unfold INT64_MAX in *; lia).
      rewrite (size_t_id (element_size * N)) by (unfold INT64_MAX in *; lia).
      apply int64_id. fits.
  - auto.
Qed.

Lemma X13_non_homogeneous_root_owns_all_witness :
  exists s,
    NcclHierarchical 64
      (at_local_rank (mkController 5 0 8 3 false false) 0) 4 24000 three_tensors = Some s
    /\ split_num_elements s = 6000
    /\ tensor_counts s = Some [1000; 2000; 3000]
    /\ total_buffer_len s = 24000.
Proof.
  destruct (X13_non_homogeneous_root_owns_all 64 (mkController 5 0 8 3 false false)
              4 24000 three_tensors 0 eq_refl)
    as (s & Hs & Hn & _ & _ & _ & _ & _ & Hroot & _).
  - discriminate.
  - repeat constructor; discriminate.
  - unfold INT_MAX. repeat constructor; simpl; lia.
  - lia.
  - unfold INT64_MAX. simpl. lia.
  - unfold INT64_MAX. simpl. lia.
  - exists s. destruct (Hroot eq_refl) as (Hcounts & _ & Hbytes).
    split; [exact Hs|split; [exact Hn|split; [exact Hcounts|exact Hbytes]]].
Defined.


(** The byte quantities of the split, read off the code. *)
Lemma NcclHierarchical_bytes unit ctl element_size fused_len entries s :
  NcclHierarchical unit ctl element_size fused_len entries = Some s ->
  buffer_len_per_rank s = size_t (int64_t (element_size * num_elements_per_rank s))
  /\ rank_offset s = size_t (buffer_len_per_rank s * GetLocalRank ctl)
  /\ buffer_len_remaining s
     = size_t (int64_t (element_size * num_elements_remaining s))
  /\ remainder_offset s = size_t (buffer_len_per_rank s * GetLocalSize ctl)
  /\ total_buffer_len s
     = (if is_root_rank s
        then int64_t (size_t (buffer_len_per_rank s + buffer_len_remaining s))
        else int64_t (buffer_len_per_rank s)).
Proof.
  unfold NcclHierarchical. destruct entries as [|first_entry rest]; [discriminate|].
  destruct (if 1 <? Z.of_nat (length (first_entry :: rest)) then Some fused_len
            else (fun o => size_t (size_bytes o)) <$> output first_entry)
    as [len|]; [|discriminate].
  cbn [mbind option_bind].
  set (fused := IsHomogeneous ctl && (1 <? Z.of_nat (length (first_entry :: rest)))).
  destruct (fused && _); [discriminate|].
  destruct (IsHomogeneous ctl && (GetLocalSize ctl =? 0)); [discriminate|].
  destruct fused; intros [= <-];
    cbn [buffer_len_per_rank rank_offset buffer_len_remaining remainder_offset
           total_buffer_len num_elements_per_rank num_elements_remaining is_root_rank];
    repeat split; reflexivity.
Qed.

(** X14: the byte regions of the local ranks tile the buffer.  On a
    homogeneous cluster, under the size bounds of the split, the region
    that local rank [r] copies to the host and back starts at
    [r * num_elements_per_rank * element_size], ends where the region of
    rank [r + 1] starts, and the region of the last rank, which includes
    the remainder, ends at [num_elements * element_size]: together the
    regions cover every byte of the data once. *)
Theorem X14_rank_regions_tile_buffer
    unit ctl element_size fused_len entries r :
  IsHomogeneous ctl = true -> entries <> [] ->
  Forall (fun e => output e <> None) entries ->
  1 <= GetLocalSize ctl <= INT_MAX -> 1 <= unit ->
  GetLocalSize ctl * unit <= INT_MAX ->
  Forall (fun x => 0 <= x <= INT_MAX) (elements entries) ->
  Zsum (elements entries) + GetLocalSize ctl * unit <= INT64_MAX ->
  0 <= element_size ->
  (Zsum (elements entries) + GetLocalSize ctl * unit) * element_size <= INT64_MAX ->
  0 <= r < GetLocalSize ctl ->
  exists s,
    NcclHierarchical unit (at_local_rank ctl r) element_size fused_len entries = Some s
    /\ rank_offset s = r * (num_elements_per_rank s * element_size)
    /\ rank_offset s + total_buffer_len s
       = (if r =? GetLocalSize ctl - 1
          then split_num_elements s * element_size
          else (r + 1) * (num_elements_per_rank s * element_size))
    /\ remainder_offset s
       = GetLocalSize ctl * (num_elements_per_rank s * element_size)
    /\ 0 <= total_buffer_len s.
Proof.
  intros Hhom Hne Hout Hls Hunit Hdiv Hpos Hmax Hes Hbytes Hr.
  destruct (rank_split unit ctl element_size fused_len entries r
              Hhom Hne Hout Hls Hunit Hdiv Hpos Hmax Hr)
    as (s & counts & Hs & Hn & Hper & Hrem & _ & _).
  cbv zeta in Hn, Hper, Hrem.
  set (ls := GetLocalSize ctl) in *.
  set (n := fused_total unit ls entries) in *.
  destruct (fused_total_bounds unit ls entries ltac:(lia) Hunit Hpos) as [Hbound _].
  fold n in Hbound.
  assert (Forall (fun x => 0 <= x) (elements entries)) as Hpos'
    by (eapply Forall_impl; [exact Hpos|simpl; lia]).
  pose proof (Zsum_nonneg _ Hpos') as HN.
  destruct (NcclHierarchical_fields _ _ _ _ _ _ Hs)
    as (_ & _ & _ & _ & _ & Hroot & Hisroot & _).
  destruct (NcclHierarchical_bytes _ _ _ _ _ _ Hs)
    as (Hblpr & Hoff & Hblrem & Hremoff & Htotal).
  cbn [at_local_rank GetLocalSize GetLocalRank IsHomogeneous] in Hroot, Hisroot, Hoff,
    Hremoff.
  rewrite Hhom in Hroot. fold ls in Hroot, Hremoff.
  rewrite (int_id (ls - 1)) in Hroot by fits.
  set (p := num_elements_per_rank s) in *.
  set (q := num_elements_remaining s) in *.
  pose proof (Z.div_mod n ls ltac:(lia)) as Hdm.
  pose proof (Z.mod_pos_bound n ls ltac:(lia)) as Hmod.
  assert (0 <= p) by (rewrite Hper; apply Z.div_pos; lia).
  rewrite <- Hper, <- Hrem in Hdm.
  assert (0 <= q < ls) by (rewrite Hrem; assumption).
  assert (n * element_size <= INT64_MAX) as Hnes by (unfold INT64_MAX in *; nia).
  assert (0 <= p * element_size) by nia.
  assert (0 <= q * element_size) by nia.
  assert (ls * (p * element_size) + q * element_size = n * element_size) as Hsplit
    by nia.
  assert (r * (p * element_size) <= (r + 1) * (p * element_size)) by nia.
  assert ((r + 1) * (p * element_size) <= ls * (p * element_size)) by nia.
  assert (0 <= r * (p * element_size)) by nia.
  assert (buffer_len_per_rank s = p * element_size) as Hblpr'.
  { rewrite Hblpr. replace (element_size * p) with (p * element_size) by ring.
    apply size_t_int64_id. lia. }
  assert (buffer_len_remaining s = q * element_size) as Hblrem'.
  { rewrite Hblrem. replace (element_size * q) with (q * element_size) by ring.
    apply size_t_int64_id. lia. }
  assert (rank_offset s = r * (p * element_size)) as Hoff'.
  { rewrite Hoff, Hblpr'. replace (p * element_size * r) with (r * (p * element_size))
      by ring.
    apply size_t_id. unfold INT64_MAX in *. lia. }
  assert (total_buffer_len s
          = p * element_size + (if r =? ls - 1 then q * element_size else 0)) as Htotal'.
  { rewrite Htotal, Hisroot, Hroot, Hblpr', Hblrem'.
    destruct (r =? ls - 1).
    - rewrite size_t_id by (unfold INT64_MAX in *; lia). apply int64_id. fits.
    - rewrite Z.add_0_r. apply int64_id. fits. }
  exists s. split; [assumption|split; [assumption|split; [|split]]].
  - rewrite Hoff', Htotal', Hn.
    destruct (Z.eqb_spec r (ls - 1)) as [->|Hnot]; lia.
  - rewrite Hremoff, Hblpr'.
    replace (p * element_size * ls) with (ls * (p * element_size)) by ring.
    apply size_t_id. unfold INT64_MAX in *. lia.
  - rewrite Htotal'. destruct (r =? ls - 1); lia.
Qed.

Lemma X14_rank_regions_tile_buffer_witness :
  exists s,
    NcclHierarchical 64 (at_local_rank (homogeneous_rank 0 4) 3) 4 0 [entry_of 1003]
    = Some s
    /\ rank_offset s = 3 * (num_elements_per_rank s * 4)
    /\ rank_offset s + total_buffer_len s = split_num_elements s * 4
    /\ remainder_offset s = 4 * (num_elements_per_rank s * 4)
    /\ 0 <= total_buffer_len s.
Proof.
  assert (GetLocalSize (homogeneous_rank 0 4) = 4) as Hls by reflexivity.
  apply (X14_rank_regions_tile_buffer 64 (homogeneous_rank 0 4) 4 0 [entry_of 1003] 3
           eq_refl).
  - discriminate.
  - repeat constructor; discriminate.
  - unfold INT_MAX. lia.
  - lia.
  - unfold INT_MAX. lia.
  - unfold INT_MAX. repeat constructor; simpl; lia.
  - unfold INT64_MAX. simpl. lia.
  - lia.
  - unfold INT64_MAX. simpl. lia.
  - lia.
Defined.

End AdasumSplitFacts.

(** ** The NCCL collectives of [NcclHierarchical] *)

Module AdasumCallsFacts.
Import AdasumCudaAllreduceOp AdasumSpec AdasumFacts AdasumCalls.

(** The element counts and the root of the split do not depend on the
    local rank. *)
Lemma split_independent_of_local_rank unit ctl element_size fused_len entries r1 r2 s1 s2 :
  NcclHierarchical unit (at_local_rank ctl r1) element_size fused_len entries = Some s1 ->
  NcclHierarchical unit (at_local_rank ctl r2) element_size fused_len entries = Some s2 ->
  split_num_elements s1 = split_num_elements s2
  /\ num_elements_per_rank s1 = num_elements_per_rank s2
  /\ num_elements_remaining s1 = num_elements_remaining s2
  /\ split_root_rank s1 = split_root_rank s2.
Proof.
  intros H1 H2.
  destruct (NcclHierarchical_fields _ _ _ _ _ _ H1)
    as (_ & Hn1 & _ & Hper1 & Hrem1 & Hroot1 & _).
  destruct (NcclHierarchical_fields _ _ _ _ _ _ H2)
    as (_ & Hn2 & _ & Hper2 & Hrem2 & Hroot2 & _).
  cbv zeta in *. cbn [at_local_rank GetLocalSize IsHomogeneous] in *.
  assert (split_num_elements s1 = split_num_elements s2) as Hn by congruence.
  rewrite Hn in Hper1, Hrem1. repeat split; congruence.
Qed.

Lemma collectives_app cs1 cs2 :
  collectives (cs1 ++ cs2) = collectives cs1 ++ collectives cs2.
Proof. unfold collectives. apply omap_app. Qed.

(** The collectives among the calls, read off [calls]. *)
Lemma collectives_of_calls ctl entries s :
  collectives (calls ctl entries s)
  = ((if 0 <? num_elements_per_rank s
      then [ReduceScatter (size_t (num_elements_per_rank s))] else [])
     ++ (if 0 <? num_elements_remaining s
         then [Reduce (size_t (num_elements_remaining s)) (split_root_rank s)] else []))
    ++ ((if 0 <? num_elements_per_rank s
         then [AllGather (size_t (num_elements_per_rank s))] else [])
        ++ (if 0 <? num_elements_remaining s
            then [Bcast (size_t (num_elements_remaining s)) (split_root_rank s)] else [])).
Proof.
  unfold calls. rewrite !collectives_app.
  destruct (1 <? Z.of_nat (length entries)), (0 <? num_elements_per_rank s),
    (0 <? num_elements_remaining s), (IsHomogeneous ctl || is_root_rank s),
    (tensor_counts s); reflexivity.
Qed.

(** X15: all local ranks issue the same NCCL collectives.  Whatever the
    local rank, [NcclHierarchical] issues the same sequence of NCCL
    collectives for the same entries, with the same element counts and the
    same root, although the ranks differ in what they copy to the host and
    reduce across nodes; and the sequence consists of the scattering
    collectives (reduce-scatter, reduce) followed by the collectives that
    undo them (all-gather, broadcast) with the same counts and root. *)
Theorem X15_same_collectives_on_all_local_ranks
    unit ctl element_size fused_len entries r1 r2 cs1 cs2 :
  NcclHierarchical_calls unit (at_local_rank ctl r1) element_size fused_len entries
  = Some cs1 ->
  NcclHierarchical_calls unit (at_local_rank ctl r2) element_size fused_len entries
  = Some cs2 ->
  collectives cs1 = collectives cs2
  /\ exists scattering,
       collectives cs1 = scattering ++ map gathers scattering
       /\ Forall (fun c => is_scattering c = true) scattering.
Proof.
  unfold NcclHierarchical_calls. intros H1 H2.
  destruct (NcclHierarchical unit (at_local_rank ctl r1) element_size fused_len entries)
    as [s1|] eqn:Hs1; [|discriminate].
  destruct (NcclHierarchical unit (at_local_rank ctl r2) element_size fused_len entries)
    as [s2|] eqn:Hs2; [|discriminate].
  injection H1 as <-. injection H2 as <-.
  destruct (split_independent_of_local_rank _ _ _ _ _ _ _ _ _ Hs1 Hs2)
    as (_ & Hper & Hrem & Hroot).
  rewrite !collectives_of_calls. split.
  - now rewrite Hper, Hrem, Hroot.
  - eexists. split.
    + f_equal. rewrite map_app.
      destruct (0 <? num_elements_per_rank s1), (0 <? num_elements_remaining s1);
        reflexivity.
    + destruct (0 <? num_elements_per_rank s1), (0 <? num_elements_remaining s1);
        repeat constructor.
Qed.

Lemma X15_same_collectives_on_all_local_ranks_witness :
  exists cs1 cs2,
    NcclHierarchical_calls 64 (at_local_rank (homogeneous_rank 0 4) 0) 4 0
      [entry_of 1003] = Some cs1
    /\ NcclHierarchical_calls 64 (at_local_rank (homogeneous_rank 0 4) 3) 4 0
         [entry_of 1003] = Some cs2
    /\ collectives cs1 = collectives cs2
    /\ collectives cs1
       = [ReduceScatter 250; Reduce 3 3; AllGather 250; Bcast 3 3].
Proof.
  destruct (NcclHierarchical_calls 64 (at_local_rank (homogeneous_rank 0 4) 0) 4 0
              [entry_of 1003]) as [cs1|] eqn:H1; [|discriminate].
  destruct (NcclHierarchical_calls 64 (at_local_rank (homogeneous_rank 0 4) 3) 4 0
              [entry_of 1003]) as [cs2|] eqn:H2; [|discriminate].
  exists cs1, cs2. split; [reflexivity|split; [reflexivity|]].
  destruct (X15_same_collectives_on_all_local_ranks 64 (homogeneous_rank 0 4) 4 0
              [entry_of 1003] 0 3 cs1 cs2 H1 H2) as [Hsame _].
  split; [exact Hsame|].
  vm_compute in H1. injection H1 as <-. reflexivity.
Defined.

End AdasumCallsFacts.

(* ===================================================================== *)
(** * Further properties of timeline.cc *)
(* ===================================================================== *)

Module TimelineEventFacts.
Import Timeline TimelineSpec TimelineFacts.

Lemma events_app l k : events (l ++ k) = events l ++ events k.
Proof. unfold events. apply List.filter_app. Qed.

(** A call on a stream that is good and never fails: the file gains the
    metadata of a new name and then the event of the call. *)
Lemma write_never_failing flush tl c :
  consistent tl -> Z.of_nat (size (tensor_table_ tl)) < INT_MAX ->
  good (file_ tl) = true -> room (file_ tl) = None ->
  is_int64 (call_now c - start_time_ tl) ->
  let tl' := write flush tl c in
  exists meta,
    written (file_ tl')
    = written (file_ tl) ++ meta ++ [event_of (start_time_ tl) (tensor_table_ tl') c]
    /\ events meta = []
    /\ good (file_ tl') = true /\ room (file_ tl') = None
    /\ start_time_ tl' = start_time_ tl
    /\ (tensor_table_ tl' = tensor_table_ tl
        \/ tensor_table_ tl !! call_tensor_name c = None
           /\ tensor_table_ tl'
              = <[call_tensor_name c := Z.of_nat (size (tensor_table_ tl)) + 1]>
                  (tensor_table_ tl)).
Proof.
  intros Hc Hsize Hgood Hroom Hts tl'. subst tl'.
  unfold write, WriteEvent, subscript, event_of.
  rewrite Hgood. cbn [negb].
  rewrite (int64_id _ Hts).
  destruct (file_ tl) as [g out rm] eqn:Hfile. cbn [good room written] in *. subst g rm.
  destruct (tensor_table_ tl !! call_tensor_name c) as [p|] eqn:Hp.
  - rewrite Hp. cbn [from_option id].
    assert (p <> 0) as Hp0 by (pose proof (pid_range _ Hc _ _ Hp); lia).
    apply Z.eqb_neq in Hp0. rewrite Hp0.
    cbn [file_ tensor_table_ start_time_ put good room written].
    exists []. rewrite Hp. cbn [from_option id app].
    repeat split; auto.
  - rewrite lookup_insert_eq. cbn [from_option id]. rewrite Z.eqb_refl.
    rewrite insert_insert_eq, map_size_insert_None by assumption.
    rewrite int_id by (unfold is_int, INT_MIN, INT_MAX in *; lia).
    cbn [file_ tensor_table_ start_time_ put good room written].
    rewrite lookup_insert_eq. cbn [from_option id].
    replace (Z.of_nat (S (size (tensor_table_ tl))))
      with (Z.of_nat (size (tensor_table_ tl)) + 1) by lia.
    eexists [_; _]. rewrite <- !app_assoc. cbn [app].
    repeat split; auto.
Qed.

(** The events of a run on a never-failing stream. *)
Lemma run_never_failing flush calls : forall tl,
  consistent tl ->
  Z.of_nat (size (tensor_table_ tl)) + Z.of_nat (length calls) <= INT_MAX ->
  good (file_ tl) = true -> room (file_ tl) = None ->
  Forall (fun c => is_int64 (call_now c - start_time_ tl)) calls ->
  let tl' := run flush tl calls in
  events (written (file_ tl'))
  = events (written (file_ tl)) ++ map (event_of (start_time_ tl) (tensor_table_ tl')) calls
  /\ good (file_ tl') = true.
Proof.
  induction calls as [|c calls IH]; intros tl Hc Hsize Hgood Hroom Hts tl'; subst tl'.
  - change (run flush tl []) with tl. cbn [map]. rewrite app_nil_r. auto.
  - change (run flush tl (c :: calls)) with (run flush (write flush tl c) calls).
    cbn [length] in Hsize. inversion Hts as [|? ? Hc0 Hrest]; subst.
    destruct (write_never_failing flush tl c Hc ltac:(lia) Hgood Hroom Hc0)
      as (meta & Hout & Hmeta & Hgood' & Hroom' & Hstart & Htable).
    pose proof (consistent_write flush tl c Hc ltac:(lia)) as Hc'.
    pose proof (write_size flush tl c) as Hgrow.
    destruct (consistent_run flush calls (write flush tl c) Hc' ltac:(lia))
      as (_ & _ & Hkeep).
    destruct (IH (write flush tl c) Hc' ltac:(lia) Hgood' Hroom'
                ltac:(rewrite Hstart; exact Hrest)) as [Hev Hgood''].
    split; [|exact Hgood''].
    rewrite Hev, Hout, Hstart, !events_app, Hmeta. cbn [app map].
    rewrite <- app_assoc. f_equal.
    assert (exists p, tensor_table_ (write flush tl c) !! call_tensor_name c = Some p)
      as [p Hp].
    { destruct Htable as [Hsame|[Hnew ->]]; [|rewrite lookup_insert_eq; eauto].
      destruct (write_output flush tl c Hc ltac:(lia) Hgood) as (p & ? & ? & ? & ? & H & _).
      eauto. }
    unfold event_of at 1 3. rewrite Hp, (Hkeep _ _ Hp). reflexivity.
Qed.




Lemma timestamps_non_decreasing start pids calls : forall now,
  clock_monotone now calls ->
  non_decreasing (Z.quot (now - start) 1000)
    (map timestamp (map (event_of start pids) calls)).
Proof.
  induction calls as [|c calls IH]; intros now Hmono; [exact I|].
  destruct Hmono as [Hle Hrest]. cbn [map non_decreasing timestamp event_of]. split.
  - apply Z.quot_le_mono; lia.
  - apply IH. exact Hrest.
Qed.



(** A call keeps the process ids dense. *)
Lemma dense_write flush tl c :
  consistent tl -> Z.of_nat (size (tensor_table_ tl)) < INT_MAX ->
  dense (tensor_table_ tl) -> dense (tensor_table_ (write flush tl c)).
Proof.
  intros Hc Hsize Hdense.
  destruct (good (file_ tl)) eqn:Hgood; [|now rewrite write_bad].
  destruct (tensor_table_ tl !! call_tensor_name c) as [p|] eqn:Hp.
  - assert (p <> 0) as Hp0 by (pose proof (pid_range _ Hc _ _ Hp); lia).
    destruct (write_known flush tl c p Hgood Hp Hp0) as (ts & dur & args & -> & _).
    assumption.
  - destruct (write_fresh flush tl c Hgood Hp Hsize) as (ts & dur & args & -> & _).
    intros k Hk. rewrite map_size_insert_None in Hk by assumption.
    destruct (decide (k = Z.of_nat (size (tensor_table_ tl)) + 1)) as [->|Hother].
    + exists (call_tensor_name c). apply lookup_insert_eq.
    + destruct (Hdense k ltac:(lia)) as [name Hname].
      exists name. rewrite lookup_insert_ne; [assumption|]. congruence.
Qed.

Lemma dense_run flush calls : forall tl,
  consistent tl ->
  Z.of_nat (size (tensor_table_ tl)) + Z.of_nat (length calls) <= INT_MAX ->
  dense (tensor_table_ tl) -> dense (tensor_table_ (run flush tl calls)).
Proof.
  induction calls as [|c calls IH]; intros tl Hc Hsize Hdense; [exact Hdense|].
  change (run flush tl (c :: calls)) with (run flush (write flush tl c) calls).
  cbn [length] in Hsize. pose proof (write_size flush tl c) as Hgrow.
  apply IH.
  - apply consistent_write; [assumption|lia].
  - lia.
  - apply dense_write; [assumption|lia|assumption].
Qed.



End TimelineEventFacts.

(** ** The public event methods *)

Module TimelineMethodFacts.
Import Timeline TimelineSpec TimelineMethods TimelineFacts TimelineEventFacts.

Section Methods.

Variable TIMELINE_FLUSH_TIME : Z.
Variable default_args : string.
Variable RequestType_Name : Request.RequestType -> string.
Variable ResponseType_Name : ResponseType -> string.
Variable to_string : Z -> string.
Variable DebugString : list Z -> string.

Local Abbreviation invoke :=
  (invoke TIMELINE_FLUSH_TIME default_args RequestType_Name ResponseType_Name
     to_string DebugString).
Local Abbreviation invoke_all :=
  (invoke_all TIMELINE_FLUSH_TIME default_args RequestType_Name ResponseType_Name
     to_string DebugString).
Local Abbreviation as_call :=
  (as_call default_args RequestType_Name ResponseType_Name to_string DebugString).

Lemma invoke_uninitialized tl m : initialized_ tl = false -> invoke tl m = tl.
Proof.
  intros H. destruct m as [[] now];
    unfold TimelineMethods.invoke, NegotiateStart, NegotiateRankReady, NegotiateEnd, Start,
      WaitForDataStart, WaitForDataEnd, NcclInitStart, NcclInitEnd, QueueStart, QueueEnd,
      ProcessStart, ProcessEnd, End; cbn [fst snd]; rewrite H; reflexivity.
Qed.

Lemma invoke_initialized tl m :
  initialized_ tl = true -> invoke tl m = write TIMELINE_FLUSH_TIME tl (as_call m).
Proof.
  intros H. destruct m as [[] now];
    unfold TimelineMethods.invoke, NegotiateStart, NegotiateRankReady, NegotiateEnd, Start,
      WaitForDataStart, WaitForDataEnd, NcclInitStart, NcclInitEnd, QueueStart, QueueEnd,
      ProcessStart, ProcessEnd, End; cbn [fst snd]; rewrite H; reflexivity.
Qed.

Lemma write_keeps_initialized flush tl c :
  initialized_ (write flush tl c) = initialized_ tl.
Proof.
  unfold write, WriteEvent. destruct (negb (good (file_ tl))); [reflexivity|].
  destruct (default 0 (subscript (call_tensor_name c) (tensor_table_ tl)
                         !! call_tensor_name c) =? 0); reflexivity.
Qed.

Lemma invoke_all_initialized ms : forall tl,
  initialized_ tl = true ->
  invoke_all tl ms = run TIMELINE_FLUSH_TIME tl (map as_call ms).
Proof.
  induction ms as [|m ms IH]; intros tl H; [reflexivity|].
  change (invoke_all tl (m :: ms)) with (invoke_all (invoke tl m) ms).
  cbn [map]. change (run TIMELINE_FLUSH_TIME tl (as_call m :: map as_call ms))
    with (run TIMELINE_FLUSH_TIME (write TIMELINE_FLUSH_TIME tl (as_call m))
            (map as_call ms)).
  rewrite invoke_initialized by assumption.
  apply IH. now rewrite write_keeps_initialized.
Qed.

(** X19: a timeline whose file could not be opened stays silent.  If
    [Initialize] fails to open the file of a timeline that was not
    initialised before, then every later call of a public event method, in
    any number and order, returns without any effect: the timeline object
    is unchanged, nothing is in the file and no process id is handed out. *)
Theorem X19_failed_open_stays_silent tl0 capacity now ms :
  initialized_ tl0 = false ->
  invoke_all (Initialize tl0 false capacity now) ms = Initialize tl0 false capacity now
  /\ initialized_ (invoke_all (Initialize tl0 false capacity now) ms) = false
  /\ written (file_ (invoke_all (Initialize tl0 false capacity now) ms)) = []
  /\ tensor_table_ (invoke_all (Initialize tl0 false capacity now) ms) = tensor_table_ tl0.
Proof.
  intros H0.
  assert (forall tl, initialized_ tl = false -> invoke_all tl ms = tl) as Hsilent.
  { induction ms as [|m ms IH]; intros tl H; [reflexivity|].
    change (invoke_all tl (m :: ms)) with (invoke_all (invoke tl m) ms).
    rewrite invoke_uninitialized by assumption. now apply IH. }
  assert (Initialize tl0 false capacity now
          = mk false (mkStream false [] capacity) (tensor_table_ tl0) (start_time_ tl0)
               (last_flush_time_ tl0)) as Hfailed.
  { unfold Initialize. rewrite H0. reflexivity. }
  assert (initialized_ (Initialize tl0 false capacity now) = false) as Hinit
    by (now rewrite Hfailed).
  rewrite (Hsilent _ Hinit), Hfailed. repeat split.
Qed.

Lemma End_args_present o :
  String.eqb (End_args DebugString (Some o)) "" = false.
Proof. reflexivity. Qed.


End Methods.


Lemma X19_failed_open_stays_silent_witness :
  written (file_ (invoke_all 1000000000 "" TimelineExamples.RequestType_Name
                    TimelineExamples.ResponseType_Name TimelineExamples.to_string
                    TimelineExamples.DebugString
                    (Initialize fresh false None 0) TimelineExamples.one_allreduce))
  = [].
Proof.
  destruct (X19_failed_open_stays_silent 1000000000 "" TimelineExamples.RequestType_Name
              TimelineExamples.ResponseType_Name TimelineExamples.to_string
              TimelineExamples.DebugString fresh None 0 TimelineExamples.one_allreduce
              eq_refl) as (_ & _ & Hfile & _).
  exact Hfile.
Defined.


End TimelineMethodFacts.

(* ===================================================================== *)
(** * The order of the registered operations *)
(* ===================================================================== *)

Module OperationManagerFacts.
Import OperationManager.

(** The GPU stage registers one of four lists of allreduce operations, and at
    most the hierarchical allgather. *)
Lemma gpu_stage (b : Build) :
  exists gpu_ops gather_ops,
    (if HAVE_CUDA b
     then
       if Ascii.eqb (HOROVOD_GPU_ALLREDUCE b) "M"
       then ([MPI_CUDAAllreduce], [])
       else
         (if HAVE_NCCL b && Ascii.eqb (HOROVOD_GPU_ALLREDUCE b) "N"
          then [NCCLHierarchicalAllreduce; NCCLAllreduce]
          else if HAVE_DDL b && Ascii.eqb (HOROVOD_GPU_ALLREDUCE b) "D"
               then [DDLAllreduce]
               else [],
          [MPIHierarchicalAllgather])
     else ([], [])) = (gpu_ops, gather_ops)
    /\ (gpu_ops = [] \/ gpu_ops = [MPI_CUDAAllreduce]
        \/ gpu_ops = [NCCLHierarchicalAllreduce; NCCLAllreduce]
        \/ gpu_ops = [DDLAllreduce])
    /\ (gather_ops = [] \/ gather_ops = [MPIHierarchicalAllgather]).
Proof.
  destruct (HAVE_CUDA b); [|eexists _, _; split; [reflexivity|auto]].
  destruct (Ascii.eqb (HOROVOD_GPU_ALLREDUCE b) "M");
    [eexists _, _; split; [reflexivity|auto]|].
  destruct (HAVE_NCCL b && Ascii.eqb (HOROVOD_GPU_ALLREDUCE b) "N");
    [eexists _, _; split; [reflexivity|auto]|].
  destruct (HAVE_DDL b && Ascii.eqb (HOROVOD_GPU_ALLREDUCE b) "D");
    eexists _, _; (split; [reflexivity|auto 6]).
Qed.

Ltac distinct :=
  repeat (constructor; [rewrite ?elem_of_cons, ?elem_of_nil; intuition discriminate|]);
  constructor.

Ltac members := rewrite ?elem_of_cons, ?elem_of_nil; intuition discriminate.

(** X21: the MPI operations are the last resort, whatever the build.  For
    every combination of build flags and every CPU library selected at run
    time, each of the three lists handed to the operation manager ends
    with its MPI operation, holds no operation twice (so none of them is
    empty), and the allreduce list asks every GPU operation before every
    CPU operation.  Gloo and MLSL operations are never registered
    together, in none of the three lists: the Gloo operations are in all
    three lists or in none, likewise the MLSL operations, and no list
    holds both. *)
Theorem X21_mpi_operations_are_last_resort b cpu_operation :
  last (allreduce_ops (CreateOperationManager b cpu_operation)) = Some MPIAllreduce
  /\ last (allgather_ops (CreateOperationManager b cpu_operation)) = Some MPIAllgather
  /\ last (broadcast_ops (CreateOperationManager b cpu_operation)) = Some MPIBroadcast
  /\ NoDup (allreduce_ops (CreateOperationManager b cpu_operation))
  /\ NoDup (allgather_ops (CreateOperationManager b cpu_operation))
  /\ NoDup (broadcast_ops (CreateOperationManager b cpu_operation))
  /\ (exists gpu_ops cpu_ops,
        allreduce_ops (CreateOperationManager b cpu_operation) = gpu_ops ++ cpu_ops
        /\ Forall (fun op => on_gpu op = true) gpu_ops
        /\ Forall (fun op => on_gpu op = false) cpu_ops)
  /\ ~ (GlooAllreduce ∈ allreduce_ops (CreateOperationManager b cpu_operation)
        /\ MLSLAllreduce ∈ allreduce_ops (CreateOperationManager b cpu_operation))
  /\ ~ (GlooAllgather ∈ allgather_ops (CreateOperationManager b cpu_operation)
        /\ MLSLAllgather ∈ allgather_ops (CreateOperationManager b cpu_operation))
  /\ ~ (GlooBroadcast ∈ broadcast_ops (CreateOperationManager b cpu_operation)
        /\ MLSLBroadcast ∈ broadcast_ops (CreateOperationManager b cpu_operation))
  /\ (GlooAllreduce ∈ allreduce_ops (CreateOperationManager b cpu_operation)
      <-> GlooAllgather ∈ allgather_ops (CreateOperationManager b cpu_operation))
  /\ (GlooAllreduce ∈ allreduce_ops (CreateOperationManager b cpu_operation)
      <-> GlooBroadcast ∈ broadcast_ops (CreateOperationManager b cpu_operation))
  /\ (MLSLAllreduce ∈ allreduce_ops (CreateOperationManager b cpu_operation)
      <-> MLSLAllgather ∈ allgather_ops (CreateOperationManager b cpu_operation))
  /\ (MLSLAllreduce ∈ allreduce_ops (CreateOperationManager b cpu_operation)
      <-> MLSLBroadcast ∈ broadcast_ops (CreateOperationManager b cpu_operation)).
Proof.
  unfold CreateOperationManager. cbv zeta.
  destruct (gpu_stage b) as (gpu_ops & gather_ops & -> & Hgpu & Hgather).
  assert (HAVE_GLOO b && is_GLOO cpu_operation = false
          \/ HAVE_MLSL b && is_MLSL cpu_operation = false) as Hone.
  { destruct cpu_operation; cbn [is_GLOO is_MLSL]; rewrite ?andb_false_r; auto. }
  assert (Forall (fun op => on_gpu op = true) gpu_ops) as Hon.
  { destruct Hgpu as [-> | [-> | [-> | ->]]]; repeat constructor. }
  destruct (HAVE_GLOO b && is_GLOO cpu_operation),
    (HAVE_MLSL b && is_MLSL cpu_operation);
    try (exfalso; destruct Hone; discriminate);
    cbn [allreduce_ops allgather_ops broadcast_ops app];
    rewrite <- ?app_assoc; cbn [app].
  all: match goal with
       | |- context [last (?g0 ++ ?cpu_ops)] =>
         assert (exists g c, g0 ++ cpu_ops = g ++ c
                             /\ Forall (fun op => on_gpu op = true) g
                             /\ Forall (fun op => on_gpu op = false) c) as Horder
           by (exists g0, cpu_ops; split; [reflexivity|split; [exact Hon|]];
               repeat constructor)
       end.
  all: destruct Hgpu as [-> | [-> | [-> | ->]]], Hgather as [-> | ->]; cbn [app] in *.
  all: do 3 (split; [reflexivity|]).
  all: do 3 (split; [distinct|]).
  all: split; [exact Horder|].
  all: do 6 (split; [members|]).
  all: members.
Qed.

(** The lists of a CUDA and NCCL build that runs Gloo on the CPU. *)
Example nccl_build_with_gloo :
  CreateOperationManager nccl_build GLOO
  = mk [NCCLHierarchicalAllreduce; NCCLAllreduce; GlooAllreduce; MPIAllreduce]
       [MPIHierarchicalAllgather; GlooAllgather; MPIAllgather]
       [GlooBroadcast; MPIBroadcast].
Proof. reflexivity. Qed.

End OperationManagerFacts.

(* ===================================================================== *)
(** * Starting and stopping the background thread *)
(* ===================================================================== *)

Module LifecycleFacts.
Import Operations OperationsExamples EnqueueSpec Lifecycle.

(** A call on a settled process returns a settled process, or waits for a
    thread that makes no progress. *)
Lemma call_settled c p :
  settled p ->
  (exists p',
     call c p = Done p' /\ settled p'
     /\ (threads_started p'
         = threads_started p
           + (if is_shutdown c then 0 else if initialize_flag p then 0 else 1))%nat
     /\ (is_shutdown c = false -> initialize_flag p' = true)
     /\ (is_shutdown c = false -> initialize_flag p = true -> p' = p))
  \/ (call c p = Stalls /\ progresses c = false).
Proof.
  intros [Hjoin Hdone].
  destruct c as [new_controller thread_initialises|[until_loop_exit|]];
    cbn [call is_shutdown progresses];
    unfold horovod_init, InitializeHorovodOnce, horovod_shutdown_joining.
  - destruct (initialize_flag p) eqn:Hflag; cbn [negb].
    + left. rewrite (Hdone eq_refl). exists p. unfold settled. rewrite Hflag.
      repeat split; auto; lia.
    + rewrite Hjoin. cbn [global with_controller initialization_done joinable].
      destruct thread_initialises; [left|right; auto].
      eexists. split; [reflexivity|]. unfold settled.
      cbn [global initialize_flag joinable threads_started with_initialization_done
             initialization_done].
      repeat split; auto; try lia; discriminate.
  - left. destruct (joinable p) eqn:Hj.
    + eexists. split; [reflexivity|]. unfold settled.
      cbn [global initialize_flag joinable threads_started].
      repeat split; auto; try lia; discriminate.
    + exists p. unfold settled. repeat split; auto; try lia; try discriminate.
      congruence.
  - destruct (joinable p) eqn:Hj; [right; auto|].
    left. exists p. unfold settled. repeat split; auto; try lia; try discriminate.
    congruence.
Qed.

Lemma calls_app cs1 cs2 p :
  calls (cs1 ++ cs2) p
  = match calls cs1 p with
    | Done p' => calls cs2 p'
    | Terminated => Terminated
    | Hangs => Hangs
    | Stalls => Stalls
    end.
Proof.
  revert p. induction cs1 as [|c cs1 IH]; intros p; [reflexivity|].
  cbn [app calls]. destruct (call c p); auto.
Qed.

(** A sequence of calls on a settled process returns a settled process,
    or one of its calls waits for a thread that makes no progress. *)
Lemma calls_settled cs : forall p,
  settled p ->
  (exists p',
     calls cs p = Done p' /\ settled p'
     /\ (threads_started p'
         <= threads_started p + (if initialize_flag p then 0 else 1)
            + length (List.filter is_shutdown cs))%nat)
  \/ (calls cs p = Stalls /\ Exists (fun c => progresses c = false) cs).
Proof.
  induction cs as [|c cs IH]; intros p Hp.
  - left. exists p. cbn. repeat split; try apply Hp. destruct (initialize_flag p); lia.
  - cbn [calls].
    destruct (call_settled c p Hp)
      as [(p1 & Hcall & Hp1 & Hcount & Hflag & _)|[Hcall Hstuck]].
    + rewrite Hcall.
      destruct (IH p1 Hp1) as [(p2 & Hcalls & Hp2 & Hcount2)|[Hcalls Hstuck]].
      * left. exists p2. split; [exact Hcalls|split; [exact Hp2|]].
        cbn [List.filter]. destruct c as [new_controller thread_initialises|thread_ends];
          cbn [is_shutdown] in *.
        -- rewrite (Hflag eq_refl) in Hcount2. destruct (initialize_flag p); lia.
        -- cbn [length]. destruct (initialize_flag p1), (initialize_flag p); lia.
      * right. split; [exact Hcalls|]. now apply Exists_cons_tl.
    + right. rewrite Hcall. split; [reflexivity|]. now apply Exists_cons_hd.
Qed.

(** X22: the background thread is started once per initialisation.  From
    a process in which Horovod was never started, no sequence of calls of
    [horovod_init] and [horovod_shutdown] assigns to a joinable thread
    (which would terminate the program) or waits for a thread that does
    not exist; a call fails to return only while it waits for a background
    thread that makes no progress.  If the background thread makes
    progress in every call (it completes its initialisation, and it ends
    when it is joined), the sequence returns; afterwards a thread is
    joinable exactly when the initialise flag is set, the number of threads
    started is at most one more than the number of shutdown calls, and a
    call of [horovod_init] that follows another one without a shutdown in
    between changes nothing. *)
Theorem X22_thread_started_once_per_initialisation g cs :
  calls cs (never_started g) <> Terminated
  /\ calls cs (never_started g) <> Hangs
  /\ (calls cs (never_started g) = Stalls ->
      Exists (fun c => progresses c = false) cs)
  /\ (Forall (fun c => progresses c = true) cs ->
      exists p,
        calls cs (never_started g) = Done p
        /\ joinable p = initialize_flag p
        /\ (threads_started p <= 1 + length (List.filter is_shutdown cs))%nat
        /\ forall c1 c2 progress,
             exists q,
               calls (cs ++ [Init c1 true]) (never_started g) = Done q
               /\ calls (cs ++ [Init c1 true; Init c2 progress]) (never_started g)
                  = Done q).
Proof.
  assert (settled (never_started g)) as H0 by (split; [reflexivity|discriminate]).
  destruct (calls_settled cs _ H0) as [(p & Hcalls & Hp & Hcount)|[Hcalls Hstuck]].
  - rewrite Hcalls. split; [discriminate|split; [discriminate|split; [discriminate|]]].
    intros _. exists p. split; [reflexivity|split; [apply Hp|split; [exact Hcount|]]].
    intros c1 c2 progress.
    destruct (call_settled (Init c1 true) p Hp)
      as [(q & Hq & Hsettled & _ & Hflag & _)|[_ Hno]]; [|discriminate].
    destruct (call_settled (Init c2 progress) q Hsettled)
      as [(q' & Hq' & _ & _ & _ & Hsame)|[Hq' _]].
    + rewrite (Hsame eq_refl (Hflag eq_refl)) in Hq'.
      exists q. rewrite !calls_app, Hcalls. cbn [calls]. rewrite Hq, Hq'. auto.
    + exfalso. destruct Hsettled as [_ Hdone].
      cbn [call] in Hq'. unfold horovod_init, InitializeHorovodOnce in Hq'.
      rewrite (Hflag eq_refl) in Hq'. cbn [negb] in Hq'.
      rewrite (Hdone (Hflag eq_refl)) in Hq'. discriminate.
  - rewrite Hcalls. split; [discriminate|split; [discriminate|split; [auto|]]].
    intros Hall. exfalso.
    apply Exists_exists in Hstuck as (c & Hin & Hc).
    rewrite Forall_forall in Hall. rewrite (Hall c Hin) in Hc. discriminate.
Qed.

Lemma X22_thread_started_once_per_initialisation_witness :
  exists p,
    calls [Init rank0 true; Init rank0 true; Shutdown (Some (fun g => g)); Init rank0 true]
      (never_started not_started) = Done p
    /\ joinable p = initialize_flag p
    /\ (threads_started p <= 2)%nat.
Proof.
  destruct (X22_thread_started_once_per_initialisation not_started
              [Init rank0 true; Init rank0 true; Shutdown (Some (fun g => g));
               Init rank0 true]) as (_ & _ & _ & Hreturns).
  destruct Hreturns as (p & Hp & Hjoin & Hcount & _).
  - repeat constructor.
  - exists p. split; [exact Hp|split; [exact Hjoin|exact Hcount]].
Defined.

(** X23: after [horovod_shutdown] the enqueue functions accept tensors
    again.  When a thread was joinable, [horovod_shutdown] returns with
    an empty tensor table and message queue, a cleared initialise flag and
    no joinable thread, and with [shut_down] reset to false: from then on
    each of the three enqueue functions answers OK for any name and stores
    the tensor, instead of answering the shutdown error. *)
Theorem X23_enqueue_accepted_after_horovod_shutdown
    until_loop_exit p ctl name ctx t ev dev cb result :
  joinable p = true ->
  exists p',
    horovod_shutdown until_loop_exit p = Done p'
    /\ shut_down (global p') = false
    /\ tensor_table (global p') = ∅ /\ message_queue (global p') = []
    /\ initialize_flag p' = false /\ joinable p' = false
    /\ (controller (global p') = Some ctl ->
        enqueued_as (global p') name ctx t ev dev cb result ->
        exists g', result = Some (Status_OK, g')
                   /\ is_Some (tensor_table g' !! name)
                   /\ size (tensor_table g') = 1%nat).
Proof.
  intros Hj. unfold horovod_shutdown, horovod_shutdown_joining. rewrite Hj.
  eexists. split; [reflexivity|].
  cbn [global initialize_flag joinable].
  set (g := with_shut_down _ false).
  assert (shut_down g = false) as Hup by reflexivity.
  assert (tensor_table g = ∅) as Htable by reflexivity.
  split; [exact Hup|split; [exact Htable|split; [|split; [reflexivity|split;
    [reflexivity|]]]]].
  - apply OperationsFacts.pop_all_empty.
  - intros Hctl Henq.
    destruct (EnqueueFacts.enqueued_as_locked _ _ _ _ _ _ _ _ _ Hctl Henq)
      as (e & message & -> & _).
    destruct (OperationsFacts.enqueue_locked_cases g name e message) as (_ & _ & Hnew).
    rewrite Hnew; [|exact Hup|rewrite Htable; apply lookup_empty].
    eexists. split; [reflexivity|]. cbn [with_tables tensor_table].
    rewrite Htable. split.
    + rewrite lookup_insert_eq. eauto.
    + rewrite map_size_insert_None by apply lookup_empty. now rewrite map_size_empty.
Qed.


Lemma X23_enqueue_accepted_after_horovod_shutdown_witness :
  exists p',
    horovod_shutdown (fun g => g) (mkProcess running true true 1) = Done p'
    /\ shut_down (global p') = false
    /\ tensor_table (global p') = ∅
    /\ joinable p' = false
    /\ exists g',
         EnqueueTensorAllreduce (global p') 0 some_tensor None None "a" 0 9%nat
         = Some (Status_OK, g')
         /\ size (tensor_table g') = 1%nat.
Proof.
  destruct (X23_enqueue_accepted_after_horovod_shutdown (fun g => g)
              (mkProcess running true true 1) rank0 "a" 0 some_tensor None 0 9%nat
              (EnqueueTensorAllreduce
                 (with_shut_down
                    (fst (BackgroundThreadLoop_shutdown (with_shut_down running true)))
                    false)
                 0 some_tensor None None "a" 0 9%nat)
              eq_refl)
    as (p' & Hp' & Hup & Htable & _ & _ & Hjoin & Henq).
  exists p'. split; [exact Hp'|split; [exact Hup|split; [exact Htable|split;
    [exact Hjoin|]]]].
  injection Hp' as <-.
  destruct (Henq eq_refl (as_allreduce _ _ _ _ _ _ _ None)) as (g' & Hres & _ & Hsize).
  exists g'. split; [exact Hres|exact Hsize].
Defined.

End LifecycleFacts.
